(** * brainiak_utils: the double-gamma HRF and its downsampled convolution

    A shallow embedding of [src/brainiak_utils.py] ([_double_gamma_hrf] and
    [convolve_hrf]) together with the pieces of Python and numpy the two
    functions rely on:

    - Python exceptions are values of [exn]; a computation that may raise
      lives in the error monad [result];
    - a Python [float] is an IEEE-754 binary64 number, Rocq's primitive
      [float]; a Python [int] is a [Z];
    - [math.pow] and [math.exp] come from the platform's libm and are taken
      as a parameter ([math_module]);
    - a numpy array is a list (one axis) or a shaped table (two axes) over
      an element arithmetic [dtype]; [float64] is the arithmetic numpy runs
      the code with.

    The first part holds the definitions, the second part the facts. *)

From Stdlib Require Import ZArith List String Bool Lia Floats.
Import ListNotations.

Set Warnings "-inexact-float".

Local Open Scope string_scope.
Local Open Scope Z_scope.

(* ===================================================================== *)
(** * Part I: the model *)
(* ===================================================================== *)

(** ** Exceptions and the error monad *)

(** The exceptions the two functions can let escape.  Each carries the
    name or the message Python reports, which tells the raising statements
    apart. *)
Inductive exn : Type :=
| NameError (name : string)
| UnboundLocalError (name : string)
| ValueError (msg : string)
| ZeroDivisionError (msg : string)
| OverflowError (msg : string)
| IndexError (msg : string).

(** [UnboundLocalError] is a subclass of [NameError]: both report a
    variable read before anything was bound to it. *)
Definition is_unbound_variable_error (e : exn) : bool :=
  match e with
  | NameError _ | UnboundLocalError _ => true
  | _ => false
  end.

Inductive result (A : Type) : Type :=
| Ok (a : A)
| Raise (e : exn).

Arguments Ok {A} a.
Arguments Raise {A} e.

Definition bind {A B : Type} (c : result A) (k : A -> result B) : result B :=
  match c with
  | Ok a => k a
  | Raise e => Raise e
  end.

Definition fmap {A B : Type} (f : A -> B) (c : result A) : result B :=
  match c with
  | Ok a => Ok (f a)
  | Raise e => Raise e
  end.

Declare Scope py_scope.
Delimit Scope py_scope with py.
Notation "x <- c ;; k" := (bind c (fun x => k))
  (at level 61, c at next level, right associativity) : py_scope.
Notation "c ;;; k" := (bind c (fun _ => k))
  (at level 61, right associativity) : py_scope.
Local Open Scope py_scope.

Definition raises {A : Type} (c : result A) : Prop := exists e, c = Raise e.

(** [for x in xs: body] over a loop state [S]; the first exception ends
    the loop. *)
Fixpoint for_each {X S : Type} (xs : list X) (body : X -> S -> result S)
  (s : S) : result S :=
  match xs with
  | [] => Ok s
  | x :: xs' => s' <- body x s ;; for_each xs' body s'
  end.

(** [[f(x) for x in xs]] when [f] may raise. *)
Fixpoint map_result {X Y : Type} (f : X -> result Y) (xs : list X)
  : result (list Y) :=
  match xs with
  | [] => Ok []
  | x :: xs' => y <- f x ;; ys <- map_result f xs' ;; Ok (y :: ys)
  end.

(** ** Python numbers *)

(** The elements of a Python list of numbers: [hrf] starts as a list of
    the [int] zero and is overwritten with [float]s. *)
Inductive pynum : Type :=
| PyInt (z : Z)
| PyFloat (f : float).

Module Py.

(** An integer as an (unnormalised) binary floating-point datum. *)
Definition SF_of_Z (z : Z) : spec_float :=
  match z with
  | Z0 => S754_zero false
  | Zpos p => S754_finite false p 0
  | Zneg p => S754_finite true p 0
  end.

(** [float(z)]: the nearest binary64, ties to even; an [int] beyond the
    range of binary64 raises. *)
Definition float_of_int (z : Z) : result float :=
  match binary_normalize prec emax z 0 false with
  | S754_infinity _ =>
      Raise (OverflowError "int too large to convert to float")
  | x => Ok (SF2Prim x)
  end.

(** The integer part of a finite binary floating-point datum, towards
    zero. *)
Definition SF_trunc (s : bool) (m : positive) (e : Z) : Z :=
  let a := match e with
           | Zneg k => Z.shiftr (Zpos m) (Zpos k)
           | _ => Z.shiftl (Zpos m) e
           end in
  if s then - a else a.

(** [int(x)] for a float [x]. *)
Definition int_of_float (x : float) : result Z :=
  match Prim2SF x with
  | S754_nan => Raise (ValueError "cannot convert float NaN to integer")
  | S754_infinity _ =>
      Raise (OverflowError "cannot convert float infinity to integer")
  | S754_zero _ => Ok 0
  | S754_finite s m e => Ok (SF_trunc s m e)
  end.

(** [x / y] on floats: Python raises on a zero divisor (of either sign)
    where IEEE-754 would give an infinity or a NaN. *)
Definition float_truediv (x y : float) : result float :=
  if PrimFloat.eqb y 0%float
  then Raise (ZeroDivisionError "float division by zero")
  else Ok (PrimFloat.div x y).

(** [a / b] on ints: the correctly rounded quotient. *)
Definition int_truediv (a b : Z) : result float :=
  if b =? 0 then Raise (ZeroDivisionError "division by zero")
  else match SFdiv prec emax (SF_of_Z a) (SF_of_Z b) with
       | S754_infinity _ =>
           Raise (OverflowError "integer division result too large for a float")
       | q => Ok (SF2Prim q)
       end.

(** [i / y] with [i] an int and [y] a float: [i] is converted first. *)
Definition int_float_truediv (i : Z) (y : float) : result float :=
  x <- float_of_int i ;; float_truediv x y.

(** [x[i] = v] on a list. *)
Fixpoint list_set {X : Type} (l : list X) (i : nat) (v : X)
  : result (list X) :=
  match l, i with
  | [], _ => Raise (IndexError "list assignment index out of range")
  | _ :: l', O => Ok (v :: l')
  | x :: l', S i' => l'' <- list_set l' i' v ;; Ok (x :: l'')
  end.

End Py.

(** The two functions of Python's [math] module that the HRF uses.  They
    are computed by the platform's libm, whose results are not fixed bit
    for bit, and they raise [ValueError] / [OverflowError] on domain and
    range errors; both are therefore a parameter of the model. *)
Class math_module : Type := {
  math_pow : float -> float -> result float;
  math_exp : float -> result float
}.

(** ** _double_gamma_hrf *)

(** The keyword arguments of [_double_gamma_hrf].  The docstring types all
    of them as floats; the integer defaults [6], [12] and [1] are converted
    to floats by the first operation that touches them. *)
Record hrf_params : Type := {
  response_delay : float;
  undershoot_delay : float;
  response_dispersion : float;
  undershoot_dispersion : float;
  response_scale : float;
  undershoot_scale : float;
  temporal_resolution : float
}.

Definition default_params (temporal_resolution : float) : hrf_params := {|
  response_delay := 6;
  undershoot_delay := 12;
  response_dispersion := 0.9;
  undershoot_dispersion := 0.9;
  response_scale := 1;
  undershoot_scale := 0.035;
  temporal_resolution := temporal_resolution
|}.

Section DoubleGamma.

Context {libm : math_module}.
Variable p : hrf_params.

Definition hrf_length : float := 30.

(** [int(hrf_length * temporal_resolution)] *)
Definition hrf_size : result Z :=
  Py.int_of_float (hrf_length * temporal_resolution p)%float.

Definition response_peak : float :=
  (response_delay p * response_dispersion p)%float.

Definition undershoot_peak : float :=
  (undershoot_delay p * undershoot_dispersion p)%float.

(** The body of the loop, lines 51-69: the value stored at
    [hrf[hrf_counter]]. *)
Definition hrf_sample (hrf_counter : Z) : result float :=
  t1 <- Py.int_float_truediv hrf_counter (temporal_resolution p) ;;
  b1 <- Py.float_truediv t1 response_peak ;;
  resp_pow <- math_pow b1 (response_delay p) ;;
  t2 <- Py.int_float_truediv hrf_counter (temporal_resolution p) ;;
  a2 <- Py.float_truediv (- (t2 - response_peak))%float
                         (response_dispersion p) ;;
  resp_exp <- math_exp a2 ;;
  let response_model := (response_scale p * resp_pow * resp_exp)%float in
  t3 <- Py.int_float_truediv hrf_counter (temporal_resolution p) ;;
  b3 <- Py.float_truediv t3 undershoot_peak ;;
  undershoot_pow <- math_pow b3 (undershoot_delay p) ;;
  t4 <- Py.int_float_truediv hrf_counter (temporal_resolution p) ;;
  q4 <- Py.float_truediv undershoot_peak (undershoot_dispersion p) ;;
  undershoot_exp <- math_exp (- (t4 - q4))%float ;;
  let undershoot_model :=
    (undershoot_scale p * undershoot_pow * undershoot_exp)%float in
  Ok (response_model - undershoot_model)%float.

Definition _double_gamma_hrf : result (list pynum) :=
  n <- hrf_size ;;
  let hrf := repeat (PyInt 0) (Z.to_nat n) in
  for_each (seq 0 (List.length hrf - 1))
    (fun hrf_counter hrf =>
       v <- hrf_sample (Z.of_nat hrf_counter) ;;
       Py.list_set hrf hrf_counter (PyFloat v))
    hrf.

(** The closed form of the specification: with
    [t = i / temporal_resolution], the value [response(t) - undershoot(t)],
    where
    [response(t) = response_scale * (t / response_peak)^response_delay
                   * exp(-(t - response_peak) / response_dispersion)]
    and
    [undershoot(t) = undershoot_scale * (t / undershoot_peak)^undershoot_delay
                     * exp(-(t - undershoot_peak / undershoot_dispersion))]. *)
Definition spec_response (t : float) : result float :=
  b <- Py.float_truediv t response_peak ;;
  pw <- math_pow b (response_delay p) ;;
  a <- Py.float_truediv (- (t - response_peak))%float (response_dispersion p) ;;
  ex <- math_exp a ;;
  Ok (response_scale p * pw * ex)%float.

Definition spec_undershoot (t : float) : result float :=
  b <- Py.float_truediv t undershoot_peak ;;
  pw <- math_pow b (undershoot_delay p) ;;
  q <- Py.float_truediv undershoot_peak (undershoot_dispersion p) ;;
  ex <- math_exp (- (t - q))%float ;;
  Ok (undershoot_scale p * pw * ex)%float.

Definition spec_hrf_value (i : Z) : result float :=
  t <- Py.int_float_truediv i (temporal_resolution p) ;;
  r <- spec_response t ;;
  u <- spec_undershoot t ;;
  Ok (r - u)%float.

End DoubleGamma.

(** ** numpy *)

(** The arithmetic of the elements of an array.  numpy fixes it by the
    array's dtype. *)
Class dtype (A : Type) : Type := {
  dzero : A;
  dadd : A -> A -> A;
  dmul : A -> A -> A;
  ddiv : A -> A -> result A;
  dmaximum : A -> A -> A;
  dof_py : pynum -> result A
}.

(** A two-axis array: its shape and its entries.  Every shape exists,
    [(3, 0)] and [(0, 3)] included. *)
Record ndarray2 (A : Type) : Type := {
  shape0 : nat;
  shape1 : nat;
  item : nat -> nat -> A
}.

Arguments shape0 {A} n.
Arguments shape1 {A} n.
Arguments item {A} n i j.

Module np.
Section Arrays.

Context {A : Type} {D : dtype A}.

(** [np.array(rows)] for rows of [ncols] entries. *)
Definition array (ncols : nat) (rows : list (list A)) : ndarray2 A :=
  {| shape0 := List.length rows; shape1 := ncols;
     item := fun i j => nth j (nth i rows []) dzero |}.

(** The rows of an array: [m.tolist()]. *)
Definition tolist (m : ndarray2 A) : list (list A) :=
  map (fun i => map (fun j => item m i j) (seq 0 (shape1 m)))
      (seq 0 (shape0 m)).

(** [m[:, c]] *)
Definition column (m : ndarray2 A) (c : nat) : list A :=
  map (fun i => item m i c) (seq 0 (shape0 m)).

(** [np.zeros((r, c))] *)
Definition zeros (r c : nat) : ndarray2 A :=
  {| shape0 := r; shape1 := c; item := fun _ _ => dzero |}.

(** [m[:, c] = v]: [v] has one value per row, or a single value that is
    broadcast to every row. *)
Definition set_column (m : ndarray2 A) (c : nat) (v : list A)
  : result (ndarray2 A) :=
  if (List.length v =? shape0 m)%nat then
    Ok {| shape0 := shape0 m; shape1 := shape1 m;
          item := fun i j => if (j =? c)%nat then nth i v dzero
                             else item m i j |}
  else if (List.length v =? 1)%nat then
    Ok {| shape0 := shape0 m; shape1 := shape1 m;
          item := fun i j => if (j =? c)%nat then nth 0 v dzero
                             else item m i j |}
  else Raise (ValueError "could not broadcast input array").

(** [np.asarray] of a list of Python numbers. *)
Definition asarray (l : list pynum) : result (list A) :=
  map_result dof_py l.

(** Entry [n] of the full convolution of [a] and [v]: the sum of
    [a[j] * v[n - j]] over the [j] for which both indices exist, in
    increasing [j].  (numpy does not fix the order of the additions.) *)
Definition conv_at (a v : list A) (n : nat) : A :=
  let lo := (n - (List.length v - 1))%nat in
  let hi := Nat.min n (List.length a - 1) in
  fold_left
    (fun acc j => dadd acc (dmul (nth j a dzero) (nth (n - j) v dzero)))
    (seq lo (hi + 1 - lo)) dzero.

(** [np.convolve(a, v)] in its default mode ['full'] on two arrays: the
    longer argument is taken first, an empty argument is refused, the
    result has [len(a) + len(v) - 1] entries. *)
Definition convolve_arrays (a v : list A) : result (list A) :=
  let '(a, v) := if (List.length a <? List.length v)%nat
                 then (v, a) else (a, v) in
  if (List.length a =? 0)%nat then Raise (ValueError "a cannot be empty")
  else if (List.length v =? 0)%nat then Raise (ValueError "v cannot be empty")
  else Ok (map (conv_at a v)
               (seq 0 (List.length a + List.length v - 1))).

(** [np.convolve(a, v)] with [v] a Python list, converted first. *)
Definition convolve (a : list A) (v : list pynum) : result (list A) :=
  v' <- asarray v ;; convolve_arrays a v'.

(** [a[:stop]] *)
Definition slice_to (a : list A) (stop : Z) : list A :=
  let n := Z.of_nat (List.length a) in
  let stop' := if stop <? 0 then Z.max 0 (stop + n) else Z.min stop n in
  firstn (Z.to_nat stop') a.

(** [a[start::step]] *)
Definition slice_from_step (a : list A) (start step : Z)
  : result (list A) :=
  let n := Z.of_nat (List.length a) in
  if step =? 0 then Raise (ValueError "slice step cannot be zero")
  else if 0 <? step then
    let lo := if start <? 0 then Z.max 0 (start + n) else Z.min start n in
    let count := if lo <? n then (n - lo - 1) / step + 1 else 0 in
    Ok (map (fun i => nth (Z.to_nat (lo + Z.of_nat i * step)) a dzero)
            (seq 0 (Z.to_nat count)))
  else
    let hi := if start <? 0 then Z.max (-1) (start + n)
              else Z.min start (n - 1) in
    let count := if -1 <? hi then hi / (- step) + 1 else 0 in
    Ok (map (fun i => nth (Z.to_nat (hi + Z.of_nat i * step)) a dzero)
            (seq 0 (Z.to_nat count))).

(** [np.max(a)] *)
Definition max (a : list A) : result A :=
  match a with
  | [] => Raise (ValueError
            "zero-size array to reduction operation maximum which has no identity")
  | x :: a' => Ok (fold_left dmaximum a' x)
  end.

(** [a / m] for an array [a] and a scalar [m]. *)
Definition divide (a : list A) (m : A) : result (list A) :=
  map_result (fun x => ddiv x m) a.

End Arrays.
End np.

(** binary64 arrays, the arithmetic [convolve_hrf] runs with.
    [np.maximum] hands on a NaN; a division never raises (numpy warns and
    stores the infinity or the NaN). *)
Definition float64_maximum (x y : float) : float :=
  if is_nan x then x
  else if is_nan y then y
  else if PrimFloat.ltb x y then y else x.

Definition float64_of_py (v : pynum) : result float :=
  match v with
  | PyInt z => Py.float_of_int z
  | PyFloat f => Ok f
  end.

#[export] Instance float64 : dtype float := {|
  dzero := 0%float;
  dadd := PrimFloat.add;
  dmul := PrimFloat.mul;
  ddiv := fun x y => Ok (PrimFloat.div x y);
  dmaximum := float64_maximum;
  dof_py := float64_of_py
|}.

(** ** convolve_hrf *)

(** The values [hrf_type] is dispatched on: a [str]; a [list] of numbers;
    a numpy array of numbers, given by its first entry and the others
    (the truth value of an array without entries depends on the version
    of numpy, and such an array is left out); or anything else whose
    comparison with a [str] is the plain [False] ([None], a number, a
    tuple). *)
Inductive hrf_arg : Type :=
| HrfStr (s : string)
| HrfList (l : list pynum)
| HrfArray (x : pynum) (xs : list pynum)
| HrfOther.

(** Line 126, the truth value of [if hrf_type == 'double_gamma':].  Two strings
    compare by their characters; a list, a number, a tuple or [None]
    compares unequal to a string.  An array compares entry by entry, a
    number being unequal to a string, and the result is an array of as
    many [False]: [if] takes the entry of an array of one, and refuses an
    array of more with a [ValueError]. *)
Definition ambiguous_truth_value : exn :=
  ValueError
    "The truth value of an array with more than one element is ambiguous. Use a.any() or a.all()".

Definition is_double_gamma (hrf_type : hrf_arg) : result bool :=
  match hrf_type with
  | HrfStr s => Ok (String.eqb s "double_gamma")
  | HrfList _ => Ok false
  | HrfArray _ [] => Ok false
  | HrfArray _ (_ :: _) => Raise ambiguous_truth_value
  | HrfOther => Ok false
  end.

(** The names bound at module level: the two imports and the two
    functions.  Nothing binds [logger]. *)
Definition module_globals : list string :=
  ["math"; "np"; "_double_gamma_hrf"; "convolve_hrf"].

(** Reading a global name. *)
Definition global (name : string) : result unit :=
  if existsb (String.eqb name) module_globals then Ok tt
  else Raise (NameError name).

(** Reading a local variable that may not have been assigned. *)
Definition local {X : Type} (name : string) (v : option X) : result X :=
  match v with
  | Some x => Ok x
  | None => Raise (UnboundLocalError name)
  end.

Section ConvolveHrf.

Context {libm : math_module} {A : Type} {D : dtype A}.

Variable stimfunction : ndarray2 A.
Variable tr_duration : float.
Variable hrf_type : hrf_arg.
Variable scale_function : bool.
Variable temporal_resolution : float.

(** Line 122: [stride = int(temporal_resolution * tr_duration)] *)
Definition get_stride : result Z :=
  Py.int_of_float (temporal_resolution * tr_duration)%float.

(** Line 123: [duration = int(stimfunction.shape[0] / stride)] *)
Definition get_duration (stride : Z) : result Z :=
  q <- Py.int_truediv (Z.of_nat (shape0 stimfunction)) stride ;;
  Py.int_of_float q.

(** Lines 126-129: the binding of [hrf], [None] when neither branch is
    taken. *)
Definition get_hrf : result (option (list pynum)) :=
  double_gamma <- is_double_gamma hrf_type ;;
  if double_gamma then
    hrf <- _double_gamma_hrf (default_params temporal_resolution) ;;
    Ok (Some hrf)
  else
    match hrf_type with
    | HrfList l => Ok (Some l)
    | _ => Ok None
    end.

(** Line 145: [int(stride / 2)] *)
Definition get_offset (stride : Z) : result Z :=
  q <- Py.int_truediv stride 2 ;; Py.int_of_float q.

(** Lines 138-145 for one column: convolve, truncate, resample. *)
Definition signal_vox_of (stride duration : Z) (hrf : option (list pynum))
  (list_counter : nat) : result (list A) :=
  let a := np.column stimfunction list_counter in
  v <- local "hrf" hrf ;;
  signal_temp <- np.convolve a v ;;
  let signal_temp := np.slice_to signal_temp (duration * stride) in
  start <- get_offset stride ;;
  np.slice_from_step signal_temp start stride.

(** Lines 148-149 *)
Definition scale (signal_vox : list A) : result (list A) :=
  if scale_function then
    m <- np.max signal_vox ;; np.divide signal_vox m
  else Ok signal_vox.

(** The body of the loop over the columns, lines 138-155; the loop
    state is the binding of [signal_function]. *)
Definition column_body (stride duration : Z) (hrf : option (list pynum))
  (list_counter : nat) (signal_function : option (ndarray2 A))
  : result (option (ndarray2 A)) :=
  signal_vox <- signal_vox_of stride duration hrf list_counter ;;
  signal_vox <- scale signal_vox ;;
  let signal_function :=
    if (list_counter =? 0)%nat
    then Some (np.zeros (List.length signal_vox) (shape1 stimfunction))
    else signal_function in
  m <- local "signal_function" signal_function ;;
  m' <- np.set_column m list_counter signal_vox ;;
  Ok (Some m').

Definition convolve_hrf : result (ndarray2 A) :=
  (if (shape0 stimfunction <? shape1 stimfunction)%nat
   then global "logger" else Ok tt) ;;;
  stride <- get_stride ;;
  duration <- get_duration stride ;;
  hrf <- get_hrf ;;
  let list_num := shape1 stimfunction in
  signal_function <-
    for_each (seq 0 list_num) (column_body stride duration hrf) None ;;
  local "signal_function" signal_function.

End ConvolveHrf.

(** ** A small libm, to run the model *)

(** The facts of the second part hold for every [math_module].  To
    evaluate the synthesizer on concrete inputs some implementation is
    needed; this one computes [pow] for whole non-negative exponents by
    repeated multiplication and [exp] by a Taylor polynomial after halving
    the argument ten times.  It agrees with a production libm to the
    leading digits only. *)
Module Libm.

Fixpoint pow_nat (x : float) (n : nat) : float :=
  match n with
  | O => 1%float
  | S n' => (x * pow_nat x n')%float
  end.

Definition pow (x y : float) : result float :=
  match Py.int_of_float y with
  | Ok n =>
      match Py.float_of_int n with
      | Ok y' =>
          if (0 <=? n) && PrimFloat.eqb y' y
          then Ok (pow_nat x (Z.to_nat n))
          else Raise (ValueError "math domain error")
      | Raise e => Raise e
      end
  | Raise _ => Raise (ValueError "math domain error")
  end.

(** [1 + x/k * (1 + x/(k+1) * (...))], [n] factors deep. *)
Fixpoint taylor (x : float) (k : nat) (n : nat) : float :=
  match n with
  | O => 1%float
  | S n' =>
      (1 + x / of_uint63 (Uint63.of_Z (Z.of_nat k)) * taylor x (S k) n')%float
  end.

Fixpoint square_n (y : float) (n : nat) : float :=
  match n with
  | O => y
  | S n' => square_n (y * y)%float n'
  end.

Definition exp (x : float) : result float :=
  let y := square_n (taylor (x / 1024)%float 1 20) 10 in
  if is_infinity y then Raise (OverflowError "math range error")
  else Ok y.

Definition approx : math_module := {| math_pow := pow; math_exp := exp |}.

End Libm.

(** ** Vocabulary of the statements *)

(** Integers below this bound are binary64 numbers, and the quotient of
    two of them, rounded to binary64, still has the right integer part. *)
Definition int_exact_bound : Z := 2 ^ 53.

(** A float that is neither a zero, an infinity nor a NaN. *)
Definition finite_nonzero (x : float) : Prop :=
  exists s m e, Prim2SF x = S754_finite s m e.

(** A zero of either sign, or a NaN. *)
Definition zero_or_nan (x : float) : Prop :=
  match Prim2SF x with
  | S754_zero _ | S754_nan => True
  | _ => False
  end.

(** The value of a finite binary datum [m * 2^e], cut to an integer. *)
Definition trunc_val (m e : Z) : Z :=
  if e <? 0 then m / 2 ^ (- e) else m * 2 ^ e.

(** The second half of [binary_round_aux]: renormalise the rounded
    mantissa and box it. *)
Definition finish (M e : Z) : spec_float :=
  let '(mrs'', e'') := shr_fexp prec emax M e loc_Exact in
  match shr_m mrs'' with
  | Z0 => S754_zero false
  | Zpos m => if e'' <=? emax - prec then S754_finite false m e''
              else S754_infinity false
  | Zneg _ => S754_nan
  end.

(** A shifted mantissa that lost no digit: neither the round bit nor the
    sticky bit is set. *)
Definition exact_record (mrs : shr_record) : Prop :=
  shr_r mrs = false /\ shr_s mrs = false.

(** A zero of either sign. *)
Definition signed_zero (x : float) : Prop :=
  exists s, Prim2SF x = S754_zero s.

(** [hrf_type] leaves [hrf] unassigned: it is neither the string
    ['double_gamma'] nor a list. *)
Definition leaves_hrf_unbound (hrf_type : hrf_arg) : Prop :=
  match hrf_type with
  | HrfStr s => String.eqb s "double_gamma" = false
  | HrfList _ => False
  | HrfArray _ _ => True
  | HrfOther => True
  end.

Section Vocabulary.

Context {A : Type} {D : dtype A}.

(** One sample per window of [s] samples, [off] into the window, from
    the first [d] windows of [y]: [y[:d * s][off::s]]. *)
Definition resample (s d off : Z) (y : list A) : list A :=
  map (fun k => nth (Z.to_nat (Z.of_nat k * s + off))
                    (firstn (Z.to_nat (d * s)) y) dzero)
      (seq 0 (Z.to_nat d)).

(** The convolution [np.convolve] returns when it does not raise. *)
Definition full_convolution (a : list A) (h : list pynum) : list A :=
  match np.convolve a h with
  | Ok y => y
  | Raise _ => []
  end.

(** [stimfunction] with column [c0] multiplied pointwise by [a]. *)
Definition scale_column (m : ndarray2 A) (c0 : nat) (a : A) : ndarray2 A :=
  {| shape0 := shape0 m; shape1 := shape1 m;
     item := fun i j => if (j =? c0)%nat then dmul a (item m i j)
                        else item m i j |}.

(** The pairs of factors of entry [n] of the full convolution of [a] and
    [v], in the order [np.conv_at] adds their products. *)
Definition conv_terms (a v : list A) (n : nat) : list (A * A) :=
  let lo := (n - (List.length v - 1))%nat in
  let hi := Nat.min n (List.length a - 1) in
  map (fun j => (nth j a dzero, nth (n - j) v dzero)) (seq lo (hi + 1 - lo)).

(** Two arrays of which the second is the first with column [c0]
    multiplied by [a]. *)
Definition column_scaled (a : A) (c0 : nat) (m m' : ndarray2 A) : Prop :=
  shape0 m' = shape0 m /\ shape1 m' = shape1 m /\
  forall k c, item m' k c =
              if (c =? c0)%nat then dmul a (item m k c) else item m k c.

(** The same, for the array under construction in the loop, which is
    unbound before the first column. *)
Definition state_scaled (a : A) (c0 : nat) (st st' : option (ndarray2 A))
  : Prop :=
  match st, st' with
  | None, None => True
  | Some m, Some m' => column_scaled a c0 m m'
  | _, _ => False
  end.

End Vocabulary.

(** The two statements of the loop body that produce a column. *)
Definition column_result {A : Type} {D : dtype A}
  (stimfunction : ndarray2 A) (scale_function : bool) (s d : Z)
  (hrf : option (list pynum)) (c : nat) : result (list A) :=
  signal_vox <- signal_vox_of stimfunction s d hrf c ;;
  scale scale_function signal_vox.

(** [a] is the binary64 number [2^k]: significand [2^52], exponent
    [k - 52]. *)
Definition power_of_two (k : Z) (a : float) : Prop :=
  Prim2SF a = S754_finite false 4503599627370496 (k - 52).

(** A zero of either sign, as a test. *)
Definition is_signed_zero (x : float) : bool :=
  match Prim2SF x with
  | S754_zero _ => true
  | _ => false
  end.

(** [x] can be multiplied by [2^k] without rounding: it is a zero, or a
    normal number (a significand of 53 digits) with [2^-1021 <= |x|] and
    [2^-1021 <= |2^k * x| < 2^1024]. *)
Definition scalable (k : Z) (x : float) : bool :=
  match Prim2SF x with
  | S754_zero _ => true
  | S754_finite _ m e =>
      (Zpos (digits2_pos m) =? 53) && (-1073 <=? e) &&
      (-1073 <=? e + k) && (e + k <=? 971)
  | _ => false
  end.

(** The two factors and their product are in that range, and the product
    is a zero only when a factor is (no product of nonzero factors rounds
    to zero). *)
Definition product_scalable (k : Z) (p q : float) : bool :=
  scalable k p && scalable k q && scalable k (p * q) &&
  (negb (is_signed_zero (p * q)) || is_signed_zero p || is_signed_zero q).

(** Every product and every partial sum of [acc + p1 * q1 + p2 * q2 + ...],
    added from the left, is in that range. *)
Fixpoint sum_scalable (k : Z) (terms : list (float * float)) (acc : float)
  : bool :=
  match terms with
  | [] => true
  | (p, q) :: terms' =>
      product_scalable k p q && scalable k (acc + p * q) &&
      sum_scalable k terms' (acc + p * q)
  end.

(** Every factor, product and partial sum that [np.convolve(a, v)] forms
    is in that range. *)
Definition convolution_scalable (k : Z) (a v : list float) : bool :=
  let '(a, v) := if (List.length a <? List.length v)%nat
                 then (v, a) else (a, v) in
  forallb (fun n => sum_scalable k (conv_terms a v n) 0)
          (seq 0 (List.length a + List.length v - 1)).

(** [v / np.max(v)] on binary64. *)
Definition float64_scaled (v : list float) : list float :=
  match v with
  | [] => []
  | x :: v' => map (fun y => (y / fold_left float64_maximum v' x)%float) v
  end.

(** ** Inputs of the concrete runs *)

Definition stim_7x2 : ndarray2 float :=
  np.array 2 [[1; 0]; [2; 0]; [3; 1]; [4; 1]; [5; 0]; [6; 0]; [7; 0]]%float.

Definition kernel3 : list pynum := [PyFloat 1; PyInt 10; PyFloat 0.5].

Definition stim_1x1 : ndarray2 float := np.array 1 [[1]]%float.

Definition flat_response : hrf_params :=
  {| response_delay := 6; undershoot_delay := 12;
     response_dispersion := 0; undershoot_dispersion := 0.9;
     response_scale := 1; undershoot_scale := 0.035;
     temporal_resolution := 1 |}.

Definition stim_1x2 : ndarray2 float := np.array 2 [[1; 2]]%float.

Definition stim_3x1 : ndarray2 float := np.array 1 [[1]; [0]; [0]]%float.

Definition stim_2x1_zero : ndarray2 float := np.array 1 [[0]; [0]]%float.

Definition stim_2x1_negative : ndarray2 float := np.array 1 [[-1]; [-2]]%float.

Definition stim_1x1_zero : ndarray2 float := np.array 1 [[0]]%float.

Definition stim_4x2 : ndarray2 float :=
  np.array 2 [[0; 1]; [0; 2]; [0; 3]; [0; 4]]%float.

Definition stim_2x1_tenth : ndarray2 float := np.array 1 [[0.1]; [0]]%float.

Definition flat_response_coarse : hrf_params :=
  {| response_delay := 6; undershoot_delay := 12;
     response_dispersion := 0; undershoot_dispersion := 0;
     response_scale := 1; undershoot_scale := 0.035;
     temporal_resolution := 0.0625 |}.

Definition steep_response : hrf_params :=
  {| response_delay := 6; undershoot_delay := 12;
     response_dispersion := -0.001; undershoot_dispersion := 0.9;
     response_scale := 1; undershoot_scale := 0.035;
     temporal_resolution := 1 |}.

Definition stim_2x0 : ndarray2 float := np.array 0 [[]; []].

Definition stim_1x1_largest : ndarray2 float :=
  np.array 1 [[0x1.fffffffffffffp+1023]]%float.

Definition stim_1x1_tiny : ndarray2 float := np.array 1 [[0x1p-1000]]%float.

Definition stim_7x2_late : ndarray2 float :=
  np.array 2 [[1; 5]; [2; 5]; [3; 5]; [4; 5]; [9; 9]; [9; 9]; [9; 9]]%float.

Definition stim_2x1_nonpositive : ndarray2 float :=
  np.array 1 [[-1]; [0]]%float.

Definition stim_4x1_nan : ndarray2 float :=
  np.array 1 [[1]; [nan]; [3]; [4]]%float.

Definition stim_4x2_silent : ndarray2 float :=
  np.array 2 [[0; 1]; [-0; 2]; [0; 3]; [0; 4]]%float.

(* ===================================================================== *)
(** * Part II: the facts *)
(* ===================================================================== *)

(** ** The error monad, loops and list assignment *)

Lemma bind_Ok_inv {A B : Type} (c : result A) (k : A -> result B) (b : B) :
  bind c k = Ok b -> exists a, c = Ok a /\ k a = Ok b.
Proof.
  destruct c as [a|e]; simpl; intros H; [exists a; auto | discriminate].
Qed.

(** Split a hypothesis [x <- c ;; k = Ok b] into its two steps. *)
Ltac bind_inv H :=
  let a := fresh "a" in
  let Ha := fresh "Ha" in
  apply bind_Ok_inv in H; destruct H as (a & Ha & H).

Lemma list_set_Ok {X : Type} (l : list X) (i : nat) (v : X) :
  (i < List.length l)%nat -> exists l', Py.list_set l i v = Ok l'.
Proof.
  revert i. induction l as [|x l IH]; intros i Hi; simpl in Hi; [lia|].
  destruct i as [|i]; simpl.
  - eexists; reflexivity.
  - destruct (IH i) as [l' Hl']; [lia|]. rewrite Hl'. eexists; reflexivity.
Qed.

Lemma list_set_spec {X : Type} (l l' : list X) (i : nat) (v : X) :
  Py.list_set l i v = Ok l' ->
  List.length l' = List.length l /\
  forall j d, nth j l' d = if (j =? i)%nat then v else nth j l d.
Proof.
  revert i l'. induction l as [|x l IH]; intros i l' H; simpl in H.
  - discriminate.
  - destruct i as [|i].
    + injection H as <-. split; [reflexivity|]. intros [|j] d; reflexivity.
    + bind_inv H. injection H as <-.
      destruct (IH _ _ Ha) as [Hlen Hnth]. split; [simpl; lia|].
      intros [|j] d; simpl; [reflexivity | apply Hnth].
Qed.

Lemma map_result_length {X Y : Type} (f : X -> result Y) (xs : list X)
  (ys : list Y) :
  map_result f xs = Ok ys -> List.length ys = List.length xs.
Proof.
  revert ys. induction xs as [|x xs IH]; intros ys H; simpl in H.
  - injection H as <-. reflexivity.
  - bind_inv H. bind_inv H. injection H as <-. simpl. f_equal. eauto.
Qed.

Lemma map_result_total {X Y : Type} (f : X -> result Y) (g : X -> Y)
  (xs : list X) :
  (forall x, f x = Ok (g x)) -> map_result f xs = Ok (map g xs).
Proof.
  intros Hf. induction xs as [|x xs IH]; simpl; [reflexivity|].
  rewrite Hf. simpl. rewrite IH. reflexivity.
Qed.

Lemma nth_map_seq {X : Type} (f : nat -> X) (n k : nat) (d : X) :
  (k < n)%nat -> nth k (map f (seq 0 n)) d = f k.
Proof.
  intros Hk.
  rewrite (nth_indep _ d (f 0%nat)) by (rewrite length_map, length_seq; lia).
  rewrite map_nth, seq_nth by lia. reflexivity.
Qed.

Lemma nth_map_lt {X Y : Type} (f : X -> Y) (l : list X) (k : nat)
  (dx : X) (dy : Y) :
  (k < List.length l)%nat -> nth k (map f l) dy = f (nth k l dx).
Proof.
  revert k. induction l as [|x l IH]; intros [|k] Hk; simpl in *;
    try lia; [reflexivity|].
  apply IH. lia.
Qed.

Lemma nth_firstn_lt {X : Type} (a : list X) (n i : nat) (d : X) :
  (i < n)%nat -> nth i (firstn n a) d = nth i a d.
Proof.
  revert n i. induction a as [|x a IH]; intros [|n] [|i] H; simpl;
    try reflexivity; try lia.
  apply IH. lia.
Qed.

(** ** The synthesizer: length, samples, last entry *)

Section DoubleGammaFacts.

Context {libm : math_module}.
Variable p : hrf_params.

Let body := fun (hrf_counter : nat) (hrf : list pynum) =>
  v <- hrf_sample p (Z.of_nat hrf_counter) ;;
  Py.list_set hrf hrf_counter (PyFloat v).

(** The code evaluates [hrf_counter / temporal_resolution] four times and
    names the intermediate factors; the value is that of the closed
    form. *)
Lemma hrf_sample_closed_form (i : Z) : hrf_sample p i = spec_hrf_value p i.
Proof.
  unfold hrf_sample, spec_hrf_value, spec_response, spec_undershoot.
  destruct (Py.int_float_truediv i (temporal_resolution p)) as [t|e];
    simpl; [|reflexivity].
  destruct (Py.float_truediv t (response_peak p)) as [b1|]; simpl;
    [|reflexivity].
  destruct (math_pow b1 (response_delay p)); simpl; [|reflexivity].
  destruct (Py.float_truediv _ (response_dispersion p)) as [a2|]; simpl;
    [|reflexivity].
  destruct (math_exp a2); simpl; [|reflexivity].
  destruct (Py.float_truediv t (undershoot_peak p)) as [b3|]; simpl;
    [|reflexivity].
  destruct (math_pow b3 (undershoot_delay p)); simpl; [|reflexivity].
  destruct (Py.float_truediv _ (undershoot_dispersion p)); simpl;
    [|reflexivity].
  destruct (math_exp _); reflexivity.
Qed.

(** What the loop over [range(a, a + k)] leaves in the list. *)
Lemma hrf_loop_spec (k a : nat) (hrf hrf' : list pynum) :
  for_each (seq a k) body hrf = Ok hrf' ->
  List.length hrf' = List.length hrf /\
  (forall i, (a <= i < a + k)%nat ->
     exists v, hrf_sample p (Z.of_nat i) = Ok v /\
               forall d, nth i hrf' d = PyFloat v) /\
  (forall i d, ~ (a <= i < a + k)%nat -> nth i hrf' d = nth i hrf d).
Proof.
  revert a hrf. induction k as [|k IH]; intros a hrf H; simpl in H.
  - injection H as <-.
    split; [reflexivity | split; [intros; lia | reflexivity]].
  - bind_inv H. unfold body in Ha. bind_inv Ha. rename a1 into v.
    destruct (list_set_spec _ _ _ _ Ha) as [Hlen Hnth].
    destruct (IH _ _ H) as (Hlen' & Hin & Hout).
    split; [congruence|]. split.
    + intros i Hi. destruct (Nat.eq_dec i a) as [->|Hne].
      * exists v. split; [assumption|]. intros d.
        rewrite Hout by lia. rewrite Hnth, Nat.eqb_refl. reflexivity.
      * apply Hin. lia.
    + intros i d Hi. rewrite Hout by lia. rewrite Hnth.
      destruct (Nat.eqb_spec i a); [lia | reflexivity].
Qed.

(** The loop runs to its end when every sample can be evaluated. *)
Lemma hrf_loop_Ok (k a : nat) (hrf : list pynum) :
  (a + k <= List.length hrf)%nat ->
  (forall i, (a <= i < a + k)%nat ->
     exists v, hrf_sample p (Z.of_nat i) = Ok v) ->
  exists hrf', for_each (seq a k) body hrf = Ok hrf'.
Proof.
  revert a hrf. induction k as [|k IH]; intros a hrf Hlen Hs; simpl.
  - eexists; reflexivity.
  - destruct (Hs a) as [v Hv]; [lia|].
    destruct (list_set_Ok hrf a (PyFloat v)) as [l' Hl']; [lia|].
    unfold body at 1. rewrite Hv. simpl. rewrite Hl'. simpl.
    apply IH.
    + destruct (list_set_spec _ _ _ _ Hl') as [-> _]. lia.
    + intros i Hi. apply Hs. lia.
Qed.

(** What [_double_gamma_hrf] returns, when it returns. *)
Lemma double_gamma_hrf_spec (n : Z) (hrf : list pynum) :
  hrf_size p = Ok n ->
  _double_gamma_hrf p = Ok hrf ->
  List.length hrf = Z.to_nat n /\
  (forall i, 0 <= i <= n - 2 ->
     exists v, hrf_sample p i = Ok v /\
               forall d, nth (Z.to_nat i) hrf d = PyFloat v) /\
  (1 <= n -> forall d, nth (Z.to_nat (n - 1)) hrf d = PyInt 0).
Proof.
  intros Hn H. unfold _double_gamma_hrf in H. rewrite Hn in H. simpl in H.
  apply hrf_loop_spec in H. destruct H as (Hlen & Hin & Hout).
  rewrite repeat_length in Hlen, Hin, Hout. split; [assumption|]. split.
  - intros i Hi. destruct (Hin (Z.to_nat i)) as [v [Hv Hnth]]; [lia|].
    rewrite Z2Nat.id in Hv by lia. eauto.
  - intros Hn1 d. rewrite Hout by lia.
    apply nth_repeat_lt. lia.
Qed.

(** [_double_gamma_hrf] returns as soon as its size and its samples can
    be computed. *)
Lemma double_gamma_hrf_Ok (n : Z) :
  hrf_size p = Ok n ->
  (forall i, 0 <= i <= n - 2 -> exists v, hrf_sample p i = Ok v) ->
  exists hrf, _double_gamma_hrf p = Ok hrf.
Proof.
  intros Hn Hs. unfold _double_gamma_hrf. rewrite Hn. simpl.
  apply hrf_loop_Ok.
  - rewrite repeat_length. lia.
  - rewrite repeat_length. intros i Hi. apply Hs. lia.
Qed.

End DoubleGammaFacts.

(** ** binary64: integer quotients, self-division, zeros and NaNs *)

Lemma digits2_pos_bounds (p : positive) :
  2 ^ (Zpos (digits2_pos p) - 1) <= Zpos p < 2 ^ Zpos (digits2_pos p).
Proof.
  induction p as [p IH|p IH|]; simpl digits2_pos.
  - rewrite Pos2Z.inj_succ.
    replace (Z.succ (Zpos (digits2_pos p)) - 1) with (Zpos (digits2_pos p))
      by lia.
    rewrite Z.pow_succ_r by lia.
    replace (2 ^ Zpos (digits2_pos p))
      with (2 * 2 ^ (Zpos (digits2_pos p) - 1)) in *
      by (rewrite <- Z.pow_succ_r by lia; f_equal; lia).
    lia.
  - rewrite Pos2Z.inj_succ.
    replace (Z.succ (Zpos (digits2_pos p)) - 1) with (Zpos (digits2_pos p))
      by lia.
    rewrite Z.pow_succ_r by lia.
    replace (2 ^ Zpos (digits2_pos p))
      with (2 * 2 ^ (Zpos (digits2_pos p) - 1)) in *
      by (rewrite <- Z.pow_succ_r by lia; f_equal; lia).
    lia.
  - simpl. lia.
Qed.

Lemma digits2_pos_unique (p : positive) (n : Z) :
  2 ^ (n - 1) <= Zpos p < 2 ^ n -> Zpos (digits2_pos p) = n.
Proof.
  intros [Hlo Hhi]. pose proof (digits2_pos_bounds p) as [Blo Bhi].
  set (d := Zpos (digits2_pos p)) in *.
  assert (0 < n).
  { destruct (Z_lt_le_dec 0 n); auto. exfalso.
    destruct (Z.eq_dec n 0) as [->|]; [simpl in Hhi; lia|].
    rewrite Z.pow_neg_r in Hhi by lia. lia. }
  destruct (Z_lt_le_dec d n).
  - assert (2 ^ d <= 2 ^ (n - 1)) by (apply Z.pow_le_mono_r; lia). lia.
  - destruct (Z_lt_le_dec n d); [|lia].
    assert (2 ^ n <= 2 ^ (d - 1)) by (apply Z.pow_le_mono_r; lia). lia.
Qed.

Lemma digits2_pos_le53 (p : positive) :
  Zpos p < 2 ^ 53 -> 1 <= Zpos (digits2_pos p) <= 53.
Proof.
  intros Hp. pose proof (digits2_pos_bounds p) as [Blo _].
  split; [lia|].
  destruct (Z_lt_le_dec 53 (Zpos (digits2_pos p))); [|lia].
  assert (2 ^ 53 <= 2 ^ (Zpos (digits2_pos p) - 1))
    by (apply Z.pow_le_mono_r; lia).
  lia.
Qed.

Lemma loc_roundtrip (m : Z) (l : location) :
  loc_of_shr_record (shr_record_of_loc m l) = l.
Proof. destruct l as [|[]]; reflexivity. Qed.

Lemma shr_m_of_loc (m : Z) (l : location) :
  shr_m (shr_record_of_loc m l) = m.
Proof. destruct l as [|[]]; reflexivity. Qed.

(** The exponent function of binary64 away from the subnormal range. *)
Lemma fexp_mid (e : Z) : -1021 <= e -> fexp prec emax e = e - 53.
Proof. unfold fexp, SpecFloat.emin, prec, emax. lia. Qed.

Lemma SF_trunc_val (m : positive) (e : Z) :
  Py.SF_trunc false m e = trunc_val (Zpos m) e.
Proof.
  unfold Py.SF_trunc, trunc_val. destruct e as [|k|k]; simpl Z.ltb; cbv iota.
  - rewrite Z.shiftl_mul_pow2 by lia. reflexivity.
  - rewrite Z.shiftl_mul_pow2 by lia. reflexivity.
  - rewrite Z.shiftr_div_pow2 by lia. reflexivity.
Qed.

Lemma binary_round_aux_finish (mx ex : Z) (lx : location) :
  binary_round_aux prec emax false mx ex lx =
  let '(mrs', e') := shr_fexp prec emax mx ex lx in
  finish (round_nearest_even (shr_m mrs') (loc_of_shr_record mrs')) e'.
Proof. reflexivity. Qed.

(** Renormalising a rounded mantissa of 53 digits, or [2^53]. *)
Lemma finish_spec (M e : Z) :
  2 ^ 52 <= M <= 2 ^ 53 -> -1021 <= e <= 900 ->
  exists m e', finish M e = S754_finite false m e' /\
    bounded prec emax m e' = true /\
    trunc_val (Zpos m) e' = trunc_val M e.
Proof.
  intros HM He. destruct (Z.eq_dec M (2 ^ 53)) as [->|Hne].
  - exists (Z.to_pos (2 ^ 52)), (e + 1).
    unfold finish, shr_fexp.
    change (Zdigits2 (2 ^ 53)) with 54.
    rewrite fexp_mid by lia. replace (54 + e - 53 - e) with 1 by lia.
    change (shr (shr_record_of_loc (2 ^ 53) loc_Exact) e 1)
      with ({| shr_m := 2 ^ 52; shr_r := false; shr_s := false |}, e + 1).
    cbv beta iota. change (shr_m _) with (Zpos (Z.to_pos (2 ^ 52))). cbv iota.
    destruct (Z.leb_spec (e + 1) (emax - prec));
      [|unfold emax, prec in *; lia].
    split; [reflexivity|]. split.
    + unfold bounded, canonical_mantissa.
      change (Zpos (digits2_pos (Z.to_pos (2 ^ 52)))) with 53.
      rewrite fexp_mid by lia. rewrite andb_true_iff, Z.eqb_eq, Z.leb_le.
      unfold emax, prec. lia.
    + change (Zpos (Z.to_pos (2 ^ 52))) with (2 ^ 52). unfold trunc_val.
      destruct (Z.ltb_spec (e + 1) 0), (Z.ltb_spec e 0); try lia.
      * replace (- e) with (Z.succ (- (e + 1))) by lia.
        rewrite Z.pow_succ_r by lia.
        change (2 ^ 53) with (2 * 2 ^ 52).
        rewrite Z.div_mul_cancel_l; lia.
      * assert (e = -1) by lia. subst. reflexivity.
      * replace (e + 1) with (Z.succ e) by lia. rewrite Z.pow_succ_r by lia.
        change (2 ^ 53) with (2 * 2 ^ 52). ring.
  - destruct M as [|pm|pm]; try lia.
    assert (Hd : Zpos (digits2_pos pm) = 53)
      by (apply digits2_pos_unique; simpl (53 - 1); lia).
    exists pm, e. unfold finish, shr_fexp. simpl Zdigits2. rewrite Hd.
    rewrite fexp_mid by lia. replace (53 + e - 53 - e) with 0 by lia.
    cbn [shr shr_record_of_loc shr_m].
    destruct (Z.leb_spec e (emax - prec)); [|unfold emax, prec in *; lia].
    split; [reflexivity|]. split; [|reflexivity].
    unfold bounded, canonical_mantissa. rewrite Hd.
    rewrite fexp_mid by lia. rewrite andb_true_iff, Z.eqb_eq, Z.leb_le.
    unfold emax, prec. lia.
Qed.

Lemma rne_range (m : Z) (l : location) :
  m <= round_nearest_even m l <= m + 1.
Proof.
  unfold round_nearest_even. destruct l as [|[]]; try lia.
  destruct (Z.even m); lia.
Qed.

(** Rounding goes up only from the upper half of the interval. *)
Lemma new_location_round_up (b r q : Z) :
  0 < b -> 0 <= r < b ->
  round_nearest_even q (new_location b r) <> q -> b <= 2 * r.
Proof.
  intros Hb Hr. unfold new_location, new_location_even, new_location_odd.
  destruct (Z.even b); destruct (Z.eqb_spec r 0);
    try (intros Hup; exfalso; apply Hup; reflexivity).
  - destruct (Z.compare_spec (2 * r) b); intros Hup; try lia.
    exfalso; apply Hup; reflexivity.
  - destruct (Z.compare_spec (2 * r + 1) b); intros Hup; try lia;
      exfalso; apply Hup; reflexivity.
Qed.

(** A mantissa of 53 digits is rounded where it stands. *)
Lemma shr_fexp_53 (q e : Z) (l : location) :
  2 ^ 52 <= q < 2 ^ 53 -> -1021 <= e ->
  shr_fexp prec emax q e l = (shr_record_of_loc q l, e).
Proof.
  intros Hq He. destruct q as [|pq|pq]; try lia.
  assert (Hd : Zpos (digits2_pos pq) = 53)
    by (apply digits2_pos_unique; simpl (53 - 1); lia).
  unfold shr_fexp. simpl Zdigits2. rewrite Hd.
  rewrite fexp_mid by lia. replace (53 + e - 53 - e) with 0 by lia.
  reflexivity.
Qed.

(** A mantissa of 54 digits loses its last digit, which becomes the
    round bit. *)
Lemma shr_fexp_54 (q e : Z) (l : location) :
  2 ^ 53 <= q < 2 ^ 54 -> -1021 <= e ->
  exists mrs, shr_fexp prec emax q e l = (mrs, e + 1) /\
    shr_m mrs = q / 2 /\
    (round_nearest_even (shr_m mrs) (loc_of_shr_record mrs) <> shr_m mrs ->
     q = 2 * (q / 2) + 1).
Proof.
  intros Hq He. destruct q as [|pq|pq]; try lia.
  assert (Hd : Zpos (digits2_pos pq) = 54)
    by (apply digits2_pos_unique; simpl (54 - 1); lia).
  unfold shr_fexp. simpl Zdigits2. rewrite Hd.
  rewrite fexp_mid by lia. replace (54 + e - 53 - e) with 1 by lia.
  cbn [shr iter_pos].
  exists (shr_1 (shr_record_of_loc (Zpos pq) l)). split; [reflexivity|].
  destruct pq as [p|p|].
  - assert (Hm : shr_m (shr_1 (shr_record_of_loc (Zpos p~1) l)) = Zpos p)
      by (destruct l as [|[]]; reflexivity).
    rewrite Hm. split.
    + rewrite Pos2Z.inj_xI. apply Z.div_unique with (r := 1); lia.
    + intros _. rewrite Pos2Z.inj_xI.
      replace ((2 * Zpos p + 1) / 2) with (Zpos p); [reflexivity|].
      apply Z.div_unique with (r := 1); lia.
  - assert (Hm : shr_m (shr_1 (shr_record_of_loc (Zpos p~0) l)) = Zpos p)
      by (destruct l as [|[]]; reflexivity).
    rewrite Hm. split.
    + rewrite Pos2Z.inj_xO. apply Z.div_unique with (r := 0); lia.
    + intros Hup. exfalso. apply Hup.
      destruct l as [|[]]; reflexivity.
  - simpl in Hq. lia.
Qed.

(** Rounding the quotient [q] with remainder [r] by [b] to 53 digits:
    the mantissa [M] kept, the [n] digits dropped, and when [M] was
    rounded up. *)
Lemma binary_round_aux_quotient (b q r e : Z) :
  0 < b -> 0 <= r < b -> 2 ^ 52 <= q < 2 ^ 54 -> -1021 <= e <= 899 ->
  exists m e' M n,
    binary_round_aux prec emax false q e (new_location b r)
      = S754_finite false m e' /\
    bounded prec emax m e' = true /\
    trunc_val (Zpos m) e' = trunc_val M (e + n) /\
    (n = 0 \/ n = 1) /\
    q / 2 ^ n <= M <= q / 2 ^ n + 1 /\
    2 ^ 52 <= q / 2 ^ n /\
    (M = q / 2 ^ n + 1 -> 2 ^ n * b <= 2 * (q * b + r - q / 2 ^ n * 2 ^ n * b)).
Proof.
  intros Hb Hr Hq He. rewrite binary_round_aux_finish.
  destruct (Z_lt_le_dec q (2 ^ 53)) as [Hlt|Hge].
  - rewrite shr_fexp_53 by lia. rewrite shr_m_of_loc, loc_roundtrip.
    pose proof (rne_range q (new_location b r)) as HM.
    set (M := round_nearest_even q (new_location b r)) in *.
    destruct (finish_spec M e) as (m & e' & Hf & Hbd & Htr);
      [lia | lia |].
    exists m, e', M, 0. rewrite Z.add_0_r, Z.pow_0_r, Z.div_1_r.
    repeat split; auto; try lia.
    intros HMq.
    assert (b <= 2 * r); [|lia].
    apply (new_location_round_up b r q); auto. fold M. lia.
  - destruct (shr_fexp_54 q e (new_location b r))
      as (mrs & -> & Hm & Hodd); [lia | lia |].
    pose proof (rne_range (shr_m mrs) (loc_of_shr_record mrs)) as HM.
    set (M := round_nearest_even (shr_m mrs) (loc_of_shr_record mrs)) in *.
    rewrite Hm in HM.
    assert (2 ^ 52 <= q / 2 < 2 ^ 53).
    { split.
      - apply Z.div_le_lower_bound; [lia|].
        change (2 * 2 ^ 52) with (2 ^ 53). lia.
      - apply Z.div_lt_upper_bound; [lia|].
        change (2 * 2 ^ 53) with (2 ^ 54). lia. }
    destruct (finish_spec M (e + 1)) as (m & e' & Hf & Hbd & Htr);
      [lia | lia |].
    exists m, e', M, 1. rewrite Z.pow_1_r.
    rewrite Hm in Hodd.
    repeat split; auto; try lia.
Qed.

(** The arithmetic at the heart of it: a quotient of integers below
    [2^53], rounded to 53 digits, keeps the integer part of the
    quotient. *)
Lemma rounded_quotient_trunc (a b P Q M : Z) :
  0 <= a < 2 ^ 53 -> 0 < b -> 0 < P ->
  Q * b <= a * P < (Q + 1) * b ->
  2 ^ 52 <= Q -> Q <= M <= Q + 1 ->
  (M = Q + 1 -> b <= 2 * (a * P - Q * b)) ->
  M / P = a / b.
Proof.
  intros Ha Hb HP HQ HQ52 HM Hup.
  pose proof (Z.div_mod a b ltac:(lia)) as Hdiv.
  pose proof (Z.mod_pos_bound a b Hb) as Hmod.
  set (n0 := a / b) in *. set (ra := a mod b) in *.
  assert (Hlow : n0 * P <= Q).
  { assert (n0 * P * b < (Q + 1) * b) by nia.
    assert (n0 * P < Q + 1) by (apply Z.mul_lt_mono_pos_r with (p := b); lia).
    lia. }
  assert (Hupp : Q < (n0 + 1) * P).
  { assert (Q * b < (n0 + 1) * P * b) by nia.
    apply Z.mul_lt_mono_pos_r with (p := b); lia. }
  symmetry. apply Z.div_unique with (r := M - n0 * P).
  2: lia.
  left. split; [lia|].
  destruct (Z.eq_dec M Q) as [->|HMQ]; [lia|].
  assert (HM1 : M = Q + 1) by lia.
  specialize (Hup HM1).
  destruct (Z.eq_dec (Q + 1) ((n0 + 1) * P)) as [E|NE]; [|lia].
  exfalso.
  assert (2 * P <= b) by nia.
  assert (2 ^ 52 * (2 * P) <= a * P) by nia.
  change (2 ^ 53) with (2 * 2 ^ 52) in Ha. nia.
Qed.

Lemma shiftl_match (m s : Z) :
  0 < s ->
  match s with
  | Zpos _ => Z.shiftl m s
  | Z0 => m
  | Zneg _ => 0
  end = m * 2 ^ s.
Proof.
  intros Hs. destruct s; try lia. apply Z.shiftl_mul_pow2. lia.
Qed.

(** The correctly rounded quotient of two positive integers below [2^53]
    is a valid binary64 whose integer part is the integer quotient. *)
Lemma SFdiv_int_trunc (pa pb : positive) :
  Zpos pa < 2 ^ 53 -> Zpos pb < 2 ^ 53 ->
  exists m e,
    SFdiv prec emax (S754_finite false pa 0) (S754_finite false pb 0)
      = S754_finite false m e /\
    bounded prec emax m e = true /\
    trunc_val (Zpos m) e = Zpos pa / Zpos pb.
Proof.
  intros Ha Hb.
  pose proof (digits2_pos_bounds pa) as Ba.
  pose proof (digits2_pos_bounds pb) as Bb.
  pose proof (digits2_pos_le53 pa Ha) as Da.
  pose proof (digits2_pos_le53 pb Hb) as Db.
  set (d1 := Zpos (digits2_pos pa)) in *.
  set (d2 := Zpos (digits2_pos pb)) in *.
  remember (53 + d2 - d1) as s eqn:Es.
  unfold SFdiv, SFdiv_core_binary. simpl Zdigits2. fold d1 d2.
  assert (He' : Z.min (fexp prec emax (d1 + 0 - (d2 + 0))) (0 - 0) = - s)
    by (unfold fexp, SpecFloat.emin, prec, emax; lia).
  rewrite He'. replace (0 - 0 - - s) with s by lia.
  assert (Hs : 0 < s) by lia.
  rewrite shiftl_match by assumption.
  pose proof (Z_div_mod (Zpos pa * 2 ^ s) (Zpos pb) ltac:(lia)) as Hdm.
  destruct (Z.div_eucl (Zpos pa * 2 ^ s) (Zpos pb)) as [q r].
  destruct Hdm as [Hq Hr].
  assert (HA : 2 ^ d1 = 2 * 2 ^ (d1 - 1))
    by (rewrite <- Z.pow_succ_r by lia; f_equal; lia).
  assert (HB : 2 ^ d2 = 2 * 2 ^ (d2 - 1))
    by (rewrite <- Z.pow_succ_r by lia; f_equal; lia).
  assert (HS : 2 ^ (d1 - 1) * 2 ^ s = 2 ^ 53 * 2 ^ (d2 - 1)).
  { rewrite <- !Z.pow_add_r by lia. f_equal. lia. }
  assert (HS0 : 0 < 2 ^ s) by (apply Z.pow_pos_nonneg; lia).
  assert (HB0 : 0 < 2 ^ (d2 - 1)) by (apply Z.pow_pos_nonneg; lia).
  set (A1 := 2 ^ (d1 - 1)) in *. set (B1 := 2 ^ (d2 - 1)) in *.
  set (S := 2 ^ s) in *.
  assert (Hq52 : 2 ^ 52 <= q < 2 ^ 54).
  { change (2 ^ 53) with (2 * 2 ^ 52) in HS.
    change (2 ^ 54) with (4 * 2 ^ 52).
    assert (0 < 2 ^ 52) by reflexivity.
    set (T := 2 ^ 52) in *. split; nia. }
  destruct (binary_round_aux_quotient (Zpos pb) q r (- s))
    as (m & e'' & M & n & Hbra & Hbd & Htr & Hn & HM & HQ & Hup);
    try lia.
  exists m, e''. split; [exact Hbra|]. split; [exact Hbd|].
  rewrite Htr.
  assert (Hk : 0 <= s - n) by (destruct Hn; subst n; lia).
  assert (Htv : trunc_val M (- s + n) = M / 2 ^ (s - n)).
  { unfold trunc_val. destruct (Z.ltb_spec (- s + n) 0).
    - f_equal. f_equal. lia.
    - replace (- s + n) with 0 by lia. replace (s - n) with 0 by lia.
      rewrite Z.pow_0_r, Z.div_1_r. lia. }
  rewrite Htv.
  assert (HP0 : 0 < 2 ^ (s - n)) by (apply Z.pow_pos_nonneg; lia).
  assert (HSP : S = 2 ^ (s - n) * 2 ^ n).
  { unfold S. rewrite <- Z.pow_add_r by (destruct Hn; subst n; lia).
    f_equal. lia. }
  set (P := 2 ^ (s - n)) in *.
  apply rounded_quotient_trunc with (Q := q / 2 ^ n); try lia.
  - destruct Hn; subst n.
    + rewrite Z.pow_0_r, Z.div_1_r in *. nia.
    + rewrite Z.pow_1_r in *.
      pose proof (Z.div_mod q 2 ltac:(lia)).
      pose proof (Z.mod_pos_bound q 2 ltac:(lia)). nia.
  - intros HM1. specialize (Hup HM1).
    destruct Hn; subst n.
    + rewrite Z.pow_0_r, Z.div_1_r in *. nia.
    + rewrite Z.pow_1_r in *.
      pose proof (Z.div_mod q 2 ltac:(lia)).
      pose proof (Z.mod_pos_bound q 2 ltac:(lia)). nia.
Qed.

(** [int(a / b)] on ints below [2^53] is the integer quotient. *)
Lemma int_floor_div (a b : Z) :
  0 <= a < int_exact_bound -> 0 < b < int_exact_bound ->
  bind (Py.int_truediv a b) Py.int_of_float = Ok (a / b).
Proof.
  unfold int_exact_bound. intros Ha Hb. unfold Py.int_truediv.
  destruct (Z.eqb_spec b 0); [lia|].
  destruct b as [|pb|pb]; try lia.
  destruct a as [|pa|pa]; try lia.
  - reflexivity.
  - destruct (SFdiv_int_trunc pa pb) as (m & e & Hdiv & Hbd & Htr); try lia.
    simpl Py.SF_of_Z. rewrite Hdiv. cbv beta iota. cbn [bind].
    unfold Py.int_of_float. rewrite Prim2SF_SF2Prim by exact Hbd.
    rewrite SF_trunc_val, Htr. reflexivity.
Qed.

Lemma div_eucl_mul_l (a b : Z) : 0 < a -> Z.div_eucl (a * b) a = (b, 0).
Proof.
  intros Ha.
  pose proof (Z.div_mul b a ltac:(lia)) as Hd.
  pose proof (Z.mod_mul b a ltac:(lia)) as Hm.
  unfold Z.div, Z.modulo in Hd, Hm. rewrite (Z.mul_comm b a) in Hd, Hm.
  destruct (Z.div_eucl (a * b) a). simpl in *. congruence.
Qed.

(** A finite non-zero binary64 divided by itself is exactly 1. *)
Lemma div_self (x : float) : finite_nonzero x -> (x / x)%float = 1%float.
Proof.
  intros (s & m & e & Hx). apply Prim2SF_inj. rewrite div_spec, Hx.
  unfold SF64div, SFdiv, SFdiv_core_binary. simpl Zdigits2.
  replace (Zpos (digits2_pos m) + e - (Zpos (digits2_pos m) + e)) with 0
    by lia.
  replace (e - e) with 0 by lia.
  change (Z.min (fexp prec emax 0) 0) with (-53).
  change (0 - -53) with 53. cbv iota.
  rewrite Z.shiftl_mul_pow2 by lia.
  rewrite div_eucl_mul_l by lia.
  assert (Hl : new_location (Zpos m) 0 = loc_Exact)
    by (unfold new_location; destruct (Z.even (Zpos m)); reflexivity).
  rewrite Hl. destruct s; reflexivity.
Qed.

Lemma zero_or_nan_mul_l (x y : float) : zero_or_nan x -> zero_or_nan (x * y).
Proof.
  unfold zero_or_nan. rewrite mul_spec. unfold SF64mul.
  destruct (Prim2SF x), (Prim2SF y); simpl; tauto.
Qed.

Lemma zero_or_nan_mul_r (x y : float) : zero_or_nan y -> zero_or_nan (x * y).
Proof.
  unfold zero_or_nan. rewrite mul_spec. unfold SF64mul.
  destruct (Prim2SF x), (Prim2SF y); simpl; tauto.
Qed.

Lemma zero_or_nan_add (x y : float) :
  zero_or_nan x -> zero_or_nan y -> zero_or_nan (x + y).
Proof.
  unfold zero_or_nan. rewrite add_spec. unfold SF64add.
  destruct (Prim2SF x) as [[]| | |], (Prim2SF y) as [[]| | |]; simpl; tauto.
Qed.

Lemma zero_or_nan_maximum (x y : float) :
  zero_or_nan x -> zero_or_nan y -> zero_or_nan (float64_maximum x y).
Proof.
  unfold float64_maximum. intros Hx Hy.
  destruct (is_nan x); [assumption|]. destruct (is_nan y); [assumption|].
  destruct (x <? y)%float; assumption.
Qed.

(** Zero over zero, and anything with a NaN, is the NaN. *)
Lemma zero_or_nan_div (x y : float) :
  zero_or_nan x -> zero_or_nan y -> (x / y)%float = nan.
Proof.
  unfold zero_or_nan. intros Hx Hy. apply Prim2SF_inj.
  rewrite div_spec. unfold SF64div.
  destruct (Prim2SF x), (Prim2SF y); simpl in *; tauto || reflexivity.
Qed.

Lemma eqb_zero_zero_or_nan (x : float) :
  (x =? 0)%float = true -> zero_or_nan x.
Proof.
  rewrite FloatAxioms.eqb_spec. unfold zero_or_nan, SFeqb, SFcompare.
  change (Prim2SF 0) with (S754_zero false).
  destruct (Prim2SF x) as [[]|[]| |[] ? ?]; simpl; intros H;
    (exact I || discriminate H).
Qed.

Lemma trunc_val_nonneg (m : positive) (e : Z) : 0 <= trunc_val (Zpos m) e.
Proof.
  unfold trunc_val. destruct (Z.ltb_spec e 0).
  - apply Z.div_pos; [lia|]. apply Z.pow_pos_nonneg; lia.
  - apply Z.mul_nonneg_nonneg; [lia|]. apply Z.pow_nonneg; lia.
Qed.

(** The size of the HRF is not negative when the resolution is
    positive. *)
Lemma hrf_size_nonneg (p : hrf_params) (n : Z) :
  (0 <? temporal_resolution p)%float = true ->
  hrf_size p = Ok n -> 0 <= n.
Proof.
  unfold hrf_size, Py.int_of_float. rewrite ltb_spec, mul_spec.
  change (Prim2SF 0) with (S754_zero false).
  change (Prim2SF hrf_length)
    with (S754_finite false 8444249301319680 (-48)).
  destruct (Prim2SF (temporal_resolution p)) as [s|s| |s m e];
    intros Hlt; unfold SFltb, SFcompare in Hlt; try discriminate Hlt.
  - destruct s; [discriminate Hlt|]. intros H. discriminate H.
  - destruct s; [discriminate Hlt|]. clear Hlt.
    unfold SF64mul, SFmul. cbn [xorb]. unfold binary_round_aux.
    destruct (shr_fexp prec emax _ _ loc_Exact) as [mrs' e'].
    destruct (shr_fexp prec emax _ _ loc_Exact) as [mrs'' e''].
    destruct (shr_m mrs'') as [|pm|pm]; try discriminate.
    + intros H. injection H as <-. lia.
    + destruct (e'' <=? emax - prec); try discriminate.
      intros H. injection H as <-.
      change (0 <= Py.SF_trunc false pm e''). rewrite SF_trunc_val.
      apply trunc_val_nonneg.
Qed.

(** ** binary64: quotients of magnitude at most 1 *)

Lemma shr_1_spec (mrs : shr_record) :
  0 <= shr_m mrs ->
  shr_m (shr_1 mrs) = shr_m mrs / 2 /\
  (exact_record mrs -> shr_m mrs mod 2 = 0 -> exact_record (shr_1 mrs)).
Proof.
  destruct mrs as [m r s]. unfold exact_record. cbn [shr_m shr_r shr_s].
  intros Hm.
  destruct m as [|[p|p|]|p]; try lia; cbn [shr_1 shr_m shr_r shr_s].
  - split; [reflexivity|]. intros [-> ->] _. split; reflexivity.
  - split.
    + rewrite Pos2Z.inj_xI. apply Z.div_unique with (r := 1); lia.
    + intros _ Hmod. exfalso. rewrite Pos2Z.inj_xI in Hmod.
      replace (2 * Zpos p + 1) with (1 + Zpos p * 2) in Hmod by lia.
      rewrite Z.mod_add in Hmod by lia. discriminate Hmod.
  - split.
    + rewrite Pos2Z.inj_xO. apply Z.div_unique with (r := 0); lia.
    + intros [-> ->] _. split; reflexivity.
  - split; [reflexivity|]. intros _ Hmod. discriminate Hmod.
Qed.

Lemma mod_mul_split (m P Q : Z) :
  0 < P -> 0 < Q -> m mod (P * Q) = 0 -> m mod P = 0 /\ (m / P) mod Q = 0.
Proof.
  intros HP HQ Hm. apply Z.div_exact in Hm; [|lia].
  set (k := m / (P * Q)) in *. rewrite Hm.
  replace (P * Q * k) with (Q * k * P) by ring. split.
  - apply Z.mod_mul. lia.
  - rewrite Z.div_mul by lia. replace (Q * k) with (k * Q) by ring.
    apply Z.mod_mul. lia.
Qed.

Lemma pow2_xO (n : positive) : 2 ^ Zpos n~0 = 2 ^ Zpos n * 2 ^ Zpos n.
Proof.
  replace (Zpos n~0) with (Zpos n + Zpos n) by lia.
  apply Z.pow_add_r; lia.
Qed.

Lemma pow2_xI (n : positive) : 2 ^ Zpos n~1 = 2 * (2 ^ Zpos n * 2 ^ Zpos n).
Proof.
  replace (Zpos n~1) with (1 + (Zpos n + Zpos n)) by lia.
  rewrite Z.pow_add_r, Z.pow_add_r by lia. reflexivity.
Qed.

Lemma iter_shr_1_spec (n : positive) : forall mrs,
  0 <= shr_m mrs ->
  shr_m (SpecFloat.iter_pos shr_1 n mrs) = shr_m mrs / 2 ^ Zpos n /\
  (exact_record mrs -> shr_m mrs mod 2 ^ Zpos n = 0 ->
   exact_record (SpecFloat.iter_pos shr_1 n mrs)).
Proof.
  induction n as [n IH|n IH|]; intros mrs Hm; cbn [SpecFloat.iter_pos].
  - assert (HP : 0 < 2 ^ Zpos n) by (apply Z.pow_pos_nonneg; lia).
    destruct (shr_1_spec mrs Hm) as [E1 X1].
    assert (H1 : 0 <= shr_m (shr_1 mrs))
      by (rewrite E1; apply Z.div_pos; lia).
    destruct (IH _ H1) as [E2 X2].
    assert (H2 : 0 <= shr_m (SpecFloat.iter_pos shr_1 n (shr_1 mrs)))
      by (rewrite E2; apply Z.div_pos; lia).
    destruct (IH _ H2) as [E3 X3].
    rewrite pow2_xI. split.
    + rewrite E3, E2, E1, !Z.div_div by lia. reflexivity.
    + intros Hx Hmod.
      apply mod_mul_split in Hmod; [|lia|lia]. destruct Hmod as [Ma Mb].
      apply mod_mul_split in Mb; [|lia|lia]. destruct Mb as [Mb Mc].
      apply X3; [apply X2; [apply X1; assumption|]|].
      * rewrite E1. exact Mb.
      * rewrite E2, E1. exact Mc.
  - assert (HP : 0 < 2 ^ Zpos n) by (apply Z.pow_pos_nonneg; lia).
    destruct (IH _ Hm) as [E2 X2].
    assert (H2 : 0 <= shr_m (SpecFloat.iter_pos shr_1 n mrs))
      by (rewrite E2; apply Z.div_pos; lia).
    destruct (IH _ H2) as [E3 X3].
    rewrite pow2_xO. split.
    + rewrite E3, E2, !Z.div_div by lia. reflexivity.
    + intros Hx Hmod.
      apply mod_mul_split in Hmod; [|lia|lia]. destruct Hmod as [Ma Mb].
      apply X3; [apply X2; assumption|]. rewrite E2. exact Mb.
  - rewrite Z.pow_1_r. apply shr_1_spec. exact Hm.
Qed.

(** Shifting a record right by [n] places (none when [n <= 0]). *)
Lemma shr_spec (mrs : shr_record) (e n : Z) :
  0 <= shr_m mrs ->
  exists mrs',
    shr mrs e n = (mrs', e + Z.max 0 n) /\
    shr_m mrs' = shr_m mrs / 2 ^ Z.max 0 n /\
    (exact_record mrs -> shr_m mrs mod 2 ^ Z.max 0 n = 0 ->
     exact_record mrs').
Proof.
  intros Hm. destruct n as [|p|p]; cbn [shr].
  - exists mrs. rewrite Z.max_l, Z.add_0_r, Z.pow_0_r, Z.div_1_r by lia.
    auto.
  - exists (SpecFloat.iter_pos shr_1 p mrs). rewrite Z.max_r by lia.
    split; [reflexivity|]. apply iter_shr_1_spec. exact Hm.
  - exists mrs. rewrite Z.max_l, Z.add_0_r, Z.pow_0_r, Z.div_1_r by lia.
    auto.
Qed.

Lemma round_exact_record (mrs : shr_record) :
  exact_record mrs ->
  round_nearest_even (shr_m mrs) (loc_of_shr_record mrs) = shr_m mrs.
Proof.
  destruct mrs as [m r s]. intros [Hr Hs]. cbn in Hr, Hs. subst.
  reflexivity.
Qed.

Lemma Zdigits2_bounds (z : Z) :
  0 <= z -> 0 <= Zdigits2 z /\ z < 2 ^ Zdigits2 z /\
  (0 < z -> 2 ^ (Zdigits2 z - 1) <= z).
Proof.
  intros Hz. destruct z as [|p|p]; try lia.
  - cbn. lia.
  - pose proof (digits2_pos_bounds p). cbn [Zdigits2]. lia.
Qed.

(** A non-negative integer that is at most [2^k] has at most [k + 1]
    digits. *)
Lemma Zdigits2_le (z k : Z) :
  0 <= z -> 0 <= k -> z <= 2 ^ k -> Zdigits2 z <= k + 1.
Proof.
  intros Hz Hk Hle. destruct (Zdigits2_bounds z Hz) as (Hd & _ & Hlo).
  destruct (Z.eq_dec z 0) as [->|Hne]; [cbn; lia|].
  specialize (Hlo ltac:(lia)).
  destruct (Z_lt_le_dec (k + 1) (Zdigits2 z)) as [Hlt|]; [|lia].
  assert (H : 2 ^ (k + 1) <= 2 ^ (Zdigits2 z - 1))
    by (apply Z.pow_le_mono_r; lia).
  rewrite Z.pow_add_r, Z.pow_1_r in H by lia.
  assert (0 < 2 ^ k) by (apply Z.pow_pos_nonneg; lia). lia.
Qed.

Lemma fexp_le_m52 (d : Z) : d <= 1 -> fexp prec emax d <= -52.
Proof. unfold fexp, SpecFloat.emin, prec, emax. lia. Qed.

Lemma new_location_0 (b : Z) : new_location b 0 = loc_Exact.
Proof. unfold new_location. destruct (Z.even b); reflexivity. Qed.

(** [shr_fexp] on a value [q * 2^e] that is at most 1. *)
Lemma shr_fexp_le_one (q e : Z) (l : location) :
  0 <= q -> e <= -52 -> q <= 2 ^ (- e) ->
  exists mrs e1,
    shr_fexp prec emax q e l = (mrs, e1) /\ e1 <= -52 /\
    0 <= shr_m mrs <= 2 ^ (- e1) /\
    (shr_m mrs = 2 ^ (- e1) ->
     q = 2 ^ (- e) /\ (l = loc_Exact -> exact_record mrs)).
Proof.
  intros Hq He Hle. unfold shr_fexp.
  set (n := fexp prec emax (Zdigits2 q + e) - e).
  destruct (shr_spec (shr_record_of_loc q l) e n) as (mrs & Hs & Hm & Hx).
  { rewrite shr_m_of_loc. exact Hq. }
  rewrite shr_m_of_loc in Hm, Hx.
  exists mrs, (e + Z.max 0 n). split; [exact Hs|].
  assert (Hd : Zdigits2 q + e <= 1).
  { pose proof (Zdigits2_le q (- e) Hq ltac:(lia) Hle). lia. }
  pose proof (fexp_le_m52 _ Hd) as Hf.
  assert (He1 : e + Z.max 0 n <= -52) by (unfold n; lia).
  split; [exact He1|].
  set (k := Z.max 0 n) in *.
  assert (Hk : 0 <= k) by (unfold k; lia).
  assert (HP : 0 < 2 ^ k) by (apply Z.pow_pos_nonneg; lia).
  assert (HT : 2 ^ (- e) = 2 ^ (- (e + k)) * 2 ^ k).
  { rewrite <- Z.pow_add_r by lia. f_equal. lia. }
  set (T := 2 ^ (- (e + k))) in *.
  rewrite Hm. split.
  - split; [apply Z.div_pos; lia|].
    apply Z.div_le_upper_bound; [lia|]. rewrite Z.mul_comm. lia.
  - intros E.
    assert (Hqe : q = 2 ^ (- e)).
    { pose proof (Z.mul_div_le q (2 ^ k) HP) as H. rewrite E in H. lia. }
    split; [exact Hqe|]. intros Hl.
    apply Hx.
    + rewrite Hl. split; reflexivity.
    + rewrite Hqe, HT. apply Z.mod_mul. lia.
Qed.

(** Rounding a quotient that is at most 1 gives a zero, or a float that
    compares at most equal to 1. *)
Lemma binary_round_aux_le_one (sx : bool) (q e r b : Z) :
  0 <= q -> e <= -52 -> 0 < b -> 0 <= r < b ->
  q * b + r <= b * 2 ^ (- e) ->
  binary_round_aux prec emax sx q e (new_location b r) = S754_zero sx \/
  exists m e2,
    binary_round_aux prec emax sx q e (new_location b r)
      = S754_finite sx m e2 /\
    (e2 < -52 \/ (e2 = -52 /\ Zpos m <= 2 ^ 52)).
Proof.
  intros Hq He Hb Hr Hle. unfold binary_round_aux.
  assert (HU : 0 < 2 ^ (- e)) by (apply Z.pow_pos_nonneg; lia).
  assert (Hq1 : q <= 2 ^ (- e)) by nia.
  destruct (shr_fexp_le_one q e (new_location b r) Hq He Hq1) as
    (mrs & e1 & -> & He1 & HM0 & Hx).
  pose proof (rne_range (shr_m mrs) (loc_of_shr_record mrs)) as HR.
  set (M1 := round_nearest_even (shr_m mrs) (loc_of_shr_record mrs)) in *.
  assert (HM1 : 0 <= M1 <= 2 ^ (- e1)).
  { split; [lia|].
    destruct (Z.eq_dec (shr_m mrs) (2 ^ (- e1))) as [E|NE]; [|lia].
    destruct (Hx E) as [Hqe Hexact].
    unfold M1. rewrite round_exact_record; [lia|].
    apply Hexact. rewrite Hqe in Hle. assert (r = 0) by nia. subst r.
    apply new_location_0. }
  destruct (shr_fexp_le_one M1 e1 loc_Exact) as
    (mrs2 & e2 & -> & He2 & HM2 & _); try lia.
  destruct (shr_m mrs2) as [|m|m] eqn:Em; [left; reflexivity| |lia].
  right. exists m, e2.
  destruct (Z.leb_spec e2 (emax - prec)); [|unfold emax, prec in *; lia].
  split; [reflexivity|].
  destruct (Z.eq_dec e2 (-52)) as [->|]; [|left; lia].
  right. split; [reflexivity|]. change (- -52) with 52 in HM2. lia.
Qed.

(** Canonical positive binary64 data compare as the numbers they stand
    for. *)
Lemma SFleb_finite_le (px pm : positive) (ex em : Z) :
  bounded prec emax px ex = true -> bounded prec emax pm em = true ->
  SFleb (S754_finite false px ex) (S754_finite false pm em) = true ->
  ex <= em /\ Zpos px <= Zpos pm * 2 ^ (em - ex).
Proof.
  unfold bounded, canonical_mantissa, fexp, SpecFloat.emin.
  rewrite !andb_true_iff, !Z.eqb_eq, !Z.leb_le.
  intros [Cx _] [Cm _]. unfold SFleb, SFcompare.
  pose proof (digits2_pos_bounds px) as Bx.
  pose proof (digits2_pos_bounds pm) as Bm.
  destruct (Z.compare_spec ex em) as [E|L|G]; [| |discriminate].
  - subst em. change (Pos.compare_cont Eq px pm) with (px ?= pm)%positive.
    destruct (Pos.compare_spec px pm); try discriminate; intros _;
      rewrite Z.sub_diag, Z.pow_0_r; lia.
  - intros _. split; [lia|].
    assert (Hdm : Zpos (digits2_pos pm) = 53) by (unfold prec, emax in *; lia).
    assert (Hdx : Zpos (digits2_pos px) <= 53) by (unfold prec in *; lia).
    rewrite Hdm in Bm. change (2 ^ (53 - 1)) with (2 ^ 52) in Bm.
    assert (Hx53 : 2 ^ Zpos (digits2_pos px) <= 2 ^ 53)
      by (apply Z.pow_le_mono_r; lia).
    assert (H2 : 2 ^ 1 <= 2 ^ (em - ex)) by (apply Z.pow_le_mono_r; lia).
    rewrite Z.pow_1_r in H2. change (2 ^ 53) with (2 * 2 ^ 52) in Hx53.
    nia.
Qed.

Lemma shiftl_match_nonneg (m s : Z) :
  0 <= s ->
  match s with
  | Zpos _ => Z.shiftl m s
  | Z0 => m
  | Zneg _ => 0
  end = m * 2 ^ s.
Proof.
  intros Hs. destruct s; try lia. apply Z.shiftl_mul_pow2. lia.
Qed.

(** A quotient of a binary64 by a positive one that is not smaller in
    magnitude: a zero, or a float of magnitude at most 1. *)
Lemma SFdiv_le_one (sx : bool) (px pm : positive) (ex em : Z) :
  ex <= em -> Zpos px <= Zpos pm * 2 ^ (em - ex) ->
  SFdiv prec emax (S754_finite sx px ex) (S754_finite false pm em)
    = S754_zero sx \/
  exists m e2,
    SFdiv prec emax (S754_finite sx px ex) (S754_finite false pm em)
      = S754_finite sx m e2 /\
    (e2 < -52 \/ (e2 = -52 /\ Zpos m <= 2 ^ 52)).
Proof.
  intros He Hle. unfold SFdiv, SFdiv_core_binary. cbn [Zdigits2].
  rewrite xorb_false_r.
  pose proof (digits2_pos_bounds px) as Bx.
  pose proof (digits2_pos_bounds pm) as Bm.
  set (d1 := Zpos (digits2_pos px)) in *.
  set (d2 := Zpos (digits2_pos pm)) in *.
  assert (HP : 0 < 2 ^ (em - ex)) by (apply Z.pow_pos_nonneg; lia).
  assert (HD : d1 + ex - (d2 + em) <= 0).
  { assert (H : 2 ^ (d1 - 1) < 2 ^ (d2 + (em - ex))).
    { rewrite Z.pow_add_r by lia. nia. }
    apply Z.pow_lt_mono_r_iff in H; lia. }
  pose proof (fexp_le_m52 (d1 + ex - (d2 + em)) ltac:(lia)) as Hf.
  set (e' := Z.min (fexp prec emax (d1 + ex - (d2 + em))) (ex - em)).
  assert (He' : e' <= -52) by (unfold e'; lia).
  assert (Hs : 0 <= ex - em - e') by (unfold e'; lia).
  rewrite shiftl_match_nonneg by exact Hs.
  pose proof (Z_div_mod (Zpos px * 2 ^ (ex - em - e')) (Zpos pm) ltac:(lia))
    as Hdm.
  destruct (Z.div_eucl (Zpos px * 2 ^ (ex - em - e')) (Zpos pm)) as [q r].
  destruct Hdm as [Hq Hr].
  assert (HS : 0 < 2 ^ (ex - em - e')) by (apply Z.pow_pos_nonneg; lia).
  assert (HU : 2 ^ (- e') = 2 ^ (em - ex) * 2 ^ (ex - em - e')).
  { rewrite <- Z.pow_add_r by lia. f_equal. lia. }
  apply binary_round_aux_le_one; try lia.
  - nia.
  - rewrite HU. nia.
Qed.

Lemma two_52 : 2 ^ 52 = 4503599627370496.
Proof. reflexivity. Qed.

Lemma compare_cont_le (m P : positive) :
  Zpos m <= Zpos P ->
  match Pos.compare_cont Eq m P with Gt => false | _ => true end = true.
Proof.
  intros Hmz.
  change (Pos.compare_cont Eq m P) with (m ?= P)%positive.
  destruct (Pos.compare_spec m P); try reflexivity. lia.
Qed.

(** The binary64 data that compare at most equal to 1. *)
Lemma SFleb_one (m : positive) (e : Z) :
  e < -52 \/ (e = -52 /\ Zpos m <= 2 ^ 52) ->
  SFleb (S754_finite false m e) (S754_finite false 4503599627370496 (-52))
  = true.
Proof.
  intros [Hlt|[He Hm]]; unfold SFleb, SFcompare.
  - rewrite (proj2 (Z.compare_lt_iff e (-52)) Hlt). reflexivity.
  - rewrite He, Z.compare_refl. apply compare_cont_le.
    rewrite two_52 in Hm. exact Hm.
Qed.

(** Dividing by a positive finite float that is at least as large in
    magnitude gives a float of magnitude at most 1. *)
Lemma div_abs_le_one (x m : float) :
  (0 <? m)%float = true -> finite_nonzero m ->
  (abs x <=? m)%float = true -> (abs (x / m) <=? 1)%float = true.
Proof.
  intros Hpos (s & pm & em & Hm) Hle.
  pose proof (Prim2SF_valid x) as Vx. pose proof (Prim2SF_valid m) as Vm.
  rewrite ltb_spec, Hm in Hpos. rewrite leb_spec, abs_spec, Hm in Hle.
  rewrite Hm in Vm. rewrite leb_spec, abs_spec, div_spec, Hm.
  change (Prim2SF 1) with (S754_finite false 4503599627370496 (-52)).
  destruct s; [discriminate Hpos|]. clear Hpos. unfold SF64div.
  destruct (Prim2SF x) as [sx|sx| |sx px ex]; try discriminate Hle.
  - reflexivity.
  - cbn [SFabs] in Hle. cbn [valid_binary] in Vx, Vm.
    destruct (SFleb_finite_le px pm ex em Vx Vm Hle) as [He Hv].
    destruct (SFdiv_le_one sx px pm ex em He Hv) as [->|(mz & e2 & -> & Hz)];
      [reflexivity|].
    cbn [SFabs]. apply SFleb_one. exact Hz.
Qed.

Lemma SFleb_not_SFltb (x y : spec_float) :
  SFleb x y = true -> SFltb y x = false.
Proof.
  unfold SFleb, SFltb, SFcompare.
  destruct x as [[]|[]| |[] m1 e1], y as [[]|[]| |[] m2 e2];
    try reflexivity; try discriminate.
  - rewrite (Z.compare_antisym e1 e2).
    change (Pos.compare_cont Eq m2 m1) with (m2 ?= m1)%positive.
    change (Pos.compare_cont Eq m1 m2) with (m1 ?= m2)%positive.
    rewrite (Pos.compare_antisym m1 m2).
    destruct (e1 ?= e2); cbn [CompOpp]; try reflexivity; try discriminate.
    destruct (m1 ?= m2)%positive; cbn [CompOpp];
      try reflexivity; discriminate.
  - rewrite (Z.compare_antisym e1 e2).
    change (Pos.compare_cont Eq m2 m1) with (m2 ?= m1)%positive.
    change (Pos.compare_cont Eq m1 m2) with (m1 ?= m2)%positive.
    rewrite (Pos.compare_antisym m1 m2).
    destruct (e1 ?= e2); cbn [CompOpp]; try reflexivity; try discriminate.
    destruct (m1 ?= m2)%positive; cbn [CompOpp];
      try reflexivity; discriminate.
Qed.

Lemma SFcompare_Eq_finite (x : spec_float) (s : bool) (m : positive) (e : Z) :
  SFcompare x (S754_finite s m e) = Some Eq -> x = S754_finite s m e.
Proof.
  unfold SFcompare.
  destruct x as [[]|[]| |[] m1 e1], s; try discriminate.
  - destruct (Z.compare_spec e1 e); try discriminate.
    change (Pos.compare_cont Eq m1 m) with (m1 ?= m)%positive.
    destruct (Pos.compare_spec m1 m); try discriminate. congruence.
  - destruct (Z.compare_spec e1 e); try discriminate.
    change (Pos.compare_cont Eq m1 m) with (m1 ?= m)%positive.
    destruct (Pos.compare_spec m1 m); try discriminate. congruence.
Qed.

Lemma SFleb_not_nan (x y : spec_float) :
  SFleb x y = true -> SFeqb x x = true.
Proof.
  unfold SFleb, SFeqb, SFcompare.
  destruct x as [[]|[]| |[] m1 e1]; try reflexivity;
    try (destruct y as [[]|[]| |[] ? ?]; discriminate);
    intros _; rewrite Z.compare_refl;
    change (Pos.compare_cont Eq m1 m1) with (m1 ?= m1)%positive;
    rewrite Pos.compare_refl; reflexivity.
Qed.

Lemma leb_not_nan (x y : float) :
  (x <=? y)%float = true -> is_nan x = false.
Proof.
  unfold is_nan. rewrite leb_spec, FloatAxioms.eqb_spec. intros H.
  rewrite (SFleb_not_nan _ _ H). reflexivity.
Qed.

Lemma leb_not_ltb (x y : float) :
  (x <=? y)%float = true -> (y <? x)%float = false.
Proof. rewrite leb_spec, ltb_spec. apply SFleb_not_SFltb. Qed.

(** At most 1 and not below 1 is 1. *)
Lemma leb_one_not_ltb (x : float) :
  (x <=? 1)%float = true -> (x <? 1)%float = false -> x = 1%float.
Proof.
  rewrite leb_spec, ltb_spec. unfold SFleb, SFltb. intros Hle Hlt.
  apply Prim2SF_inj.
  change (Prim2SF 1) with (S754_finite false 4503599627370496 (-52)) in *.
  apply SFcompare_Eq_finite.
  destruct (SFcompare (Prim2SF x) _) as [[]|]; congruence.
Qed.

Lemma maximum_le_one (x y : float) :
  (x <=? 1)%float = true -> (y <=? 1)%float = true ->
  (float64_maximum x y <=? 1)%float = true /\
  (x = 1%float \/ y = 1%float -> float64_maximum x y = 1%float).
Proof.
  intros Hx Hy. unfold float64_maximum.
  rewrite (leb_not_nan _ _ Hx), (leb_not_nan _ _ Hy).
  destruct (x <? y)%float eqn:Hlt; (split; [assumption|]).
  - intros [-> | ->]; [|reflexivity].
    rewrite (leb_not_ltb _ _ Hy) in Hlt. discriminate Hlt.
  - intros [-> | ->]; [reflexivity|].
    apply leb_one_not_ltb; assumption.
Qed.

Lemma fold_maximum_one (l : list float) : forall acc,
  (acc <=? 1)%float = true ->
  Forall (fun y => (y <=? 1)%float = true) l ->
  acc = 1%float \/ In 1%float l ->
  fold_left float64_maximum l acc = 1%float.
Proof.
  induction l as [|y l IH]; intros acc Hacc Hall Hone; cbn [fold_left].
  - destruct Hone as [H|[]]. exact H.
  - inversion Hall as [|? ? Hy Hl]; subst.
    destruct (maximum_le_one acc y Hacc Hy) as [Hle Heq].
    apply IH; [exact Hle | exact Hl |].
    destruct Hone as [H|[H|H]]; [left; apply Heq; left; exact H
                                | left; apply Heq; right; congruence
                                | right; exact H].
Qed.

(** The largest magnitude of an array whose magnitudes are at most 1,
    and that holds a 1, is 1. *)
Lemma max_abs_one (l : list float) :
  Forall (fun y => (abs y <=? 1)%float = true) l -> In 1%float l ->
  np.max (map abs l) = Ok 1%float.
Proof.
  intros Hall Hone.
  assert (Hall' : Forall (fun y => (y <=? 1)%float = true) (map abs l)).
  { apply Forall_map. exact Hall. }
  assert (Hone' : In 1%float (map abs l)).
  { change 1%float with (abs 1) at 1. apply in_map. exact Hone. }
  destruct (map abs l) as [|x l']; [destruct Hone'|].
  cbn [np.max]. f_equal.
  inversion Hall' as [|? ? Hx Hl]; subst.
  apply fold_maximum_one; [exact Hx | exact Hl |].
  destruct Hone' as [H|H]; [left; congruence | right; exact H].
Qed.

(** ** numpy: slices and the length of a convolution *)

Section ArrayFacts.

Context {A : Type} {D : dtype A}.

Lemma column_length (m : ndarray2 A) (c : nat) :
  List.length (np.column m c) = shape0 m.
Proof. unfold np.column. rewrite length_map, length_seq. reflexivity. Qed.

Lemma convolve_arrays_Ok (a v : list A) :
  a <> [] -> v <> [] ->
  exists y, np.convolve_arrays a v = Ok y /\
            List.length y = (List.length a + List.length v - 1)%nat.
Proof.
  intros Ha Hv. unfold np.convolve_arrays.
  assert (List.length a <> 0%nat) by (destruct a; simpl; congruence).
  assert (List.length v <> 0%nat) by (destruct v; simpl; congruence).
  destruct (List.length a <? List.length v)%nat;
    repeat match goal with
           | |- context [(?n =? 0)%nat] =>
               destruct (Nat.eqb_spec n 0); [contradiction|]
           end;
    eexists; (split; [reflexivity|]);
    rewrite length_map, length_seq; lia.
Qed.

Lemma slice_to_firstn (a : list A) (stop : Z) :
  0 <= stop <= Z.of_nat (List.length a) ->
  np.slice_to a stop = firstn (Z.to_nat stop) a.
Proof.
  intros H. unfold np.slice_to.
  destruct (Z.ltb_spec stop 0); [lia|].
  rewrite Z.min_l by lia. reflexivity.
Qed.

(** [a[off::s]] on an array of [d] whole windows of [s] samples takes
    one sample per window. *)
Lemma slice_from_step_windows (a : list A) (off s d : Z) :
  0 < s -> 0 <= off < s -> 0 <= d ->
  Z.of_nat (List.length a) = d * s ->
  np.slice_from_step a off s =
  Ok (map (fun k => nth (Z.to_nat (Z.of_nat k * s + off)) a dzero)
          (seq 0 (Z.to_nat d))).
Proof.
  intros Hs Hoff Hd Hlen. unfold np.slice_from_step. rewrite Hlen.
  destruct (Z.eqb_spec s 0); [lia|].
  destruct (Z.ltb_spec 0 s); [|lia].
  destruct (Z.ltb_spec off 0); [lia|].
  destruct (Z.eq_dec d 0) as [->|Hd0].
  - rewrite Z.mul_0_l, Z.min_r by lia.
    destruct (Z.ltb_spec 0 0); [lia|]. reflexivity.
  - assert (off < d * s) by nia.
    rewrite Z.min_l by lia.
    destruct (Z.ltb_spec off (d * s)); [|lia].
    replace ((d * s - off - 1) / s + 1) with d.
    + f_equal. apply map_ext. intros k. f_equal. lia.
    + assert ((d * s - off - 1) / s = d - 1); [|lia].
      symmetry. apply Z.div_unique with (r := s - off - 1); lia.
Qed.

(** An empty array has nothing to resample, whatever the step. *)
Lemma slice_from_step_nil (off s : Z) :
  s <> 0 -> np.slice_from_step (@nil A) off s = Ok [].
Proof.
  intros Hs. unfold np.slice_from_step. simpl List.length.
  change (Z.of_nat 0) with 0.
  destruct (Z.eqb_spec s 0); [contradiction|].
  destruct (0 <? s).
  - set (lo := if off <? 0 then Z.max 0 (off + 0) else Z.min off 0).
    assert (Hlo : 0 <= lo) by (unfold lo; destruct (Z.ltb_spec off 0); lia).
    destruct (Z.ltb_spec lo 0); [lia|]. reflexivity.
  - set (hi := if off <? 0 then Z.max (-1) (off + 0) else Z.min off (0 - 1)).
    assert (Hhi : hi <= -1) by (unfold hi; destruct (Z.ltb_spec off 0); lia).
    destruct (Z.ltb_spec (-1) hi); [lia|]. reflexivity.
Qed.

Lemma resample_length (s d off : Z) (y : list A) :
  List.length (resample s d off y) = Z.to_nat d.
Proof. unfold resample. rewrite length_map, length_seq. reflexivity. Qed.

Lemma resample_nth (s d off : Z) (y : list A) (k : nat) :
  (k < Z.to_nat d)%nat ->
  nth k (resample s d off y) dzero =
  nth (Z.to_nat (Z.of_nat k * s + off)) (firstn (Z.to_nat (d * s)) y) dzero.
Proof.
  intros Hk. unfold resample. rewrite nth_map_seq by assumption.
  reflexivity.
Qed.

End ArrayFacts.

(** ** convolve_hrf: stride, duration and offset *)

(** [int(shape[0] / stride)] and [int(stride / 2)] are the integer
    quotients when rows and stride are below [2^53]. *)
Lemma get_duration_floor {A : Type} (stim : ndarray2 A) (s : Z) :
  Z.of_nat (shape0 stim) < int_exact_bound -> 0 < s < int_exact_bound ->
  get_duration stim s = Ok (Z.of_nat (shape0 stim) / s).
Proof.
  intros HR Hs. unfold get_duration. apply int_floor_div; lia.
Qed.

Lemma get_offset_floor (s : Z) :
  0 <= s < int_exact_bound -> get_offset s = Ok (s / 2).
Proof.
  intros Hs. unfold get_offset. apply int_floor_div; [lia|].
  unfold int_exact_bound. split; reflexivity.
Qed.

(** ** convolve_hrf: one column, then the loop over the columns *)

Section ConvolveFacts.

Context {libm : math_module} {A : Type} {D : dtype A}.

Variable stimfunction : ndarray2 A.
Variable scale_function : bool.

(** Lines 138-145 on a column: the convolution exists as soon as the
    column and the kernel are not empty, and the two slices resample
    it. *)
Lemma signal_vox_of_spec (s d off : Z) (h : list pynum) (hv : list A)
  (c : nat) :
  (1 <= shape0 stimfunction)%nat ->
  np.asarray h = Ok hv -> hv <> [] ->
  0 < s -> 0 <= d ->
  d * s <= Z.of_nat (shape0 stimfunction) ->
  get_offset s = Ok off -> 0 <= off < s ->
  exists y,
    np.convolve (np.column stimfunction c) h = Ok y /\
    signal_vox_of stimfunction s d (Some h) c = Ok (resample s d off y).
Proof.
  intros HR Hh Hhv Hs Hd Hfit Hoff Hoff'.
  destruct (convolve_arrays_Ok (np.column stimfunction c) hv)
    as (y & Hy & Hlen); [|assumption|].
  { intros E. apply (f_equal (@List.length A)) in E.
    rewrite column_length in E. simpl in E. lia. }
  rewrite column_length in Hlen.
  assert (1 <= List.length hv)%nat by (destruct hv; simpl; [congruence|lia]).
  exists y. unfold np.convolve. rewrite Hh. simpl. split; [assumption|].
  unfold signal_vox_of, np.convolve. simpl. rewrite Hh. simpl.
  rewrite Hy. simpl. rewrite Hoff. simpl.
  rewrite slice_to_firstn by nia.
  rewrite slice_from_step_windows with (d := d); try assumption.
  - reflexivity.
  - rewrite length_firstn. nia.
Qed.

Lemma scale_length (v v' : list A) :
  scale scale_function v = Ok v' -> List.length v' = List.length v.
Proof.
  unfold scale. destruct scale_function.
  - intros H. bind_inv H. unfold np.divide in H.
    eapply map_result_length; eassumption.
  - intros H. injection H as <-. reflexivity.
Qed.

Variables (s d : Z) (hrf : option (list pynum)).

Lemma column_body_unfold (c : nat) (st : option (ndarray2 A)) :
  column_body stimfunction scale_function s d hrf c st =
  (signal_vox <- column_result stimfunction scale_function s d hrf c ;;
   m <- local "signal_function"
          (if (c =? 0)%nat
           then Some (np.zeros (List.length signal_vox)
                               (shape1 stimfunction))
           else st) ;;
   m' <- np.set_column m c signal_vox ;;
   Ok (Some m')).
Proof.
  unfold column_body, column_result.
  destruct (signal_vox_of stimfunction s d hrf c) as [v|]; simpl;
    [|reflexivity].
  destruct (scale scale_function v); reflexivity.
Qed.

Variable cols : nat -> list A.
Variable len : nat.

(** The loop from column [c0 >= 1] on, with [signal_function] bound. *)
Lemma column_loop_from (n c0 : nat) (m : ndarray2 A) :
  (1 <= c0)%nat ->
  shape0 m = len -> shape1 m = shape1 stimfunction ->
  (forall c, (c0 <= c < c0 + n)%nat ->
     column_result stimfunction scale_function s d hrf c = Ok (cols c) /\
     List.length (cols c) = len) ->
  exists m',
    for_each (seq c0 n) (column_body stimfunction scale_function s d hrf)
             (Some m) = Ok (Some m') /\
    shape0 m' = len /\ shape1 m' = shape1 stimfunction /\
    (forall k c, (c0 <= c < c0 + n)%nat ->
       item m' k c = nth k (cols c) dzero) /\
    (forall k c, (c < c0)%nat -> item m' k c = item m k c).
Proof.
  revert c0 m. induction n as [|n IH]; intros c0 m Hc0 Hm0 Hm1 Hcols.
  - exists m. simpl. repeat split; auto. intros; lia.
  - destruct (Hcols c0) as [Hres Hlen]; [lia|].
    simpl. rewrite column_body_unfold, Hres. simpl.
    destruct (Nat.eqb_spec c0 0); [lia|]. simpl.
    unfold np.set_column. rewrite Hlen, Hm0, Nat.eqb_refl. simpl.
    edestruct (IH (S c0)) as (m' & Hrun & H0 & H1 & Hin & Hout);
      [| | | | exists m'; split; [exact Hrun|]]; simpl; auto; try lia.
    + intros c Hc. apply Hcols. lia.
    + repeat split; auto.
      * intros k c Hc. destruct (Nat.eq_dec c c0) as [->|Hne].
        -- rewrite Hout by lia. simpl. rewrite Nat.eqb_refl. reflexivity.
        -- apply Hin. lia.
      * intros k c Hc. rewrite Hout by lia. simpl.
        destruct (Nat.eqb_spec c c0); [lia | reflexivity].
Qed.

(** The whole loop, on at least one column. *)
Lemma column_loop_all :
  (1 <= shape1 stimfunction)%nat ->
  (forall c, (c < shape1 stimfunction)%nat ->
     column_result stimfunction scale_function s d hrf c = Ok (cols c) /\
     List.length (cols c) = len) ->
  exists m',
    for_each (seq 0 (shape1 stimfunction))
             (column_body stimfunction scale_function s d hrf)
             None = Ok (Some m') /\
    shape0 m' = len /\ shape1 m' = shape1 stimfunction /\
    (forall k c, (c < shape1 stimfunction)%nat ->
       item m' k c = nth k (cols c) dzero).
Proof.
  intros HC Hcols. remember (shape1 stimfunction) as C eqn:EC.
  destruct C as [|C']; [lia|].
  destruct (Hcols 0%nat) as [Hres Hlen]; [lia|].
  cbn [seq for_each]. rewrite column_body_unfold, Hres. simpl bind.
  unfold np.set_column. cbn [np.zeros shape0 shape1].
  rewrite Nat.eqb_refl. simpl bind.
  edestruct (column_loop_from C' 1) as (m' & Hrun & H0 & H1 & Hin & Hout);
    [| | | | exists m'; split; [exact Hrun|]]; simpl; auto.
  - intros c Hc. apply Hcols. lia.
  - repeat split; auto.
    + congruence.
    + intros k c Hc. destruct c as [|c].
      * rewrite Hout by lia. reflexivity.
      * apply Hin. lia.
Qed.

End ConvolveFacts.

(** ** convolve_hrf: a run that reaches the end *)

Section ConvolveRun.

Context {libm : math_module} {A : Type} {D : dtype A}.

Variable stimfunction : ndarray2 A.
Variable tr_duration : float.
Variable hrf_type : hrf_arg.
Variable scale_function : bool.
Variable temporal_resolution : float.

Variables (s d off : Z) (h : list pynum) (hv : list A).

Hypothesis Hshape :
  (1 <= shape1 stimfunction <= shape0 stimfunction)%nat.
Hypothesis Hstride : get_stride tr_duration temporal_resolution = Ok s.
Hypothesis Hs : 0 < s.
Hypothesis Hduration : get_duration stimfunction s = Ok d.
Hypothesis Hd : 0 <= d.
Hypothesis Hfit : d * s <= Z.of_nat (shape0 stimfunction).
Hypothesis Hoffset : get_offset s = Ok off.
Hypothesis Hoff : 0 <= off < s.
Hypothesis Hhrf : get_hrf hrf_type temporal_resolution = Ok (Some h).
Hypothesis Hasarray : np.asarray h = Ok hv.
Hypothesis Hhv : hv <> [].

(** Every column yields its resampled convolution. *)
Lemma signal_vox_of_full (c : nat) :
  np.convolve (np.column stimfunction c) h
    = Ok (full_convolution (np.column stimfunction c) h) /\
  signal_vox_of stimfunction s d (Some h) c =
  Ok (resample s d off (full_convolution (np.column stimfunction c) h)).
Proof.
  destruct (signal_vox_of_spec stimfunction s d off h hv c)
    as (y & Hy & Hvox); try assumption; try lia.
  unfold full_convolution. rewrite Hy. split; [reflexivity | exact Hvox].
Qed.

(** The run, given what the scaling step makes of every column. *)
Lemma convolve_hrf_run (cols : nat -> list A) :
  (forall c, (c < shape1 stimfunction)%nat ->
     scale scale_function
       (resample s d off (full_convolution (np.column stimfunction c) h))
     = Ok (cols c)) ->
  exists out,
    convolve_hrf stimfunction tr_duration hrf_type scale_function
                 temporal_resolution = Ok out /\
    shape0 out = Z.to_nat d /\ shape1 out = shape1 stimfunction /\
    forall k c, (c < shape1 stimfunction)%nat ->
      item out k c = nth k (cols c) dzero.
Proof.
  intros Hcols. unfold convolve_hrf.
  destruct (Nat.ltb_spec (shape0 stimfunction) (shape1 stimfunction));
    [lia|].
  cbn [bind]. rewrite Hstride. cbn [bind]. rewrite Hduration. cbn [bind].
  rewrite Hhrf. cbn [bind].
  destruct (column_loop_all stimfunction scale_function s d (Some h)
              cols (Z.to_nat d)) as (m & Hrun & H0 & H1 & Hitem).
  - lia.
  - intros c Hc. unfold column_result.
    destruct (signal_vox_of_full c) as [_ ->]. cbn [bind].
    split; [apply Hcols; assumption|].
    rewrite (scale_length _ _ _ (Hcols c Hc)). apply resample_length.
  - rewrite Hrun. cbn [bind local]. exists m. auto.
Qed.

End ConvolveRun.

(* ===================================================================== *)
(** * Part III: the statements of the specification *)
(* ===================================================================== *)

(** The conditions under which a call reaches its end: no more columns
    than rows and at least one column, fewer than [2^53] rows, a stride
    of at least 1 that fits at least once, and an HRF that is bound to
    a non-empty sequence of numbers. *)
Lemma run_conditions {A : Type} (stim : ndarray2 A) (s : Z) :
  (1 <= shape1 stim <= shape0 stim)%nat ->
  Z.of_nat (shape0 stim) < int_exact_bound ->
  1 <= s -> 1 <= Z.of_nat (shape0 stim) / s ->
  get_duration stim s = Ok (Z.of_nat (shape0 stim) / s) /\
  get_offset s = Ok (s / 2) /\
  Z.of_nat (shape0 stim) / s * s <= Z.of_nat (shape0 stim) /\
  0 <= s / 2 < s.
Proof.
  intros Hshape HR Hs Hd.
  assert (s <= Z.of_nat (shape0 stim)).
  { destruct (Z_lt_le_dec (Z.of_nat (shape0 stim)) s); [|assumption].
    rewrite Z.div_small in Hd by lia. lia. }
  repeat split.
  - apply get_duration_floor; lia.
  - apply get_offset_floor; lia.
  - rewrite Z.mul_comm. apply Z.mul_div_le. lia.
  - apply Z.div_pos; lia.
  - apply Z.div_lt; lia.
Qed.

(** C1 (amended): with [scale_function = false], for a [stimfunction] of
    [R] rows and [C] columns with [1 <= C <= R < 2^53], a stride
    [s = int(temporal_resolution * tr_duration) >= 1], a duration
    [d = floor(R / s) >= 1] and an HRF bound to a non-empty sequence,
    [convolve_hrf] returns an array of [d] rows and [C] columns whose
    entry at row [k], column [c] is the full convolution of column [c]
    with the HRF, truncated to its first [d * s] samples, at index
    [k * s + floor(s / 2)]. *)
Theorem convolve_hrf_unscaled_resamples
  {libm : math_module} {A : Type} {D : dtype A}
  (stim : ndarray2 A) (tr_duration temporal_resolution : float)
  (hrf_type : hrf_arg) (s : Z) (h : list pynum) (hv : list A) :
  (1 <= shape1 stim <= shape0 stim)%nat ->
  Z.of_nat (shape0 stim) < int_exact_bound ->
  get_stride tr_duration temporal_resolution = Ok s ->
  1 <= s ->
  1 <= Z.of_nat (shape0 stim) / s ->
  get_hrf hrf_type temporal_resolution = Ok (Some h) ->
  np.asarray h = Ok hv -> hv <> [] ->
  exists out,
    convolve_hrf stim tr_duration hrf_type false temporal_resolution
      = Ok out /\
    Z.of_nat (shape0 out) = Z.of_nat (shape0 stim) / s /\
    shape1 out = shape1 stim /\
    forall c, (c < shape1 stim)%nat ->
      exists y,
        np.convolve (np.column stim c) h = Ok y /\
        forall k, (k < shape0 out)%nat ->
          item out k c =
          nth (Z.to_nat (Z.of_nat k * s + s / 2))
              (firstn (Z.to_nat (Z.of_nat (shape0 stim) / s * s)) y) dzero.
Proof.
  intros Hshape HR Hstride Hs Hd Hhrf Hh Hhv.
  destruct (run_conditions stim s Hshape HR Hs Hd)
    as (Hdur & Hoff & Hfit & Hhalf).
  set (d := Z.of_nat (shape0 stim) / s) in *.
  destruct (convolve_hrf_run stim tr_duration hrf_type false
              temporal_resolution s d (s / 2) h hv)
    with (cols := fun c =>
            resample s d (s / 2) (full_convolution (np.column stim c) h))
    as (out & Hout & H0 & H1 & Hitem); try assumption; try lia.
  { intros c Hc. reflexivity. }
  exists out. split; [exact Hout|]. split; [lia|]. split; [exact H1|].
  intros c Hc.
  destruct (signal_vox_of_full stim s d (s / 2) h hv) with (c := c)
    as [Hy _]; try assumption; try lia.
  eexists. split; [exact Hy|].
  intros k Hk. rewrite Hitem by assumption.
  apply resample_nth. lia.
Qed.

(** C2: for every index [i] from [0] to [N - 2], the entry [hrf[i]] of the
    sequence the synthesizer returns is the float
    [response(t) - undershoot(t)] of the closed form at
    [t = i / temporal_resolution], whose undershoot exponent is
    [-(t - undershoot_peak / undershoot_dispersion)]. *)
Theorem double_gamma_hrf_closed_form
  {libm : math_module} (p : hrf_params) (n : Z) (hrf : list pynum) (i : Z) :
  hrf_size p = Ok n ->
  _double_gamma_hrf p = Ok hrf ->
  0 <= i <= n - 2 ->
  exists v, spec_hrf_value p i = Ok v /\
            nth (Z.to_nat i) hrf (PyInt 0) = PyFloat v.
Proof.
  intros Hn Hhrf Hi.
  destruct (double_gamma_hrf_spec p n hrf Hn Hhrf) as (_ & Hin & _).
  destruct (Hin i Hi) as (v & Hv & Hnth).
  exists v. rewrite <- hrf_sample_closed_form. auto.
Qed.

(** C3 (amended): for a positive [temporal_resolution] whose
    [N = int(30 * temporal_resolution)] can be computed, and shape
    parameters with which every sample [0 .. N - 2] can be evaluated, the
    synthesizer returns a sequence of exactly [N] values, and its last
    value, when there is one, is the [int] zero it was initialised
    with. *)
Theorem double_gamma_hrf_length_and_last
  {libm : math_module} (p : hrf_params) (n : Z) :
  (0 <? temporal_resolution p)%float = true ->
  hrf_size p = Ok n ->
  (forall i, 0 <= i <= n - 2 -> exists v, hrf_sample p i = Ok v) ->
  exists hrf,
    _double_gamma_hrf p = Ok hrf /\
    Z.of_nat (List.length hrf) = n /\
    (1 <= n -> nth (Z.to_nat (n - 1)) hrf (PyFloat 1) = PyInt 0).
Proof.
  intros Hpos Hn Hs.
  pose proof (hrf_size_nonneg p n Hpos Hn) as Hn0.
  destruct (double_gamma_hrf_Ok p n Hn Hs) as [hrf Hhrf].
  destruct (double_gamma_hrf_spec p n hrf Hn Hhrf) as (Hlen & _ & Hlast).
  exists hrf. split; [assumption|]. split; [lia|]. auto.
Qed.

(** C5: what the code does on a [stimfunction] with fewer rows than
    columns: the warning is sent to [logger], a name the module never
    binds, and the call ends there with a [NameError]. *)
Theorem convolve_hrf_wide_stimfunction
  {libm : math_module} {A : Type} {D : dtype A}
  (stim : ndarray2 A) (tr_duration temporal_resolution : float)
  (hrf_type : hrf_arg) (scale_function : bool) :
  (shape0 stim < shape1 stim)%nat ->
  convolve_hrf stim tr_duration hrf_type scale_function temporal_resolution
  = Raise (NameError "logger").
Proof.
  intros H. unfold convolve_hrf.
  destruct (Nat.ltb_spec (shape0 stim) (shape1 stim)); [|lia].
  reflexivity.
Qed.

(** C6: passing as [hrf_type] the list the synthesizer returns for the
    default shape parameters and the given [temporal_resolution] gives
    the same result as passing ['double_gamma']. *)
Theorem convolve_hrf_explicit_hrf
  {libm : math_module} {A : Type} {D : dtype A}
  (stim : ndarray2 A) (tr_duration temporal_resolution : float)
  (scale_function : bool) (hrf : list pynum) :
  _double_gamma_hrf (default_params temporal_resolution) = Ok hrf ->
  convolve_hrf stim tr_duration (HrfList hrf) scale_function
               temporal_resolution =
  convolve_hrf stim tr_duration (HrfStr "double_gamma") scale_function
               temporal_resolution.
Proof.
  intros Hhrf. unfold convolve_hrf, get_hrf. simpl String.eqb.
  rewrite Hhrf. reflexivity.
Qed.

(** C9 (amended): when [hrf_type] is neither ['double_gamma'] nor a list,
    the rows are not fewer than the columns, and stride and duration are
    computed without an exception, the call fails before any convolution.
    A numpy array of two or more numbers fails at the comparison of line
    126, which is entry by entry, with the [ValueError] of an ambiguous
    truth value.  Every other value fails with an [UnboundLocalError]:
    for [hrf], read as the argument of the first convolution, or, when
    there is no column, for [signal_function] at the return. *)
Theorem convolve_hrf_unbound_hrf
  {libm : math_module} {A : Type} {D : dtype A}
  (stim : ndarray2 A) (tr_duration temporal_resolution : float)
  (hrf_type : hrf_arg) (scale_function : bool) (s d : Z) :
  leaves_hrf_unbound hrf_type ->
  (shape1 stim <= shape0 stim)%nat ->
  get_stride tr_duration temporal_resolution = Ok s ->
  get_duration stim s = Ok d ->
  convolve_hrf stim tr_duration hrf_type scale_function temporal_resolution
  = Raise match hrf_type with
          | HrfArray _ (_ :: _) => ambiguous_truth_value
          | _ => UnboundLocalError
                   (if (shape1 stim =? 0)%nat then "signal_function"
                    else "hrf")
          end.
Proof.
  intros Hun Hshape Hs Hd. unfold convolve_hrf.
  destruct (Nat.ltb_spec (shape0 stim) (shape1 stim)); [lia|].
  cbn [bind]. rewrite Hs. cbn [bind]. rewrite Hd. cbn [bind].
  unfold get_hrf.
  destruct hrf_type as [name|l|x [|y ys]|]; simpl in Hun;
    cbn [is_double_gamma bind].
  - rewrite Hun. cbn [bind]. destruct (shape1 stim); reflexivity.
  - contradiction.
  - destruct (shape1 stim); reflexivity.
  - reflexivity.
  - destruct (shape1 stim); reflexivity.
Qed.

(** C10: with [scale_function = true], a [stimfunction] with fewer rows
    than the stride (both below [2^53], so that the duration is 0) makes
    the call fail with an exception; when the call gets as far as the
    scaling step, the exception is the [ValueError] of [np.max] on an
    empty array. *)
Theorem convolve_hrf_short_stimfunction
  {libm : math_module} {A : Type} {D : dtype A}
  (stim : ndarray2 A) (tr_duration temporal_resolution : float)
  (hrf_type : hrf_arg) (s : Z) :
  get_stride tr_duration temporal_resolution = Ok s ->
  Z.of_nat (shape0 stim) < s < int_exact_bound ->
  get_duration stim s = Ok 0 /\
  raises (convolve_hrf stim tr_duration hrf_type true temporal_resolution) /\
  forall h hv,
    (1 <= shape1 stim <= shape0 stim)%nat ->
    get_hrf hrf_type temporal_resolution = Ok (Some h) ->
    np.asarray h = Ok hv -> hv <> [] ->
    convolve_hrf stim tr_duration hrf_type true temporal_resolution
    = Raise (ValueError
        "zero-size array to reduction operation maximum which has no identity").
Proof.
  intros Hs HR.
  assert (Hd : get_duration stim s = Ok 0).
  { rewrite get_duration_floor by lia. rewrite Z.div_small by lia.
    reflexivity. }
  assert (Hoff : get_offset s = Ok (s / 2))
    by (apply get_offset_floor; lia).
  assert (Hbody : forall hrf st,
    raises (column_body stim true s 0 hrf 0 st) /\
    forall h hv, (1 <= shape0 stim)%nat -> hrf = Some h ->
      np.asarray h = Ok hv -> hv <> [] ->
      column_body stim true s 0 hrf 0 st = Raise (ValueError
        "zero-size array to reduction operation maximum which has no identity")).
  { intros hrf st.
    assert (Hgen : forall h y, np.convolve (np.column stim 0) h = Ok y ->
      column_body stim true s 0 (Some h) 0 st = Raise (ValueError
        "zero-size array to reduction operation maximum which has no identity")).
    { intros h y Hy. unfold column_body, signal_vox_of. cbn [local bind].
      rewrite Hy. cbn [bind]. rewrite Hoff. cbn [bind].
      rewrite slice_to_firstn by lia. cbn [Z.mul Z.to_nat firstn].
      rewrite slice_from_step_nil by lia. reflexivity. }
    split.
    - destruct hrf as [h|].
      + destruct (np.convolve (np.column stim 0) h) as [y|e] eqn:Hy.
        * eexists. eapply Hgen. eassumption.
        * exists e. unfold column_body, signal_vox_of. cbn [local bind].
          rewrite Hy. reflexivity.
      + eexists. reflexivity.
    - intros h hv HR1 -> Hh Hhv.
      destruct (convolve_arrays_Ok (np.column stim 0) hv) as (y & Hy & _);
        [|assumption|].
      { intros E. apply (f_equal (@List.length A)) in E.
        rewrite column_length in E. simpl in E. lia. }
      apply (Hgen h y). unfold np.convolve. rewrite Hh. exact Hy. }
  split; [exact Hd|]. split.
  - unfold convolve_hrf.
    destruct (Nat.ltb_spec (shape0 stim) (shape1 stim)).
    + eexists. reflexivity.
    + cbn [bind]. rewrite Hs. cbn [bind]. rewrite Hd. cbn [bind].
      destruct (get_hrf hrf_type temporal_resolution) as [hrf|e];
        [|eexists; reflexivity].
      cbn [bind]. destruct (shape1 stim) as [|C].
      * eexists. reflexivity.
      * cbn [seq for_each].
        destruct (Hbody hrf None) as [[e ->] _]. eexists. reflexivity.
  - intros h hv Hshape Hh Hasarray Hhv. unfold convolve_hrf.
    destruct (Nat.ltb_spec (shape0 stim) (shape1 stim)); [lia|].
    cbn [bind]. rewrite Hs. cbn [bind]. rewrite Hd. cbn [bind].
    rewrite Hh. cbn [bind]. destruct (shape1 stim) as [|C]; [lia|].
    cbn [seq for_each].
    destruct (Hbody (Some h) None) as [_ Hv].
    rewrite (Hv h hv) by (auto; lia). reflexivity.
Qed.

(** ** binary64 runs: the scaling step *)

(** On a non-empty binary64 array the scaling step never raises. *)
Lemma scale_float64 (v : list float) :
  v <> [] -> scale true v = Ok (float64_scaled v).
Proof.
  intros Hv. destruct v as [|x v']; [contradiction|].
  unfold scale, np.max, np.divide. cbn [bind].
  apply (map_result_total
           (fun y => Ok (y / fold_left float64_maximum v' x)%float)
           (fun y => (y / fold_left float64_maximum v' x)%float)).
  reflexivity.
Qed.

Lemma float64_scaled_nth (v : list float) (m : float) (k : nat) :
  np.max v = Ok m -> (k < List.length v)%nat ->
  nth k (float64_scaled v) 0%float = (nth k v 0%float / m)%float.
Proof.
  intros Hm Hk. destruct v as [|x v']; [discriminate|].
  injection Hm as <-. unfold float64_scaled.
  exact (nth_map_lt (fun y => (y / fold_left float64_maximum v' x)%float)
           (x :: v') k 0%float 0%float Hk).
Qed.

(** The maximum is one of the entries. *)
Lemma fold_maximum_In (v : list float) (x : float) :
  In (fold_left float64_maximum v x) (x :: v).
Proof.
  revert x. induction v as [|y v IH]; intros x; simpl.
  - auto.
  - assert (Hxy : float64_maximum x y = x \/ float64_maximum x y = y).
    { unfold float64_maximum. destruct (is_nan x); [auto|].
      destruct (is_nan y); [auto|]. destruct (x <? y)%float; auto. }
    destruct (IH (float64_maximum x y)) as [H|H].
    + rewrite <- H. destruct Hxy as [->| ->]; auto.
    + auto.
Qed.

Lemma max_attained (v : list float) (m : float) :
  np.max v = Ok m ->
  exists k, (k < List.length v)%nat /\ nth k v 0%float = m.
Proof.
  intros Hm. destruct v as [|x v']; [discriminate|].
  injection Hm as <-.
  destruct (In_nth _ _ 0%float (fold_maximum_In v' x)) as (k & Hk & Hnth).
  eauto.
Qed.

(** ** binary64 runs: a column of zeros *)

Lemma zero_or_nan_zero : zero_or_nan 0%float.
Proof. exact I. Qed.

Lemma Forall_nth_default {X : Type} (P : X -> Prop) (l : list X) (d : X)
  (k : nat) :
  Forall P l -> P d -> P (nth k l d).
Proof.
  intros Hl Hd. destruct (Nat.lt_ge_cases k (List.length l)).
  - apply Forall_nth; assumption.
  - rewrite nth_overflow by assumption. assumption.
Qed.

Lemma Forall_firstn_keep {X : Type} (P : X -> Prop) (l : list X) (n : nat) :
  Forall P l -> Forall P (firstn n l).
Proof.
  intros Hl. revert n. induction Hl; intros [|n]; simpl; auto.
Qed.

Lemma fold_add_zero_or_nan (f : nat -> float) (js : list nat) (acc : float) :
  zero_or_nan acc -> (forall j, zero_or_nan (f j)) ->
  zero_or_nan (fold_left (fun acc j => (acc + f j)%float) js acc).
Proof.
  intros Hacc Hf. revert acc Hacc.
  induction js as [|j js IH]; intros acc Hacc; simpl; [assumption|].
  apply IH. apply zero_or_nan_add; auto.
Qed.

(** A sum of products each of which has a zero or a NaN as a factor. *)
Lemma conv_at_zero_or_nan (a v : list float) (n : nat) :
  Forall zero_or_nan a \/ Forall zero_or_nan v ->
  zero_or_nan (np.conv_at a v n).
Proof.
  intros H. unfold np.conv_at.
  apply (fold_add_zero_or_nan
           (fun j => (nth j a 0 * nth (n - j) v 0)%float)).
  - exact I.
  - intros j. destruct H as [Ha|Hv].
    + apply zero_or_nan_mul_l.
      apply Forall_nth_default; [assumption | exact I].
    + apply zero_or_nan_mul_r.
      apply Forall_nth_default; [assumption | exact I].
Qed.

Lemma convolve_arrays_zero_or_nan (a v y : list float) :
  Forall zero_or_nan a ->
  np.convolve_arrays a v = Ok y -> Forall zero_or_nan y.
Proof.
  intros Ha. unfold np.convolve_arrays.
  destruct (List.length a <? List.length v)%nat.
  - destruct (List.length v =? 0)%nat; [discriminate|].
    destruct (List.length a =? 0)%nat; [discriminate|].
    intros H. injection H as <-. apply Forall_map, Forall_forall.
    intros n _. apply conv_at_zero_or_nan. auto.
  - destruct (List.length a =? 0)%nat; [discriminate|].
    destruct (List.length v =? 0)%nat; [discriminate|].
    intros H. injection H as <-. apply Forall_map, Forall_forall.
    intros n _. apply conv_at_zero_or_nan. auto.
Qed.

Lemma resample_zero_or_nan (s d off : Z) (y : list float) :
  Forall zero_or_nan y -> Forall zero_or_nan (resample s d off y).
Proof.
  intros Hy. unfold resample. apply Forall_map, Forall_forall.
  intros k _. apply Forall_nth_default; [|exact I].
  apply Forall_firstn_keep. assumption.
Qed.

Lemma fold_maximum_zero_or_nan (v : list float) (x : float) :
  zero_or_nan x -> Forall zero_or_nan v ->
  zero_or_nan (fold_left float64_maximum v x).
Proof.
  intros Hx Hv. revert x Hx. induction Hv; intros x0 Hx0; simpl; auto.
  apply IHHv. apply zero_or_nan_maximum; assumption.
Qed.

(** Scaling a column of zeros and NaNs leaves NaNs only. *)
Lemma float64_scaled_zero_or_nan (v : list float) (k : nat) :
  Forall zero_or_nan v -> (k < List.length v)%nat ->
  nth k (float64_scaled v) 0%float = nan.
Proof.
  intros Hv Hk. destruct v as [|x v'] eqn:E; [simpl in Hk; lia|].
  rewrite (float64_scaled_nth (x :: v') (fold_left float64_maximum v' x))
    by (reflexivity || assumption).
  inversion Hv; subst.
  apply zero_or_nan_div.
  - apply Forall_nth_default; [assumption | exact I].
  - apply fold_maximum_zero_or_nan; assumption.
Qed.

Lemma column_zero_or_nan (stim : ndarray2 float) (c : nat) :
  (forall i, (i < shape0 stim)%nat -> (item stim i c =? 0)%float = true) ->
  Forall zero_or_nan (np.column stim c).
Proof.
  intros H. unfold np.column. apply Forall_map, Forall_forall.
  intros i Hi. apply in_seq in Hi. apply eqb_zero_zero_or_nan, H. lia.
Qed.

(** A scaled binary64 run that reaches its end: every column of the
    result is the resampled convolution of the column, scaled. *)
Lemma convolve_hrf_scaled_float64
  {libm : math_module} (stim : ndarray2 float)
  (tr_duration temporal_resolution : float) (hrf_type : hrf_arg)
  (s : Z) (h : list pynum) (hv : list float) :
  (1 <= shape1 stim <= shape0 stim)%nat ->
  Z.of_nat (shape0 stim) < int_exact_bound ->
  get_stride tr_duration temporal_resolution = Ok s ->
  1 <= s ->
  1 <= Z.of_nat (shape0 stim) / s ->
  get_hrf hrf_type temporal_resolution = Ok (Some h) ->
  np.asarray h = Ok hv -> hv <> [] ->
  exists out,
    convolve_hrf stim tr_duration hrf_type true temporal_resolution
      = Ok out /\
    Z.of_nat (shape0 out) = Z.of_nat (shape0 stim) / s /\
    shape1 out = shape1 stim /\
    forall c, (c < shape1 stim)%nat ->
      exists v,
        signal_vox_of stim s (Z.of_nat (shape0 stim) / s) (Some h) c = Ok v /\
        List.length v = shape0 out /\
        (Forall zero_or_nan (np.column stim c) -> Forall zero_or_nan v) /\
        forall k, item out k c = nth k (float64_scaled v) 0%float.
Proof.
  intros Hshape HR Hstride Hs Hd Hhrf Hh Hhv.
  destruct (run_conditions stim s Hshape HR Hs Hd)
    as (Hdur & Hoff & Hfit & Hhalf).
  set (d := Z.of_nat (shape0 stim) / s) in *.
  set (vox := fun c =>
         resample s d (s / 2) (full_convolution (np.column stim c) h)).
  assert (Hvox : forall c, List.length (vox c) = Z.to_nat d)
    by (intros c; apply resample_length).
  destruct (convolve_hrf_run stim tr_duration hrf_type true
              temporal_resolution s d (s / 2) h hv)
    with (cols := fun c => float64_scaled (vox c))
    as (out & Hout & H0 & H1 & Hitem); try assumption; try lia.
  { intros c Hc. apply scale_float64. intros E.
    apply (f_equal (@List.length float)) in E.
    fold (vox c) in E. rewrite Hvox in E. simpl in E. lia. }
  exists out. split; [exact Hout|]. split; [lia|]. split; [exact H1|].
  intros c Hc.
  destruct (signal_vox_of_full stim s d (s / 2) h hv) with (c := c)
    as [Hy Hv]; try assumption; try lia.
  exists (vox c). split; [exact Hv|]. split; [rewrite Hvox; lia|]. split.
  - intros Hzero. apply resample_zero_or_nan.
    unfold np.convolve in Hy. rewrite Hh in Hy. cbn [bind] in Hy.
    eapply convolve_arrays_zero_or_nan; eassumption.
  - intros k. apply Hitem. assumption.
Qed.

(** C4 (amended): with [scale_function = true], on a call that reaches
    its end, every output column is the pre-scaling downsampled vector
    [v] of the column divided entry by entry by [m = np.max(v)], the
    signed maximum; when [m] is finite and not zero, the output is
    exactly 1 wherever [v] attains [m], which it does; when moreover [m]
    is positive and no entry of [v] exceeds [m] in magnitude, the
    maximum absolute value of the output column is exactly 1. *)
Theorem convolve_hrf_scaled_by_maximum
  {libm : math_module} (stim : ndarray2 float)
  (tr_duration temporal_resolution : float) (hrf_type : hrf_arg)
  (s : Z) (h : list pynum) (hv : list float) :
  (1 <= shape1 stim <= shape0 stim)%nat ->
  Z.of_nat (shape0 stim) < int_exact_bound ->
  get_stride tr_duration temporal_resolution = Ok s ->
  1 <= s ->
  1 <= Z.of_nat (shape0 stim) / s ->
  get_hrf hrf_type temporal_resolution = Ok (Some h) ->
  np.asarray h = Ok hv -> hv <> [] ->
  exists out,
    convolve_hrf stim tr_duration hrf_type true temporal_resolution
      = Ok out /\
    forall c, (c < shape1 stim)%nat ->
      exists v m,
        signal_vox_of stim s (Z.of_nat (shape0 stim) / s) (Some h) c = Ok v /\
        List.length v = shape0 out /\
        np.max v = Ok m /\
        (forall k, (k < shape0 out)%nat ->
           item out k c = (nth k v 0 / m)%float) /\
        (finite_nonzero m ->
           (exists k, (k < shape0 out)%nat /\ nth k v 0%float = m) /\
           forall k, (k < shape0 out)%nat -> nth k v 0%float = m ->
             item out k c = 1%float) /\
        ((0 <? m)%float = true -> finite_nonzero m ->
         (forall k, (k < shape0 out)%nat ->
            (abs (nth k v 0) <=? m)%float = true) ->
         np.max (map abs (np.column out c)) = Ok 1%float).
Proof.
  intros Hshape HR Hstride Hs Hd Hhrf Hh Hhv.
  destruct (convolve_hrf_scaled_float64 stim tr_duration temporal_resolution
              hrf_type s h hv) as (out & Hout & H0 & H1 & Hcols);
    try assumption.
  exists out. split; [exact Hout|]. intros c Hc.
  destruct (Hcols c Hc) as (v & Hv & Hlen & _ & Hitem).
  assert (Hne : v <> []).
  { intros ->. simpl in Hlen. lia. }
  destruct v as [|x v'] eqn:E; [contradiction|]. rewrite <- E in *.
  assert (Hm : np.max v = Ok (fold_left float64_maximum v' x))
    by (rewrite E; reflexivity).
  exists v, (fold_left float64_maximum v' x).
  split; [exact Hv|]. split; [exact Hlen|]. split; [exact Hm|].
  assert (Hdiv : forall k, (k < shape0 out)%nat ->
            item out k c
            = (nth k v 0 / fold_left float64_maximum v' x)%float).
  { intros k Hk. rewrite Hitem.
    apply float64_scaled_nth; [exact Hm | lia]. }
  split; [exact Hdiv|]. split.
  - intros Hfin. split.
    + destruct (max_attained v _ Hm) as (k & Hk & Hnth).
      exists k. split; [lia | exact Hnth].
    + intros k Hk Hnth. rewrite Hdiv by assumption. rewrite Hnth.
      apply div_self. assumption.
  - intros Hpos Hfin Hbound. apply max_abs_one.
    + unfold np.column. apply Forall_map, Forall_forall.
      intros k Hk. apply in_seq in Hk. rewrite Hdiv by lia.
      apply div_abs_le_one; [exact Hpos | exact Hfin | apply Hbound; lia].
    + destruct (max_attained v _ Hm) as (k & Hk & Hnth).
      unfold np.column. apply in_map_iff. exists k. split.
      * rewrite Hdiv by lia. rewrite Hnth. apply div_self. exact Hfin.
      * apply in_seq. lia.
Qed.

(** C8 (amended): with [scale_function = true], on a call that reaches
    its end (at least one row per column, a stride that fits at least
    once, a non-empty HRF), a column of zeros does not raise: its output
    column holds NaN in every row, and every output column is its own
    pre-scaling vector divided by its own maximum. *)
Theorem convolve_hrf_zero_column_is_nan
  {libm : math_module} (stim : ndarray2 float)
  (tr_duration temporal_resolution : float) (hrf_type : hrf_arg)
  (s : Z) (h : list pynum) (hv : list float) (c0 : nat) :
  (1 <= shape1 stim <= shape0 stim)%nat ->
  Z.of_nat (shape0 stim) < int_exact_bound ->
  get_stride tr_duration temporal_resolution = Ok s ->
  1 <= s ->
  1 <= Z.of_nat (shape0 stim) / s ->
  get_hrf hrf_type temporal_resolution = Ok (Some h) ->
  np.asarray h = Ok hv -> hv <> [] ->
  (c0 < shape1 stim)%nat ->
  (forall i, (i < shape0 stim)%nat -> (item stim i c0 =? 0)%float = true) ->
  exists out,
    convolve_hrf stim tr_duration hrf_type true temporal_resolution
      = Ok out /\
    Z.of_nat (shape0 out) = Z.of_nat (shape0 stim) / s /\
    shape1 out = shape1 stim /\
    (forall k, (k < shape0 out)%nat -> item out k c0 = nan) /\
    forall c, (c < shape1 stim)%nat ->
      exists v m,
        signal_vox_of stim s (Z.of_nat (shape0 stim) / s) (Some h) c = Ok v /\
        np.max v = Ok m /\
        forall k, (k < shape0 out)%nat ->
          item out k c = (nth k v 0 / m)%float.
Proof.
  intros Hshape HR Hstride Hs Hd Hhrf Hh Hhv Hc0 Hzero.
  destruct (convolve_hrf_scaled_float64 stim tr_duration temporal_resolution
              hrf_type s h hv) as (out & Hout & H0 & H1 & Hcols);
    try assumption.
  exists out. split; [exact Hout|]. split; [exact H0|]. split; [exact H1|].
  split.
  - intros k Hk.
    destruct (Hcols c0 Hc0) as (v & _ & Hlen & Hzn & Hitem).
    rewrite Hitem. apply float64_scaled_zero_or_nan; [|lia].
    apply Hzn, column_zero_or_nan, Hzero.
  - intros c Hc.
    destruct (Hcols c Hc) as (v & Hv & Hlen & _ & Hitem).
    destruct v as [|x v'] eqn:E; [simpl in Hlen; lia|]. rewrite <- E in *.
    assert (Hm : np.max v = Ok (fold_left float64_maximum v' x))
      by (rewrite E; reflexivity).
    exists v, (fold_left float64_maximum v' x).
    split; [exact Hv|]. split; [exact Hm|].
    intros k Hk. rewrite Hitem. apply float64_scaled_nth; [exact Hm | lia].
Qed.

(** ** binary64: multiplication by a power of two *)

Lemma fexp_max (x : Z) : fexp prec emax x = Z.max (x - 53) (-1074).
Proof. unfold fexp, SpecFloat.emin, prec, emax. lia. Qed.

Lemma shr_nonpos (mrs : shr_record) (e n : Z) :
  n <= 0 -> shr mrs e n = (mrs, e).
Proof. intros H. destruct n; try reflexivity. lia. Qed.

Lemma shr_add_exp (mrs : shr_record) (e k n : Z) :
  shr mrs (e + k) n = (fst (shr mrs e n), snd (shr mrs e n) + k).
Proof. destruct n; cbn [shr fst snd]; f_equal; lia. Qed.

Lemma Zdigits2_unique (z n : Z) :
  2 ^ (n - 1) <= z < 2 ^ n -> 0 < z -> Zdigits2 z = n.
Proof.
  intros H Hz. destruct z as [|p|p]; try lia.
  cbn [Zdigits2]. apply digits2_pos_unique. exact H.
Qed.

Lemma pow2_pos (n : Z) : 0 <= n -> 0 < 2 ^ n.
Proof. intros. apply Z.pow_pos_nonneg; lia. Qed.

(** A quotient by [2^n] of a number of [d] digits has at most [d - n]. *)
Lemma div_pow2_lt (z d n : Z) :
  0 <= n -> n <= d -> 0 <= z < 2 ^ d -> z / 2 ^ n < 2 ^ (d - n).
Proof.
  intros Hn Hd Hz. apply Z.div_lt_upper_bound; [apply pow2_pos; lia|].
  rewrite <- Z.pow_add_r by lia. replace (n + (d - n)) with d by lia. lia.
Qed.

Lemma div_pow2_ge (z d n : Z) :
  0 <= n -> n + 1 <= d -> 2 ^ (d - 1) <= z -> 2 ^ (d - 1 - n) <= z / 2 ^ n.
Proof.
  intros Hn Hd Hz. apply Z.div_le_lower_bound; [apply pow2_pos; lia|].
  rewrite <- Z.pow_add_r by lia. replace (n + (d - 1 - n)) with (d - 1) by lia.
  lia.
Qed.

(** The rounding of [m * 2^e] to a normal number above the lowest binade
    does not depend on the exponent: at [e + k] the same significand comes
    out, with an exponent [k] higher, as long as this stays in the same
    range. *)
Lemma binary_round_aux_shift (s s' : bool) (p M : positive) (e E k : Z) :
  binary_round_aux prec emax s (Zpos p) e loc_Exact = S754_finite s' M E ->
  Zpos (digits2_pos M) = 53 ->
  -1073 <= E -> -1073 <= E + k <= 971 ->
  binary_round_aux prec emax s (Zpos p) (e + k) loc_Exact
  = S754_finite s' M (E + k) /\
  -1074 <= Zpos (digits2_pos p) + e - 53 /\
  E <= Zpos (digits2_pos p) + e - 52.
Proof.
  intros Hres HM HE HEk.
  unfold binary_round_aux in *. unfold shr_fexp in *.
  cbn [Zdigits2] in *. set (d := Zpos (digits2_pos p)) in *.
  pose proof (digits2_pos_bounds p) as Hp. fold d in Hp.
  pose proof (digits2_pos_bounds M) as HMb. rewrite HM in HMb.
  assert (Hd : 1 <= d) by (unfold d; lia).
  rewrite !fexp_max in *.
  rewrite (shr_add_exp _ e k).
  set (n1 := Z.max (d + e - 53) (-1074) - e) in *.
  destruct (shr_spec (shr_record_of_loc (Zpos p) loc_Exact) e n1)
    as (mrs & Hshr & Hm & Hex); [cbn; lia|].
  cbn [shr_record_of_loc shr_m] in Hm.
  rewrite Hshr in Hres. rewrite fexp_max in Hres.
  set (M1 := round_nearest_even (shr_m mrs) (loc_of_shr_record mrs)) in *.
  set (e1 := e + Z.max 0 n1) in *.
  assert (Hm0 : 0 <= shr_m mrs)
    by (rewrite Hm; apply Z.div_pos; [lia | apply pow2_pos; lia]).
  pose proof (rne_range (shr_m mrs) (loc_of_shr_record mrs)) as HM1.
  fold M1 in HM1.
  set (d1 := Zdigits2 M1) in *.
  set (n2 := Z.max (d1 + e1 - 53) (-1074) - e1) in *.
  destruct (shr_spec (shr_record_of_loc M1 loc_Exact) e1 n2)
    as (mrs2 & Hshr2 & Hm2 & _); [cbn; lia|].
  cbn [shr_record_of_loc shr_m] in Hm2.
  rewrite Hshr2 in Hres.
  destruct (shr_m mrs2) as [|M'|M'] eqn:EM; try discriminate.
  destruct (e1 + Z.max 0 n2 <=? emax - prec) eqn:Ele; try discriminate.
  injection Hres as -> -> HEeq.
  destruct (Zdigits2_bounds M1 ltac:(lia)) as (Hd1 & Hd1hi & Hd1lo).
  fold d1 in Hd1, Hd1hi, Hd1lo.
  (* the second shift is by [d1 - 53] places *)
  assert (H3 : -1074 <= d1 + e1 - 53).
  { destruct (Z_lt_le_dec (d1 + e1 - 53) (-1074)) as [Hlt|]; [|lia]. exfalso.
    assert (Hn2 : n2 = -1074 - e1) by (unfold n2; lia).
    assert (He1 : -1073 <= e1) by lia.
    assert (Hz : Z.max 0 n2 = 0) by lia.
    rewrite Hz, Z.pow_0_r, Z.div_1_r in Hm2.
    assert (d1 = 53).
    { unfold d1. apply Zdigits2_unique; [|lia].
      rewrite <- Hm2. exact HMb. }
    lia. }
  assert (Hn2 : n2 = d1 - 53) by (unfold n2; lia).
  (* and so is the first, by [d - 53] places *)
  assert (H1 : -1074 <= d + e - 53).
  { destruct (Z_lt_le_dec (d + e - 53) (-1074)) as [Hlt|]; [|lia]. exfalso.
    assert (Hn1 : n1 = -1074 - e) by (unfold n1; lia).
    destruct (Z_le_gt_dec n1 0) as [Hle|Hgt].
    - rewrite shr_nonpos in Hshr by exact Hle.
      injection Hshr as <-. cbn in M1. cbn in d1. fold d in d1.
      unfold e1 in *. lia.
    - assert (He1 : e1 = -1074) by (unfold e1; lia).
      assert (Hlt52 : shr_m mrs < 2 ^ 52).
      { rewrite Hm, Z.max_r by lia.
        assert (X : Zpos p / 2 ^ n1 < 2 ^ (52 + n1 - n1)).
        { apply div_pow2_lt; [lia | lia |].
          split; [lia|].
          assert (2 ^ d <= 2 ^ (52 + n1)) by (apply Z.pow_le_mono_r; lia).
          lia. }
        replace (52 + n1 - n1) with 52 in X by lia. exact X. }
      assert (d1 <= 53) by (apply (Zdigits2_le M1 52); lia).
      assert (d1 = 53) by lia.
      lia. }
  assert (Hn1 : n1 = d - 53) by (unfold n1; lia).
  (* the significand has at least 53 digits *)
  assert (Hd53 : 53 <= d).
  { destruct (Z_lt_le_dec d 53) as [Hlt|]; [|lia]. exfalso.
    rewrite shr_nonpos in Hshr by lia.
    injection Hshr as <-. cbn in M1. cbn in d1. fold d in d1.
    assert (Hz : Z.max 0 n2 = 0) by lia.
    rewrite Hz, Z.pow_0_r, Z.div_1_r in Hm2.
    unfold M1 in Hm2. injection Hm2 as Hm2. subst M. fold d in HM. lia. }
  assert (Hd1le : d1 <= 54).
  { apply (Zdigits2_le M1 53); [lia | lia |].
    assert (X : shr_m mrs < 2 ^ (d - (d - 53))).
    { rewrite Hm, Z.max_r, Hn1 by lia. apply div_pow2_lt; lia. }
    replace (d - (d - 53)) with 53 in X by lia. lia. }
  assert (Hd1ge : 53 <= d1).
  { destruct (Z_lt_le_dec d1 53) as [Hlt|]; [|lia]. exfalso.
    assert (Hz : Z.max 0 n2 = 0) by lia.
    rewrite Hz, Z.pow_0_r, Z.div_1_r in Hm2.
    assert (d1 = 53).
    { unfold d1. apply Zdigits2_unique; [|lia].
      rewrite <- Hm2. exact HMb. }
    lia. }
  split; [|unfold e1 in *; lia].
  (* the run at [e + k] *)
  replace (Z.max (d + (e + k) - 53) (-1074) - (e + k)) with n1
    by (unfold e1 in *; lia).
  rewrite Hshr. cbn [fst snd]. fold M1. fold d1. rewrite fexp_max.
  rewrite (shr_add_exp _ e1 k).
  replace (Z.max (d1 + (e1 + k) - 53) (-1074) - (e1 + k)) with n2 by lia.
  rewrite Hshr2. cbn [fst snd]. rewrite EM.
  replace (e1 + Z.max 0 n2 + k <=? emax - prec) with true
    by (symmetry; apply Z.leb_le; unfold emax, prec; lia).
  rewrite HEeq. reflexivity.
Qed.

Lemma exact_record_of_loc (m : Z) :
  exact_record (shr_record_of_loc m loc_Exact).
Proof. split; reflexivity. Qed.

(** The product of [2^52 * 2^(k - 52)] and a normal number [m * 2^e]. *)
Lemma binary_round_aux_pow2 (s : bool) (P m : positive) (e k : Z) :
  Zpos P = 2 ^ 52 ->
  Zpos (digits2_pos m) = 53 ->
  -1074 <= e + k <= 971 ->
  binary_round_aux prec emax s (Zpos (P * m)) (k - 52 + e) loc_Exact
  = S754_finite s m (e + k).
Proof.
  intros HP Hm Hek.
  pose proof (digits2_pos_bounds m) as Hmb. rewrite Hm in Hmb.
  assert (Hprod : Zpos (P * m) = 2 ^ 52 * Zpos m)
    by (rewrite Pos2Z.inj_mul, HP; reflexivity).
  assert (H52 : 0 < 2 ^ 52) by (apply pow2_pos; lia).
  assert (Hd : Zdigits2 (Zpos (P * m)) = 105).
  { apply Zdigits2_unique; [|lia]. rewrite Hprod.
    replace (105 - 1) with (52 + (53 - 1)) by lia.
    replace 105 with (52 + 53) at 2 by lia.
    rewrite !Z.pow_add_r by lia. nia. }
  unfold binary_round_aux, shr_fexp. rewrite Hd, fexp_max.
  replace (Z.max (105 + (k - 52 + e) - 53) (-1074) - (k - 52 + e)) with 52
    by lia.
  destruct (shr_spec (shr_record_of_loc (Zpos (P * m)) loc_Exact)
              (k - 52 + e) 52) as (mrs & Hshr & Hsm & Hex);
    [cbn [shr_record_of_loc shr_m]; lia|].
  rewrite Hshr. cbn [shr_record_of_loc shr_m] in Hsm, Hex.
  replace (Z.max 0 52) with 52 in * by lia.
  rewrite Hprod in Hsm, Hex.
  rewrite Z.mul_comm, Z.div_mul in Hsm by lia.
  rewrite Z.mul_comm, Z.mod_mul in Hex by lia.
  specialize (Hex (exact_record_of_loc _) eq_refl).
  rewrite (round_exact_record mrs Hex), Hsm.
  cbn [Zdigits2]. rewrite Hm, fexp_max.
  rewrite shr_nonpos by lia. cbn [shr_record_of_loc shr_m].
  replace (k - 52 + e + 52 <=? emax - prec) with true
    by (symmetry; apply Z.leb_le; unfold emax, prec; lia).
  f_equal. lia.
Qed.

(** What [shr_fexp] leaves of a positive integer at an exponent that is
    not below the least one is positive. *)
Lemma shr_fexp_pos (z e : Z) (l : location) :
  0 < z -> -1074 <= e ->
  exists mrs e1,
    shr_fexp prec emax z e l = (mrs, e1) /\ 0 < shr_m mrs /\ -1074 <= e1.
Proof.
  intros Hz He. unfold shr_fexp. rewrite fexp_max.
  destruct (Zdigits2_bounds z ltac:(lia)) as (Hd & Hhi & Hlo).
  specialize (Hlo Hz). set (d := Zdigits2 z) in *.
  destruct (shr_spec (shr_record_of_loc z l) e
              (Z.max (d + e - 53) (-1074) - e))
    as (mrs & Hshr & Hm & _); [rewrite shr_m_of_loc; lia|].
  rewrite shr_m_of_loc in Hm.
  exists mrs, (e + Z.max 0 (Z.max (d + e - 53) (-1074) - e)).
  split; [exact Hshr|]. split; [|lia].
  rewrite Hm.
  destruct (Z_le_gt_dec d 53) as [Hle|Hgt].
  - replace (Z.max 0 (Z.max (d + e - 53) (-1074) - e)) with 0 by lia.
    rewrite Z.pow_0_r, Z.div_1_r. exact Hz.
  - replace (Z.max 0 (Z.max (d + e - 53) (-1074) - e)) with (d - 53) by lia.
    assert (X : 2 ^ (d - 1 - (d - 53)) <= z / 2 ^ (d - 53))
      by (apply div_pow2_ge; lia).
    assert (0 < 2 ^ (d - 1 - (d - 53))) by (apply pow2_pos; lia).
    lia.
Qed.

Lemma binary_round_aux_nonzero (s s' : bool) (m : positive) (e : Z) :
  -1074 <= e ->
  binary_round_aux prec emax s (Zpos m) e loc_Exact <> S754_zero s'.
Proof.
  intros He. unfold binary_round_aux.
  destruct (shr_fexp_pos (Zpos m) e loc_Exact ltac:(lia) He)
    as (mrs & e1 & -> & Hm & He1).
  pose proof (rne_range (shr_m mrs) (loc_of_shr_record mrs)) as HM1.
  destruct (shr_fexp_pos
              (round_nearest_even (shr_m mrs) (loc_of_shr_record mrs))
              e1 loc_Exact ltac:(lia) He1)
    as (mrs2 & e2 & -> & Hm2 & He2).
  destruct (shr_m mrs2); try lia.
  destruct (e2 <=? emax - prec); discriminate.
Qed.

Lemma iter_xO_digits (m d : positive) :
  Zpos (digits2_pos (Pos.iter xO m d)) = Zpos (digits2_pos m) + Zpos d.
Proof.
  induction d as [|d IH] using Pos.peano_ind.
  - cbn. lia.
  - rewrite Pos.iter_succ. cbn [digits2_pos]. lia.
Qed.

(** Aligning a significand to a lower exponent keeps the sum of its
    number of digits and of its exponent. *)
Lemma shl_align_digits (m : positive) (e e' : Z) :
  Zpos (digits2_pos (fst (shl_align m e e'))) + snd (shl_align m e e')
  = Zpos (digits2_pos m) + e /\
  snd (shl_align m e e') = Z.min e e'.
Proof.
  unfold shl_align. destruct (e' - e) as [|d|d] eqn:E; cbn [fst snd].
  - lia.
  - lia.
  - rewrite iter_xO_digits. lia.
Qed.

Lemma shl_align_shift (m : positive) (e e' k : Z) :
  shl_align m (e + k) (e' + k)
  = (fst (shl_align m e e'), snd (shl_align m e e') + k).
Proof.
  unfold shl_align. replace (e' + k - (e + k)) with (e' - e) by lia.
  destruct (e' - e); reflexivity.
Qed.

Lemma binary_round_nonzero (s s' : bool) (m : positive) (e : Z) :
  -1074 <= e -> binary_round prec emax s m e <> S754_zero s'.
Proof.
  intros He. unfold binary_round.
  pose proof (shl_align_digits m e
                (fexp prec emax (Zpos (digits2_pos m) + e))) as [_ Hs].
  destruct (shl_align m e (fexp prec emax (Zpos (digits2_pos m) + e)))
    as [mz ez]. cbn [snd] in Hs.
  apply binary_round_aux_nonzero. rewrite fexp_max in Hs. lia.
Qed.

Lemma binary_round_shift (s s' : bool) (m M : positive) (e E k : Z) :
  binary_round prec emax s m e = S754_finite s' M E ->
  Zpos (digits2_pos M) = 53 ->
  -1073 <= E -> -1073 <= E + k <= 971 ->
  binary_round prec emax s m (e + k) = S754_finite s' M (E + k).
Proof.
  intros Hres HM HE HEk. unfold binary_round in *.
  rewrite fexp_max in *.
  set (d := Zpos (digits2_pos m)) in *.
  pose proof (shl_align_digits m e (Z.max (d + e - 53) (-1074))) as [Hd Hs].
  destruct (shl_align m e (Z.max (d + e - 53) (-1074))) as [mz ez] eqn:Hal.
  cbn [fst snd] in Hd, Hs.
  destruct (binary_round_aux_shift s s' mz M ez E k Hres HM HE HEk)
    as (Hk & Hlo & Hhi).
  replace (Z.max (d + (e + k) - 53) (-1074))
    with (Z.max (d + e - 53) (-1074) + k) by lia.
  rewrite shl_align_shift, Hal. cbn [fst snd]. exact Hk.
Qed.

Lemma scalable_cases (k : Z) (x : float) :
  scalable k x = true ->
  (exists s, Prim2SF x = S754_zero s) \/
  (exists s m e, Prim2SF x = S754_finite s m e /\
                 Zpos (digits2_pos m) = 53 /\
                 -1073 <= e /\ -1073 <= e + k <= 971).
Proof.
  unfold scalable. destruct (Prim2SF x) as [s|s| |s m e]; try discriminate.
  - eauto.
  - rewrite !andb_true_iff, Z.eqb_eq, !Z.leb_le. intros H. right.
    exists s, m, e. split; [reflexivity|]. lia.
Qed.

Lemma fold_left_map_terms {X Y Z : Type} (f : X -> Z -> X) (g : Y -> Z)
  (l : list Y) (x : X) :
  fold_left f (map g l) x = fold_left (fun acc j => f acc (g j)) l x.
Proof.
  revert x. induction l as [|j l IH]; intros x; simpl; [reflexivity|].
  apply IH.
Qed.

Lemma conv_at_terms {A : Type} {D : dtype A} (a v : list A) (n : nat) :
  np.conv_at a v n =
  fold_left (fun acc pq => dadd acc (dmul (fst pq) (snd pq)))
            (conv_terms a v n) dzero.
Proof.
  unfold np.conv_at, conv_terms. rewrite fold_left_map_terms. reflexivity.
Qed.

Lemma SFmul_comm (x y : spec_float) :
  SFmul prec emax x y = SFmul prec emax y x.
Proof.
  destruct x as [sx|sx| |sx mx ex], y as [sy|sy| |sy my ey]; cbn [SFmul];
    rewrite ?(xorb_comm sx sy); try reflexivity.
  rewrite (Pos.mul_comm mx my), (Z.add_comm ex ey). reflexivity.
Qed.

Lemma mul_comm (x y : float) : (x * y = y * x)%float.
Proof.
  apply Prim2SF_inj. rewrite !mul_spec. apply SFmul_comm.
Qed.

Section PowerOfTwo.

Variables (k : Z) (a : float).
Hypothesis Ha : power_of_two k a.

Lemma scale_zero (x : float) (s : bool) :
  Prim2SF x = S754_zero s -> (a * x)%float = x.
Proof.
  intros Hx. apply Prim2SF_inj. rewrite mul_spec, Ha, Hx. reflexivity.
Qed.

Lemma scale_normal (x : float) (s : bool) (m : positive) (e : Z) :
  Prim2SF x = S754_finite s m e ->
  Zpos (digits2_pos m) = 53 -> -1074 <= e + k <= 971 ->
  Prim2SF (a * x) = S754_finite s m (e + k).
Proof.
  intros Hx Hm He. rewrite mul_spec, Ha, Hx. unfold SF64mul.
  cbn [SFmul xorb].
  apply binary_round_aux_pow2; [symmetry; exact two_52 | exact Hm | exact He].
Qed.

(** Scaling one factor scales the product. *)
Lemma mul_scaled (p q : float) :
  scalable k p = true -> scalable k (p * q) = true ->
  (is_signed_zero (p * q) = true ->
   is_signed_zero p || is_signed_zero q = true) ->
  ((a * p) * q = a * (p * q) /\ q * (a * p) = a * (q * p))%float.
Proof.
  intros Hp Hpq Hz.
  destruct (scalable_cases k p Hp)
    as [[sp Ep]|(sp & mp & ep & Ep & Dp & Lp & Rp)].
  - rewrite (scale_zero p sp Ep).
    assert (Hzero : forall r s, Prim2SF r = S754_zero s ->
                      (a * r)%float = r) by (intros; eapply scale_zero; eauto).
    destruct (scalable_cases k (p * q)%float Hpq)
      as [[s E]|(s & m & e & E & _)].
    + split; [symmetry; eapply Hzero; exact E|].
      assert (E' : exists s', Prim2SF (q * p) = S754_zero s').
      { rewrite mul_spec in *. rewrite Ep in *. unfold SF64mul in *.
        destruct (Prim2SF q); cbn [SFmul] in *; try discriminate; eauto. }
      destruct E' as [s' E']. symmetry. eapply Hzero. exact E'.
    + exfalso. rewrite mul_spec, Ep in E. unfold SF64mul in E.
      destruct (Prim2SF q); cbn [SFmul] in E; discriminate.
  - pose proof (scale_normal p sp mp ep Ep Dp ltac:(lia)) as Eap.
    destruct (Prim2SF q) as [sq|sq| |sq mq eq] eqn:Eq.
    + (* q is a zero *)
      assert (E1 : Prim2SF (p * q) = S754_zero (xorb sp sq))
        by (rewrite mul_spec, Ep, Eq; reflexivity).
      assert (E2 : Prim2SF (q * p) = S754_zero (xorb sq sp))
        by (rewrite mul_spec, Ep, Eq; reflexivity).
      rewrite (scale_zero _ _ E1), (scale_zero _ _ E2).
      split; apply Prim2SF_inj.
      * rewrite E1, mul_spec, Eap, Eq. reflexivity.
      * rewrite E2, mul_spec, Eap, Eq. reflexivity.
    + exfalso. unfold scalable in Hpq.
      rewrite mul_spec, Ep, Eq in Hpq. discriminate.
    + exfalso. unfold scalable in Hpq.
      rewrite mul_spec, Ep, Eq in Hpq. discriminate.
    + (* both finite *)
      assert (Epq : Prim2SF (p * q) =
                    binary_round_aux prec emax (xorb sp sq)
                      (Zpos (mp * mq)) (ep + eq) loc_Exact)
        by (rewrite mul_spec, Ep, Eq; reflexivity).
      assert (Eqp : Prim2SF (q * p) = Prim2SF (p * q)).
      { rewrite !mul_spec, Ep, Eq. unfold SF64mul. cbn [SFmul].
        rewrite Pos.mul_comm, Z.add_comm, xorb_comm. reflexivity. }
      destruct (scalable_cases k (p * q)%float Hpq)
        as [[s E]|(s & m & e & E & Dm & Lm & Rm)].
      * exfalso. unfold is_signed_zero in Hz. rewrite E, Ep, Eq in Hz.
        specialize (Hz eq_refl). discriminate.
      * rewrite Epq in E.
        destruct (binary_round_aux_shift _ _ _ _ _ _ k E Dm Lm Rm)
          as (Hk & _).
        pose proof E as E'. rewrite <- Epq in E'.
        pose proof (scale_normal (p * q)%float s m e E' Dm ltac:(lia))
          as Hs.
        assert (Hs' : Prim2SF (a * (q * p)) = S754_finite s m (e + k)).
        { apply scale_normal; [rewrite Eqp; exact E' | exact Dm | lia]. }
        split; apply Prim2SF_inj.
        -- rewrite Hs, mul_spec, Eap, Eq. unfold SF64mul. cbn [SFmul].
           replace (ep + k + eq) with (ep + eq + k) by lia. exact Hk.
        -- rewrite Hs', mul_spec, Eap, Eq. unfold SF64mul. cbn [SFmul].
           rewrite Pos.mul_comm, xorb_comm.
           replace (eq + (ep + k)) with (ep + eq + k) by lia. exact Hk.
Qed.

(** Scaling both terms scales the sum. *)
Lemma add_scaled (x y : float) :
  scalable k x = true -> scalable k y = true ->
  scalable k (x + y) = true ->
  (a * x + a * y = a * (x + y))%float.
Proof.
  intros Hx Hy Hxy.
  destruct (scalable_cases k x Hx)
    as [[sx Ex]|(sx & mx & ex & Ex & Dx & Lx & Rx)];
  destruct (scalable_cases k y Hy)
    as [[sy Ey]|(sy & my & ey & Ey & Dy & Ly & Ry)].
  - rewrite (scale_zero x sx Ex), (scale_zero y sy Ey).
    assert (E : exists s, Prim2SF (x + y) = S754_zero s).
    { rewrite add_spec, Ex, Ey. unfold SF64add. cbn [SFadd].
      destruct sx, sy; eauto. }
    destruct E as [s E]. symmetry. eapply scale_zero. exact E.
  - rewrite (scale_zero x sx Ex).
    pose proof (scale_normal y sy my ey Ey Dy ltac:(lia)) as Eay.
    assert (E : (x + y)%float = y).
    { apply Prim2SF_inj. rewrite add_spec, Ex, Ey. reflexivity. }
    rewrite E. apply Prim2SF_inj. rewrite add_spec, Ex, Eay. reflexivity.
  - rewrite (scale_zero y sy Ey).
    pose proof (scale_normal x sx mx ex Ex Dx ltac:(lia)) as Eax.
    assert (E : (x + y)%float = x).
    { apply Prim2SF_inj. rewrite add_spec, Ex, Ey. reflexivity. }
    rewrite E. apply Prim2SF_inj. rewrite add_spec, Eax, Ey. reflexivity.
  - pose proof (scale_normal x sx mx ex Ex Dx ltac:(lia)) as Eax.
    pose proof (scale_normal y sy my ey Ey Dy ltac:(lia)) as Eay.
    apply Prim2SF_inj. rewrite add_spec, Eax, Eay.
    unfold SF64add. cbn [SFadd].
    assert (Exy : Prim2SF (x + y) =
              binary_normalize prec emax
                (cond_Zopp sx (Zpos (fst (shl_align mx ex (Z.min ex ey)))) +
                 cond_Zopp sy (Zpos (fst (shl_align my ey (Z.min ex ey)))))
                (Z.min ex ey) false)
      by (rewrite add_spec, Ex, Ey; reflexivity).
    replace (Z.min (ex + k) (ey + k)) with (Z.min ex ey + k) by lia.
    rewrite !shl_align_shift. cbn [fst].
    set (z := cond_Zopp sx (Zpos (fst (shl_align mx ex (Z.min ex ey)))) +
              cond_Zopp sy (Zpos (fst (shl_align my ey (Z.min ex ey)))))
      in *.
    destruct (scalable_cases k (x + y)%float Hxy)
      as [[s E]|(s & m & e & E & Dm & Lm & Rm)].
    + rewrite (scale_zero _ s E). rewrite E.
      rewrite Exy in E. unfold binary_normalize in *.
      destruct z as [|pz|pz].
      * exact E.
      * exfalso. apply (binary_round_nonzero false s pz (Z.min ex ey));
          [lia | exact E].
      * exfalso. apply (binary_round_nonzero true s pz (Z.min ex ey));
          [lia | exact E].
    + rewrite (scale_normal _ s m e E Dm ltac:(lia)).
      rewrite Exy in E. unfold binary_normalize in *.
      destruct z as [|pz|pz].
      * discriminate E.
      * apply binary_round_shift; assumption.
      * apply binary_round_shift; assumption.
Qed.


Lemma scale_0 : (a * 0 = 0)%float.
Proof. apply (scale_zero 0%float false). reflexivity. Qed.

Lemma product_scalable_spec (p q : float) :
  product_scalable k p q = true ->
  ((a * p) * q = a * (p * q) /\ p * (a * q) = a * (p * q))%float /\
  scalable k (p * q) = true.
Proof.
  unfold product_scalable. rewrite !andb_true_iff.
  intros (((Hp & Hq) & Hpq) & Hz).
  split; [|exact Hpq]. split.
  - apply (mul_scaled p q Hp Hpq).
    intros Hzero. rewrite Hzero in Hz. cbn [negb orb] in Hz. exact Hz.
  - apply (mul_scaled q p Hq).
    + rewrite (mul_comm q p). exact Hpq.
    + rewrite (mul_comm q p). intros Hzero. rewrite Hzero in Hz.
      cbn [negb orb] in Hz. rewrite orb_comm. exact Hz.
Qed.

Lemma fold_scaled (terms : list (float * float)) : forall acc,
  scalable k acc = true ->
  sum_scalable k terms acc = true ->
  fold_left (fun acc pq => acc + (a * fst pq) * snd pq)%float terms
            (a * acc)%float
  = (a * fold_left (fun acc pq => acc + fst pq * snd pq) terms acc)%float /\
  fold_left (fun acc pq => acc + fst pq * (a * snd pq))%float terms
            (a * acc)%float
  = (a * fold_left (fun acc pq => acc + fst pq * snd pq) terms acc)%float.
Proof.
  induction terms as [|[p q] terms IH]; intros acc Hacc H.
  - split; reflexivity.
  - cbn [sum_scalable] in H. rewrite !andb_true_iff in H.
    destruct H as ((Hpq & Hsum) & Hrest).
    destruct (product_scalable_spec p q Hpq) as ((Hl & Hr) & Hprod).
    cbn [fold_left fst snd].
    rewrite Hl, Hr, (add_scaled acc (p * q)%float Hacc Hprod Hsum).
    apply IH; assumption.
Qed.

Lemma nth_map_scaled (l : list float) (j : nat) :
  nth j (map (PrimFloat.mul a) l) 0%float = (a * nth j l 0)%float.
Proof. rewrite <- scale_0 at 1. apply map_nth. Qed.

Lemma conv_terms_scaled_l (x v : list float) (n : nat) :
  conv_terms (map (PrimFloat.mul a) x) v n
  = map (fun pq => ((a * fst pq)%float, snd pq)) (conv_terms x v n).
Proof.
  unfold conv_terms. rewrite length_map, map_map. apply map_ext.
  intros j. cbn [fst snd dzero float64]. rewrite nth_map_scaled. reflexivity.
Qed.

Lemma conv_terms_scaled_r (x v : list float) (n : nat) :
  conv_terms v (map (PrimFloat.mul a) x) n
  = map (fun pq => (fst pq, (a * snd pq)%float)) (conv_terms v x n).
Proof.
  unfold conv_terms. rewrite length_map, map_map. apply map_ext.
  intros j. cbn [fst snd dzero float64]. rewrite nth_map_scaled. reflexivity.
Qed.

Lemma conv_at_scaled_l (x v : list float) (n : nat) :
  sum_scalable k (conv_terms x v n) 0 = true ->
  np.conv_at (map (PrimFloat.mul a) x) v n = (a * np.conv_at x v n)%float.
Proof.
  intros H. rewrite !conv_at_terms, conv_terms_scaled_l, fold_left_map_terms.
  cbn [fst snd dzero dadd dmul float64].
  rewrite <- scale_0 at 1. apply fold_scaled; [reflexivity | exact H].
Qed.

Lemma conv_at_scaled_r (x v : list float) (n : nat) :
  sum_scalable k (conv_terms v x n) 0 = true ->
  np.conv_at v (map (PrimFloat.mul a) x) n = (a * np.conv_at v x n)%float.
Proof.
  intros H. rewrite !conv_at_terms, conv_terms_scaled_r, fold_left_map_terms.
  cbn [fst snd dzero dadd dmul float64].
  rewrite <- scale_0 at 1. apply fold_scaled; [reflexivity | exact H].
Qed.

(** [np.convolve] of a scaled array. *)
Lemma convolve_arrays_scaled (x v : list float) :
  convolution_scalable k x v = true ->
  np.convolve_arrays (map (PrimFloat.mul a) x) v =
  fmap (map (PrimFloat.mul a)) (np.convolve_arrays x v).
Proof.
  unfold convolution_scalable, np.convolve_arrays. rewrite !length_map.
  destruct (List.length x <? List.length v)%nat; rewrite ?length_map;
    intros H; rewrite forallb_forall in H.
  - destruct (List.length v =? 0)%nat; [reflexivity|].
    destruct (List.length x =? 0)%nat; [reflexivity|].
    cbn [fmap]. f_equal. rewrite map_map. apply map_ext_in.
    intros n Hn. apply conv_at_scaled_r. apply H. exact Hn.
  - destruct (List.length x =? 0)%nat; [reflexivity|].
    destruct (List.length v =? 0)%nat; [reflexivity|].
    cbn [fmap]. f_equal. rewrite map_map. apply map_ext_in.
    intros n Hn. apply conv_at_scaled_l. apply H. exact Hn.
Qed.

End PowerOfTwo.

(** ** Scaling one input column *)

(** The loop over the columns, given that the scaling by [a] goes through
    the convolution of column [c0]. *)
Section ScaledColumn.

Context {libm : math_module} {A : Type} {D : dtype A}.

Variable a : A.
Hypothesis Hzero : dmul a dzero = dzero.

Lemma nth_map_scale (l : list A) (k : nat) :
  nth k (map (dmul a) l) dzero = dmul a (nth k l dzero).
Proof. rewrite <- Hzero at 1. apply map_nth. Qed.

Lemma slice_to_scale (y : list A) (stop : Z) :
  np.slice_to (map (dmul a) y) stop = map (dmul a) (np.slice_to y stop).
Proof.
  unfold np.slice_to. rewrite length_map. apply firstn_map.
Qed.

Lemma slice_from_step_scale (y : list A) (start step : Z) :
  np.slice_from_step (map (dmul a) y) start step =
  fmap (map (dmul a)) (np.slice_from_step y start step).
Proof.
  unfold np.slice_from_step. rewrite length_map.
  destruct (step =? 0); [reflexivity|].
  destruct (0 <? step); simpl; f_equal; rewrite map_map; apply map_ext;
    intros k; apply nth_map_scale.
Qed.

Variable stimfunction : ndarray2 A.
Variable c0 : nat.

Let scaled := scale_column stimfunction c0 a.

Lemma column_scale_column (c : nat) :
  np.column scaled c =
  if (c =? c0)%nat then map (dmul a) (np.column stimfunction c)
  else np.column stimfunction c.
Proof.
  unfold np.column, scaled, scale_column. cbn [shape0 item].
  destruct (c =? c0)%nat; [|reflexivity].
  rewrite map_map. reflexivity.
Qed.

Variable hrf : option (list pynum).

Hypothesis Hconv : forall h hv,
  local "hrf" hrf = Ok h -> np.asarray h = Ok hv ->
  np.convolve_arrays (map (dmul a) (np.column stimfunction c0)) hv =
  fmap (map (dmul a)) (np.convolve_arrays (np.column stimfunction c0) hv).

(** The pre-scaling vector of a column follows the column. *)
Lemma signal_vox_of_scale_column (s d : Z) (c : nat) :
  signal_vox_of scaled s d hrf c =
  if (c =? c0)%nat
  then fmap (map (dmul a)) (signal_vox_of stimfunction s d hrf c)
  else signal_vox_of stimfunction s d hrf c.
Proof.
  unfold signal_vox_of. rewrite column_scale_column.
  destruct (Nat.eqb_spec c c0) as [->|Hne]; [|reflexivity].
  destruct (local "hrf" hrf) as [v|] eqn:Ev; [|reflexivity]. cbn [bind].
  unfold np.convolve. destruct (np.asarray v) as [v'|] eqn:Ev';
    [|reflexivity].
  cbn [bind]. rewrite (Hconv v v' eq_refl Ev').
  destruct (np.convolve_arrays (np.column stimfunction c0) v') as [y|];
    [|reflexivity].
  cbn [bind fmap]. destruct (get_offset s) as [off|]; [|reflexivity].
  cbn [bind]. rewrite slice_to_scale. apply slice_from_step_scale.
Qed.

Lemma set_column_scaled (m m' m2 : ndarray2 A) (c : nat) (v : list A) :
  column_scaled a c0 m m' ->
  np.set_column m c v = Ok m2 ->
  exists m2',
    np.set_column m' c (if (c =? c0)%nat then map (dmul a) v else v)
      = Ok m2' /\
    column_scaled a c0 m2 m2'.
Proof.
  intros (H0 & H1 & Hitem). unfold np.set_column.
  assert (Hlen : List.length (if (c =? c0)%nat then map (dmul a) v else v)
                 = List.length v)
    by (destruct (c =? c0)%nat; [apply length_map | reflexivity]).
  rewrite Hlen, H0.
  assert (Hnth : forall k,
            nth k (if (c =? c0)%nat then map (dmul a) v else v) dzero
            = if (c =? c0)%nat then dmul a (nth k v dzero)
              else nth k v dzero)
    by (intros k; destruct (c =? c0)%nat;
        [apply nth_map_scale | reflexivity]).
  destruct (List.length v =? shape0 m)%nat.
  - intros H. injection H as <-. eexists. split; [reflexivity|].
    unfold column_scaled. cbn [shape0 shape1 item].
    split; [reflexivity || exact H0|]. split; [exact H1|].
    intros k j. destruct (Nat.eqb_spec j c) as [->|Hne].
    + apply Hnth.
    + apply Hitem.
  - destruct (List.length v =? 1)%nat; [|discriminate].
    intros H. injection H as <-. eexists. split; [reflexivity|].
    unfold column_scaled. cbn [shape0 shape1 item].
    split; [reflexivity || exact H0|]. split; [exact H1|].
    intros k j. destruct (Nat.eqb_spec j c) as [->|Hne].
    + apply Hnth.
    + apply Hitem.
Qed.

Variables (s d : Z).

Lemma column_body_scaled (c : nat) (st st' r : option (ndarray2 A)) :
  state_scaled a c0 st st' ->
  column_body stimfunction false s d hrf c st = Ok r ->
  exists r', column_body scaled false s d hrf c st' = Ok r' /\
             state_scaled a c0 r r'.
Proof.
  intros Hst H. unfold column_body in *.
  rewrite signal_vox_of_scale_column.
  bind_inv H. rename a0 into v. rewrite Ha.
  cbn [scale bind] in H.
  set (v' := if (c =? c0)%nat then map (dmul a) v else v).
  assert (Hv' : (if (c =? c0)%nat then fmap (map (dmul a)) (Ok v)
                 else Ok v) = Ok v')
    by (unfold v'; destruct (c =? c0)%nat; reflexivity).
  rewrite Hv'. cbn [scale bind].
  assert (Hlen : List.length v' = List.length v)
    by (unfold v'; destruct (c =? c0)%nat;
        [apply length_map | reflexivity]).
  rewrite Hlen.
  bind_inv H. rename a0 into m. bind_inv H. rename a0 into m2.
  injection H as <-.
  assert (Hm : exists m',
            local "signal_function"
              (if (c =? 0)%nat
               then Some (np.zeros (List.length v) (shape1 scaled))
               else st') = Ok m' /\ column_scaled a c0 m m').
  { destruct (c =? 0)%nat.
    - injection Ha0 as <-. eexists. split; [reflexivity|].
      split; [reflexivity|]. split; [reflexivity|].
      intros k j. cbn [np.zeros item]. rewrite Hzero.
      destruct (j =? c0)%nat; reflexivity.
    - destruct st as [m0|]; [|discriminate]. injection Ha0 as <-.
      destruct st' as [m0'|]; [|contradiction].
      exists m0'. split; [reflexivity | exact Hst]. }
  destruct Hm as (m' & -> & Hmm'). cbn [bind].
  destruct (set_column_scaled m m' m2 c v Hmm' Ha1) as (m2' & Hset & Hrel).
  fold v' in Hset. rewrite Hset. cbn [bind].
  eexists. split; [reflexivity | exact Hrel].
Qed.

Lemma column_loop_scaled (cs : list nat) (st st' r : option (ndarray2 A)) :
  state_scaled a c0 st st' ->
  for_each cs (column_body stimfunction false s d hrf) st = Ok r ->
  exists r', for_each cs (column_body scaled false s d hrf) st' = Ok r' /\
             state_scaled a c0 r r'.
Proof.
  revert st st'. induction cs as [|c cs IH]; intros st st' Hst H; simpl in *.
  - injection H as <-. eauto.
  - bind_inv H.
    destruct (column_body_scaled c st st' _ Hst Ha) as (r1 & -> & Hr1).
    cbn [bind]. eapply IH; eassumption.
Qed.

End ScaledColumn.

(** The whole call, under the same two conditions. *)
Lemma convolve_hrf_scaled_column
  {libm : math_module} {A : Type} {D : dtype A}
  (stim : ndarray2 A) (tr_duration temporal_resolution : float)
  (hrf_type : hrf_arg) (c0 : nat) (a : A) (out : ndarray2 A) :
  dmul a dzero = dzero ->
  (forall h hv,
     get_hrf hrf_type temporal_resolution = Ok (Some h) ->
     np.asarray h = Ok hv ->
     np.convolve_arrays (map (dmul a) (np.column stim c0)) hv =
     fmap (map (dmul a)) (np.convolve_arrays (np.column stim c0) hv)) ->
  convolve_hrf stim tr_duration hrf_type false temporal_resolution = Ok out ->
  exists out',
    convolve_hrf (scale_column stim c0 a) tr_duration hrf_type false
                 temporal_resolution = Ok out' /\
    column_scaled a c0 out out'.
Proof.
  intros Hzero Hconv H. unfold convolve_hrf in *.
  cbn [scale_column shape0 shape1].
  apply bind_Ok_inv in H. destruct H as (u & Hwarn & H).
  rewrite Hwarn. cbn [bind].
  apply bind_Ok_inv in H. destruct H as (s & Hs & H).
  rewrite Hs. cbn [bind].
  apply bind_Ok_inv in H. destruct H as (d & Hd & H).
  assert (Hd' : get_duration (scale_column stim c0 a) s = Ok d)
    by exact Hd.
  rewrite Hd'. cbn [bind].
  apply bind_Ok_inv in H. destruct H as (hrf & Hhrf & H).
  rewrite Hhrf. cbn [bind].
  apply bind_Ok_inv in H. destruct H as (st & Hloop & H).
  assert (Hconv' : forall h hv,
            local "hrf" hrf = Ok h -> np.asarray h = Ok hv ->
            np.convolve_arrays (map (dmul a) (np.column stim c0)) hv =
            fmap (map (dmul a)) (np.convolve_arrays (np.column stim c0) hv)).
  { intros h hv Hl. destruct hrf as [h'|]; [|discriminate].
    injection Hl as ->. apply Hconv. exact Hhrf. }
  destruct (column_loop_scaled a Hzero stim c0 hrf Hconv' s d
              (seq 0 (shape1 stim)) None None st I Hloop)
    as (st' & Hrun & Hrel).
  rewrite Hrun. cbn [bind].
  destruct st as [m|]; [|discriminate]. injection H as <-.
  destruct st' as [m'|]; [|contradiction].
  exists m'. split; [reflexivity|]. exact Hrel.
Qed.

(** C7 (amended): with [scale_function = false], on binary64 arrays,
    multiplying one input column pointwise by a power of two [2^k]
    (doubling is [k = 1]) multiplies the corresponding output column
    pointwise by [2^k] and leaves every other output column unchanged,
    when the convolution of that column with the HRF stays in range:
    every entry of the column and of the HRF, every product and every
    partial sum that [np.convolve] forms is a zero or a normal number [x]
    with [2^-1021 <= |x|] and [2^-1021 <= |2^k * x| < 2^1024], and no
    product of two nonzero factors rounds to zero. *)
Theorem convolve_hrf_linear_in_column
  {libm : math_module}
  (stim : ndarray2 float) (tr_duration temporal_resolution : float)
  (hrf_type : hrf_arg) (c0 : nat) (k : Z) (a : float)
  (h : list pynum) (hv : list float) (out : ndarray2 float) :
  power_of_two k a ->
  get_hrf hrf_type temporal_resolution = Ok (Some h) ->
  np.asarray h = Ok hv ->
  convolution_scalable k (np.column stim c0) hv = true ->
  convolve_hrf stim tr_duration hrf_type false temporal_resolution = Ok out ->
  exists out',
    convolve_hrf (scale_column stim c0 a) tr_duration hrf_type false
                 temporal_resolution = Ok out' /\
    shape0 out' = shape0 out /\ shape1 out' = shape1 out /\
    forall i c,
      item out' i c =
      if (c =? c0)%nat then (a * item out i c)%float else item out i c.
Proof.
  intros Ha Hhrf Hhv Hrange Hrun.
  destruct (convolve_hrf_scaled_column stim tr_duration temporal_resolution
              hrf_type c0 a out) as (out' & Hrun' & Hrel);
    [| |exact Hrun|].
  - exact (scale_0 k a Ha).
  - intros h' hv' Hh' Hhv'.
    assert (h' = h) by congruence. subst h'.
    assert (hv' = hv) by congruence. subst hv'.
    apply (convolve_arrays_scaled k a Ha). exact Hrange.
  - exists out'. split; [exact Hrun'|]. exact Hrel.
Qed.

(** ** Concrete runs *)

(** C1, counterexample: one sample per 64 seconds.  Stride and duration
    are 1, the 30 seconds of the HRF hold [int(0.46875) = 0] samples, and
    [np.convolve] refuses the empty kernel. *)
Lemma convolve_hrf_coarse_resolution_raises :
  (0 <? 64)%float = true /\ (0 <? 0.015625)%float = true /\
  get_stride 64 0.015625 = Ok 1 /\
  get_duration stim_1x1 1 = Ok 1 /\
  forall libm : math_module,
    convolve_hrf stim_1x1 64 (HrfStr "double_gamma") false 0.015625
    = Raise (ValueError "v cannot be empty").
Proof.
  split; [reflexivity|]. split; [reflexivity|]. split; [reflexivity|].
  split; [reflexivity|]. intros libm. vm_compute. reflexivity.
Qed.

(** C1 on a run: seven samples, two columns, two samples per TR and a
    three-tap kernel give three rows; row 1 of column 0 is sample 3 of the
    convolution. *)
Lemma convolve_hrf_unscaled_resamples_witness :
  (1 <= shape1 stim_7x2 <= shape0 stim_7x2)%nat /\
  get_stride 2 1 = Ok 2 /\
  get_hrf (libm := Libm.approx) (HrfList kernel3) 1 = Ok (Some kernel3) /\
  exists out,
    convolve_hrf (libm := Libm.approx) stim_7x2 2 (HrfList kernel3) false 1
      = Ok out /\
    shape0 out = 3%nat /\ shape1 out = 2%nat /\
    item out 1 0 = 35%float /\ item out 2 1 = 0.5%float.
Proof.
  split; [vm_compute; lia|]. split; [reflexivity|]. split; [reflexivity|].
  destruct (convolve_hrf_unscaled_resamples (libm := Libm.approx)
              stim_7x2 2 1 (HrfList kernel3) 2 kernel3 [1; 10; 0.5]%float)
    as (out & Hout & H0 & H1 & Hcols);
    try reflexivity; try (vm_compute; lia); try discriminate.
  exists out. split; [exact Hout|].
  assert (Hrows : shape0 out = 3%nat)
    by (apply Nat2Z.inj; rewrite H0; reflexivity).
  split; [exact Hrows|]. split; [exact H1|]. split.
  - destruct (Hcols 0%nat) as (y & Hy & Hk); [vm_compute; lia|].
    vm_compute in Hy. injection Hy as <-.
    rewrite (Hk 1%nat) by lia. vm_compute. reflexivity.
  - destruct (Hcols 1%nat) as (y & Hy & Hk); [vm_compute; lia|].
    vm_compute in Hy. injection Hy as <-.
    rewrite (Hk 2%nat) by lia. vm_compute. reflexivity.
Defined.

(** C2 on a run: sample 1 of the three-sample HRF at one sample per ten
    seconds. *)
Lemma double_gamma_hrf_closed_form_witness :
  hrf_size (default_params 0.1) = Ok 3 /\
  exists hrf,
    _double_gamma_hrf (libm := Libm.approx) (default_params 0.1) = Ok hrf /\
    exists v,
      spec_hrf_value (libm := Libm.approx) (default_params 0.1) 1 = Ok v /\
      nth 1 hrf (PyInt 0) = PyFloat v.
Proof.
  split; [reflexivity|].
  eexists. split; [vm_compute; reflexivity|].
  apply (double_gamma_hrf_closed_form (libm := Libm.approx)
           (default_params 0.1) 3 _ 1);
    [reflexivity | vm_compute; reflexivity | lia].
Defined.

(** C3, counterexample: a response dispersion of zero puts the response
    peak at zero, and the first sample divides by it. *)
Lemma double_gamma_hrf_zero_dispersion_raises :
  (0 <? temporal_resolution flat_response)%float = true /\
  hrf_size flat_response = Ok 30 /\
  forall libm : math_module,
    _double_gamma_hrf flat_response
    = Raise (ZeroDivisionError "float division by zero").
Proof.
  split; [reflexivity|]. split; [reflexivity|].
  intros libm. vm_compute. reflexivity.
Qed.

(** C3 on a run: the three-sample HRF ends with the integer 0 it was
    initialised with. *)
Lemma double_gamma_hrf_length_and_last_witness :
  (0 <? temporal_resolution (default_params 0.1))%float = true /\
  hrf_size (default_params 0.1) = Ok 3 /\
  exists hrf,
    _double_gamma_hrf (libm := Libm.approx) (default_params 0.1) = Ok hrf /\
    Z.of_nat (List.length hrf) = 3 /\
    nth 2 hrf (PyFloat 1) = PyInt 0.
Proof.
  split; [reflexivity|]. split; [reflexivity|].
  destruct (double_gamma_hrf_length_and_last (libm := Libm.approx)
              (default_params 0.1) 3) as (hrf & Hrun & Hlen & Hlast).
  - reflexivity.
  - reflexivity.
  - intros i Hi. assert (Hcase : i = 0 \/ i = 1) by lia.
    destruct Hcase as [-> | ->]; eexists; vm_compute; reflexivity.
  - exists hrf. split; [exact Hrun|]. split; [exact Hlen|].
    apply Hlast. lia.
Defined.

(** C5 on a run: one row, two columns. *)
Lemma convolve_hrf_wide_stimfunction_witness :
  (shape0 stim_1x2 < shape1 stim_1x2)%nat /\
  convolve_hrf (libm := Libm.approx) stim_1x2 1 (HrfList [PyFloat 1]) false 1
  = Raise (NameError "logger").
Proof.
  split; [vm_compute; lia|].
  apply (convolve_hrf_wide_stimfunction (libm := Libm.approx)).
  vm_compute. lia.
Defined.

(** C6 on a run: the synthesized list in place of ['double_gamma']. *)
Lemma convolve_hrf_explicit_hrf_witness :
  exists hrf,
    _double_gamma_hrf (libm := Libm.approx) (default_params 0.1) = Ok hrf /\
    convolve_hrf (libm := Libm.approx) stim_3x1 10 (HrfList hrf) false 0.1 =
    convolve_hrf (libm := Libm.approx) stim_3x1 10 (HrfStr "double_gamma")
                 false 0.1.
Proof.
  eexists. split; [vm_compute; reflexivity|].
  apply (convolve_hrf_explicit_hrf (libm := Libm.approx)).
  vm_compute. reflexivity.
Defined.

(** C9, counterexample: a numpy array of two numbers for [hrf_type],
    with a stride of one and a duration of two.  The comparison with
    ['double_gamma'] is an array of two [False], and [if] refuses it
    with a [ValueError]. *)
Lemma convolve_hrf_array_hrf_type_raises :
  leaves_hrf_unbound (HrfArray (PyFloat 1) [PyFloat 0.5]) /\
  get_stride 1 1 = Ok 1 /\
  get_duration stim_2x1_zero 1 = Ok 2 /\
  (forall libm : math_module,
     convolve_hrf stim_2x1_zero 1 (HrfArray (PyFloat 1) [PyFloat 0.5]) true 1
     = Raise ambiguous_truth_value) /\
  is_unbound_variable_error ambiguous_truth_value = false.
Proof.
  split; [exact I|]. split; [reflexivity|]. split; [reflexivity|].
  split; [|reflexivity].
  intros libm. vm_compute. reflexivity.
Qed.

(** Half a sample per TR makes the stride zero, and the division that
    computes the duration fails before [hrf] is read. *)
Lemma convolve_hrf_zero_stride_raises :
  leaves_hrf_unbound (HrfStr "spm") /\
  get_stride 0.5 1 = Ok 0 /\
  (forall libm : math_module,
     convolve_hrf stim_2x1_zero 0.5 (HrfStr "spm") true 1
     = Raise (ZeroDivisionError "division by zero")) /\
  is_unbound_variable_error (ZeroDivisionError "division by zero") = false.
Proof.
  split; [reflexivity|]. split; [reflexivity|]. split; [|reflexivity].
  intros libm. vm_compute. reflexivity.
Qed.

(** C9 on two runs with a stride of one: [hrf_type = 'spm'], and a numpy
    array of one number. *)
Lemma convolve_hrf_unbound_hrf_witness :
  leaves_hrf_unbound (HrfStr "spm") /\
  (shape1 stim_2x1_zero <= shape0 stim_2x1_zero)%nat /\
  get_stride 1 1 = Ok 1 /\
  get_duration stim_2x1_zero 1 = Ok 2 /\
  convolve_hrf (libm := Libm.approx) stim_2x1_zero 1 (HrfStr "spm") true 1
  = Raise (UnboundLocalError "hrf") /\
  convolve_hrf (libm := Libm.approx) stim_2x1_zero 1
    (HrfArray (PyFloat 1) []) true 1
  = Raise (UnboundLocalError "hrf").
Proof.
  split; [reflexivity|]. split; [vm_compute; lia|].
  split; [reflexivity|]. split; [reflexivity|].
  split.
  - apply (convolve_hrf_unbound_hrf (libm := Libm.approx)
             stim_2x1_zero 1 1 (HrfStr "spm") true 1 2);
      [reflexivity | vm_compute; lia | reflexivity | reflexivity].
  - apply (convolve_hrf_unbound_hrf (libm := Libm.approx)
             stim_2x1_zero 1 1 (HrfArray (PyFloat 1) []) true 1 2);
      [exact I | vm_compute; lia | reflexivity | reflexivity].
Defined.

(** C10 on a run: one row, two samples per TR. *)
Lemma convolve_hrf_short_stimfunction_witness :
  get_stride 2 1 = Ok 2 /\
  Z.of_nat (shape0 stim_1x1) < 2 < int_exact_bound /\
  get_duration stim_1x1 2 = Ok 0 /\
  convolve_hrf (libm := Libm.approx) stim_1x1 2 (HrfList [PyFloat 1]) true 1
  = Raise (ValueError
      "zero-size array to reduction operation maximum which has no identity").
Proof.
  split; [reflexivity|]. split; [vm_compute; split; reflexivity|].
  destruct (convolve_hrf_short_stimfunction (libm := Libm.approx)
              stim_1x1 2 1 (HrfList [PyFloat 1]) 2)
    as (Hd & _ & Hmax);
    [reflexivity | vm_compute; split; reflexivity |].
  split; [exact Hd|].
  apply (Hmax [PyFloat 1] [1%float]);
    [vm_compute; lia | reflexivity | reflexivity | discriminate].
Defined.

(** C4, counterexample: a column of negative responses.  The downsampled
    vector is [-1, -2], its maximum is [-1], and the scaled column is
    [1, 2]: the largest absolute value is 2. *)
Lemma convolve_hrf_negative_column_scaled :
  (forall libm : math_module,
     fmap np.tolist
       (convolve_hrf stim_2x1_negative 1 (HrfList [PyFloat 1]) false 1)
     = Ok [[-1]; [-2]]%float) /\
  (forall libm : math_module,
     fmap np.tolist
       (convolve_hrf stim_2x1_negative 1 (HrfList [PyFloat 1]) true 1)
     = Ok [[1]; [2]]%float) /\
  np.max (map PrimFloat.abs [1; 2]%float) = Ok 2%float /\
  (2 =? 1)%float = false.
Proof.
  split; [intros libm; vm_compute; reflexivity|].
  split; [intros libm; vm_compute; reflexivity|].
  split; reflexivity.
Qed.

(** C4 on a run: column 0 of the unscaled output is [12, 35, 58]; its
    maximum 58 sits in row 2, and no entry is larger in magnitude. *)
Lemma convolve_hrf_scaled_by_maximum_witness :
  (1 <= shape1 stim_7x2 <= shape0 stim_7x2)%nat /\
  get_stride 2 1 = Ok 2 /\
  exists out,
    convolve_hrf (libm := Libm.approx) stim_7x2 2 (HrfList kernel3) true 1
      = Ok out /\
    item out 0 0 = (12 / 58)%float /\
    item out 2 0 = 1%float /\
    np.max (map abs (np.column out 0)) = Ok 1%float.
Proof.
  split; [vm_compute; lia|]. split; [reflexivity|].
  destruct (convolve_hrf_scaled_by_maximum (libm := Libm.approx)
              stim_7x2 2 1 (HrfList kernel3) 2 kernel3 [1; 10; 0.5]%float)
    as (out & Hout & Hcols);
    try reflexivity; try (vm_compute; lia); try discriminate.
  exists out. split; [exact Hout|].
  destruct (Hcols 0%nat) as (v & m & Hv & Hlen & Hm & Hdiv & Hone & Habs);
    [vm_compute; lia|].
  vm_compute in Hv. injection Hv as <-.
  vm_compute in Hm. injection Hm as <-.
  cbn [List.length] in Hlen.
  assert (Hfin : finite_nonzero 58)
    by (eexists _, _, _; vm_compute; reflexivity).
  split; [|split].
  - rewrite (Hdiv 0%nat) by lia. reflexivity.
  - destruct (Hone Hfin) as [_ Hat]. apply Hat; [lia | reflexivity].
  - apply Habs; [reflexivity | exact Hfin |].
    intros k Hk. rewrite <- Hlen in Hk.
    destruct k as [|[|[|k]]]; try reflexivity. lia.
Defined.

(** C8, counterexample: an all-zero column shorter than one TR.  The
    duration is zero, the downsampled vector is empty, and the maximum
    of the empty vector raises. *)
Lemma convolve_hrf_short_zero_column_raises :
  (forall i, (i < shape0 stim_1x1_zero)%nat ->
     (item stim_1x1_zero i 0 =? 0)%float = true) /\
  get_stride 2 1 = Ok 2 /\
  forall libm : math_module,
    convolve_hrf stim_1x1_zero 2 (HrfList [PyFloat 1]) true 1
    = Raise (ValueError
        "zero-size array to reduction operation maximum which has no identity").
Proof.
  split.
  - intros i Hi. change (shape0 stim_1x1_zero) with 1%nat in Hi.
    assert (i = 0%nat) as -> by lia. reflexivity.
  - split; [reflexivity|]. intros libm. vm_compute. reflexivity.
Qed.

(** C8 on a run: column 0 is zero, column 1 is not. *)
Lemma convolve_hrf_zero_column_is_nan_witness :
  (1 <= shape1 stim_4x2 <= shape0 stim_4x2)%nat /\
  get_stride 2 1 = Ok 2 /\
  (forall i, (i < shape0 stim_4x2)%nat ->
     (item stim_4x2 i 0 =? 0)%float = true) /\
  exists out,
    convolve_hrf (libm := Libm.approx) stim_4x2 2
      (HrfList [PyFloat 1; PyFloat 0.5]) true 1 = Ok out /\
    shape0 out = 2%nat /\ shape1 out = 2%nat /\
    item out 0 0 = nan /\ item out 1 0 = nan.
Proof.
  assert (Hzero : forall i, (i < shape0 stim_4x2)%nat ->
            (item stim_4x2 i 0 =? 0)%float = true).
  { intros i Hi. change (shape0 stim_4x2) with 4%nat in Hi.
    destruct i as [|[|[|[|i]]]]; try reflexivity. lia. }
  split; [vm_compute; lia|]. split; [reflexivity|]. split; [exact Hzero|].
  destruct (convolve_hrf_zero_column_is_nan (libm := Libm.approx)
              stim_4x2 2 1 (HrfList [PyFloat 1; PyFloat 0.5]) 2
              [PyFloat 1; PyFloat 0.5] [1; 0.5]%float 0)
    as (out & Hout & H0 & H1 & Hnan & _);
    try reflexivity; try (vm_compute; lia); try discriminate;
    try exact Hzero.
  exists out. split; [exact Hout|].
  assert (Hrows : shape0 out = 2%nat)
    by (apply Nat2Z.inj; rewrite H0; reflexivity).
  split; [exact Hrows|]. split; [exact H1|].
  split; apply Hnan; lia.
Defined.

(** C7, counterexample: in binary64 the product [(3 * 0.1) * 0.3] and the
    product [3 * (0.1 * 0.3)] round to neighbouring floats, so tripling
    the input column does not triple the output column. *)
Lemma convolve_hrf_tripled_column_rounds :
  exists x y,
    (forall libm : math_module,
       fmap np.tolist
         (convolve_hrf stim_2x1_tenth 1 (HrfList [PyFloat 0.3]) false 1)
       = Ok [[x]; [0%float]]) /\
    (forall libm : math_module,
       fmap np.tolist
         (convolve_hrf (scale_column stim_2x1_tenth 0 3%float) 1
                       (HrfList [PyFloat 0.3]) false 1)
       = Ok [[y]; [0%float]]) /\
    (y =? 3 * x)%float = false.
Proof.
  exists (0.1 * 0.3)%float, (3 * 0.1 * 0.3)%float.
  split; [intros libm; vm_compute; reflexivity|].
  split; [intros libm; vm_compute; reflexivity|].
  vm_compute. reflexivity.
Qed.

(** Outside that range doubling is not exact either.  The double of the
    largest float is an infinity, which a quarter of it is not; and the
    product of [2^-1000] and [2^-75] rounds to zero, which the product of
    [2^-999] and [2^-75] does not. *)
Lemma convolve_hrf_doubled_column_out_of_range :
  power_of_two 1 2 /\
  convolution_scalable 1 (np.column stim_1x1_largest 0) [0.25%float]
  = false /\
  (forall libm : math_module,
     fmap np.tolist
       (convolve_hrf stim_1x1_largest 1 (HrfList [PyFloat 0.25]) false 1)
     = Ok [[0x1.fffffffffffffp+1021%float]]) /\
  (forall libm : math_module,
     fmap np.tolist
       (convolve_hrf (scale_column stim_1x1_largest 0 2%float) 1
                     (HrfList [PyFloat 0.25]) false 1)
     = Ok [[infinity]]) /\
  convolution_scalable 1 (np.column stim_1x1_tiny 0) [0x1p-75%float]
  = false /\
  (forall libm : math_module,
     fmap np.tolist
       (convolve_hrf stim_1x1_tiny 1 (HrfList [PyFloat 0x1p-75]) false 1)
     = Ok [[0%float]]) /\
  (forall libm : math_module,
     fmap np.tolist
       (convolve_hrf (scale_column stim_1x1_tiny 0 2%float) 1
                     (HrfList [PyFloat 0x1p-75]) false 1)
     = Ok [[0x1p-1074%float]]).
Proof.
  split; [reflexivity|]. split; [reflexivity|].
  split; [intros libm; vm_compute; reflexivity|].
  split; [intros libm; vm_compute; reflexivity|].
  split; [reflexivity|].
  split; intros libm; vm_compute; reflexivity.
Qed.

(** C7 on a run: column 0 of the seven rows doubled. *)
Lemma convolve_hrf_linear_in_column_witness :
  power_of_two 1 2 /\
  get_hrf (libm := Libm.approx) (HrfList kernel3) 1 = Ok (Some kernel3) /\
  np.asarray kernel3 = Ok [1; 10; 0.5]%float /\
  convolution_scalable 1 (np.column stim_7x2 0) [1; 10; 0.5]%float = true /\
  exists out out',
    convolve_hrf (libm := Libm.approx) stim_7x2 2 (HrfList kernel3) false 1
    = Ok out /\
    convolve_hrf (libm := Libm.approx) (scale_column stim_7x2 0 2%float) 2
                 (HrfList kernel3) false 1 = Ok out' /\
    np.tolist out = [[12; 0]; [35; 11]; [58; 0.5]]%float /\
    np.tolist out' = [[24; 0]; [70; 11]; [116; 0.5]]%float /\
    forall i c,
      item out' i c =
      if (c =? 0)%nat then (2 * item out i c)%float else item out i c.
Proof.
  split; [reflexivity|]. split; [reflexivity|]. split; [reflexivity|].
  split; [vm_compute; reflexivity|].
  assert (Hrun : exists out,
            convolve_hrf (libm := Libm.approx) stim_7x2 2 (HrfList kernel3)
                         false 1 = Ok out)
    by (eexists; vm_compute; reflexivity).
  destruct Hrun as [out Hrun].
  destruct (convolve_hrf_linear_in_column (libm := Libm.approx)
              stim_7x2 2 1 (HrfList kernel3) 0 1 2%float kernel3
              [1; 10; 0.5]%float out
              eq_refl eq_refl eq_refl eq_refl Hrun)
    as (out' & Hrun' & H0 & H1 & Hitem).
  exists out, out'. split; [exact Hrun|]. split; [exact Hrun'|].
  vm_compute in Hrun. injection Hrun as <-.
  vm_compute in Hrun'. injection Hrun' as <-.
  split; [vm_compute; reflexivity|]. split; [vm_compute; reflexivity|].
  exact Hitem.
Defined.

(* ===================================================================== *)
(** * Part IV: further properties of the two functions *)
(* ===================================================================== *)

(** Side conditions on concrete inputs. *)
Ltac concrete :=
  first [ assumption | reflexivity | lia | discriminate
        | vm_compute; first [lia | discriminate | split; reflexivity]
        | solve [repeat constructor] ].

(** ** The synthesizer: short sequences and failures *)

Section DoubleGammaEdges.

Context {libm : math_module}.
Variable p : hrf_params.

Let body := fun (hrf_counter : nat) (hrf : list pynum) =>
  v <- hrf_sample p (Z.of_nat hrf_counter) ;;
  Py.list_set hrf hrf_counter (PyFloat v).

(** The loop stops at the first sample that raises. *)
Lemma hrf_loop_Raise (k a i : nat) (hrf : list pynum) (e : exn) :
  (a <= i < a + k)%nat -> (a + k <= List.length hrf)%nat ->
  (forall j, (a <= j < i)%nat -> exists v, hrf_sample p (Z.of_nat j) = Ok v) ->
  hrf_sample p (Z.of_nat i) = Raise e ->
  for_each (seq a k) body hrf = Raise e.
Proof.
  revert a hrf. induction k as [|k IH]; intros a hrf Hi Hlen Hbefore Hfail;
    [lia|].
  cbn [seq for_each]. destruct (Nat.eq_dec i a) as [->|Hne].
  - unfold body at 1. rewrite Hfail. reflexivity.
  - destruct (Hbefore a) as [v Hv]; [lia|].
    destruct (list_set_Ok hrf a (PyFloat v)) as [l' Hl']; [lia|].
    unfold body at 1. rewrite Hv. cbn [bind]. rewrite Hl'. cbn [bind].
    apply IH; try lia.
    + destruct (list_set_spec _ _ _ _ Hl') as [-> _]. lia.
    + intros j Hj. apply Hbefore. lia.
    + exact Hfail.
Qed.

Lemma double_gamma_hrf_Raise (n i : Z) (e : exn) :
  hrf_size p = Ok n -> 0 <= i <= n - 2 ->
  (forall j, 0 <= j < i -> exists v, hrf_sample p j = Ok v) ->
  hrf_sample p i = Raise e ->
  _double_gamma_hrf p = Raise e.
Proof.
  intros Hn Hi Hbefore Hfail. unfold _double_gamma_hrf. rewrite Hn.
  cbn [bind]. rewrite repeat_length.
  apply (hrf_loop_Raise _ 0 (Z.to_nat i)).
  - lia.
  - rewrite repeat_length. lia.
  - intros j Hj. apply Hbefore. lia.
  - rewrite Z2Nat.id by lia. exact Hfail.
Qed.

(** The first sample divides by the response peak. *)
Lemma hrf_sample_zero_peak :
  (response_peak p =? 0)%float = true ->
  hrf_sample p 0 = Raise (ZeroDivisionError "float division by zero").
Proof.
  intros Hpeak. unfold hrf_sample, Py.int_float_truediv.
  change (Py.float_of_int 0) with (Ok 0%float). cbn [bind].
  unfold Py.float_truediv at 1.
  destruct (PrimFloat.eqb (temporal_resolution p) 0); [reflexivity|].
  cbn [bind]. unfold Py.float_truediv at 1. rewrite Hpeak. reflexivity.
Qed.

End DoubleGammaEdges.

(** ** binary64: NaN and the infinities *)

Lemma SFeqb_refl (x : spec_float) : x <> S754_nan -> SFeqb x x = true.
Proof.
  unfold SFeqb, SFcompare.
  destruct x as [[]|[]| |[] m e]; intros H; try reflexivity;
    try (exfalso; apply H; reflexivity);
    rewrite Z.compare_refl;
    change (Pos.compare_cont Eq m m) with (m ?= m)%positive;
    rewrite Pos.compare_refl; reflexivity.
Qed.

Lemma is_nan_spec (x : float) :
  is_nan x = true <-> Prim2SF x = S754_nan.
Proof.
  unfold is_nan. rewrite FloatAxioms.eqb_spec. split.
  - intros H. destruct (Prim2SF x) eqn:E; try reflexivity;
      rewrite SFeqb_refl in H by discriminate; discriminate H.
  - intros ->. reflexivity.
Qed.

Lemma is_infinity_spec (x : float) :
  is_infinity x = true <-> exists s, Prim2SF x = S754_infinity s.
Proof.
  unfold is_infinity. rewrite FloatAxioms.eqb_spec, abs_spec.
  change (Prim2SF infinity) with (S754_infinity false). split.
  - destruct (Prim2SF x) as [s|s| |s m e]; intros H;
      try discriminate H. exists s. reflexivity.
  - intros [s ->]. reflexivity.
Qed.

(** [int(x)] of a float that is not finite. *)
Lemma int_of_float_not_finite (x : float) :
  is_finite x = false ->
  Py.int_of_float x =
  Raise (if is_nan x
         then ValueError "cannot convert float NaN to integer"
         else OverflowError "cannot convert float infinity to integer").
Proof.
  unfold is_finite. rewrite negb_false_iff, orb_true_iff.
  destruct (is_nan x) eqn:Hnan.
  - intros _. apply is_nan_spec in Hnan. unfold Py.int_of_float.
    rewrite Hnan. reflexivity.
  - intros [H|H]; [discriminate H|]. apply is_infinity_spec in H.
    destruct H as [s Hs]. unfold Py.int_of_float. rewrite Hs. reflexivity.
Qed.

(** X1: when [int(30 * temporal_resolution)] is at most 1 the loop over
    [range(len(hrf) - 1)] has no iteration: the synthesizer returns the
    list of [int] zeros it started from (empty for a size of zero or
    below), whatever the shape parameters, without a division and without
    a call to [math]. *)
Theorem double_gamma_hrf_short_is_zeros
  {libm : math_module} (p : hrf_params) (n : Z) :
  hrf_size p = Ok n -> n <= 1 ->
  _double_gamma_hrf p = Ok (repeat (PyInt 0) (Z.to_nat n)).
Proof.
  intros Hn Hle. unfold _double_gamma_hrf. rewrite Hn. cbn [bind].
  rewrite repeat_length.
  replace (Z.to_nat n - 1)%nat with 0%nat by lia. reflexivity.
Qed.

(** X1 on a run: one sample per 16 seconds and dispersions of zero. *)
Lemma double_gamma_hrf_short_is_zeros_witness :
  hrf_size flat_response_coarse = Ok 1 /\
  _double_gamma_hrf (libm := Libm.approx) flat_response_coarse
  = Ok [PyInt 0].
Proof.
  split; [reflexivity|].
  apply (double_gamma_hrf_short_is_zeros (libm := Libm.approx)
           flat_response_coarse 1); [reflexivity | lia].
Defined.

(** X2: a [temporal_resolution] that is a NaN or an infinity makes
    [int(hrf_length * temporal_resolution)] raise, [ValueError] for the
    NaN and [OverflowError] for an infinity, before the list is
    created. *)
Theorem double_gamma_hrf_not_finite_resolution
  {libm : math_module} (p : hrf_params) :
  is_finite (temporal_resolution p) = false ->
  _double_gamma_hrf p =
  Raise (if is_nan (temporal_resolution p)
         then ValueError "cannot convert float NaN to integer"
         else OverflowError "cannot convert float infinity to integer").
Proof.
  unfold is_finite. rewrite negb_false_iff, orb_true_iff.
  unfold _double_gamma_hrf, hrf_size, Py.int_of_float. rewrite mul_spec.
  change (Prim2SF hrf_length)
    with (S754_finite false 8444249301319680 (-48)).
  destruct (is_nan (temporal_resolution p)) eqn:Hnan.
  - intros _. apply is_nan_spec in Hnan. rewrite Hnan. reflexivity.
  - intros [H|H]; [discriminate H|]. apply is_infinity_spec in H.
    destruct H as [s ->]. reflexivity.
Qed.

(** X2 on a run: an infinite resolution. *)
Lemma double_gamma_hrf_not_finite_resolution_witness :
  is_finite infinity = false /\
  _double_gamma_hrf (libm := Libm.approx) (default_params infinity)
  = Raise (OverflowError "cannot convert float infinity to integer").
Proof.
  split; [reflexivity|].
  apply (double_gamma_hrf_not_finite_resolution (libm := Libm.approx)
           (default_params infinity)).
  reflexivity.
Defined.

(** X3: with at least two samples to compute, a response peak
    [response_delay * response_dispersion] of zero makes the first sample
    divide by zero: the synthesizer raises [ZeroDivisionError], whatever
    [math.pow] and [math.exp] do. *)
Theorem double_gamma_hrf_zero_response_peak
  {libm : math_module} (p : hrf_params) (n : Z) :
  hrf_size p = Ok n -> 2 <= n ->
  (response_peak p =? 0)%float = true ->
  _double_gamma_hrf p = Raise (ZeroDivisionError "float division by zero").
Proof.
  intros Hn Hle Hpeak.
  apply (double_gamma_hrf_Raise p n 0); [exact Hn | lia | intros j Hj; lia |].
  apply hrf_sample_zero_peak. exact Hpeak.
Qed.

(** X3 on a run: a response dispersion of zero at one sample per
    second. *)
Lemma double_gamma_hrf_zero_response_peak_witness :
  hrf_size flat_response = Ok 30 /\
  (response_peak flat_response =? 0)%float = true /\
  _double_gamma_hrf (libm := Libm.approx) flat_response
  = Raise (ZeroDivisionError "float division by zero").
Proof.
  split; [reflexivity|]. split; [reflexivity|].
  apply (double_gamma_hrf_zero_response_peak (libm := Libm.approx)
           flat_response 30); [reflexivity | lia | reflexivity].
Defined.

(** X4: the synthesizer raises the exception of the first sample that
    cannot be evaluated: when the samples before index [i] evaluate and
    sample [i], one of the [N - 1] computed ones, raises [e], the call
    raises [e] and returns no partial list. *)
Theorem double_gamma_hrf_first_failure
  {libm : math_module} (p : hrf_params) (n i : Z) (e : exn) :
  hrf_size p = Ok n -> 0 <= i <= n - 2 ->
  (forall j, 0 <= j < i -> exists v, hrf_sample p j = Ok v) ->
  hrf_sample p i = Raise e ->
  _double_gamma_hrf p = Raise e.
Proof.
  intros Hn Hi Hbefore Hfail.
  apply (double_gamma_hrf_Raise p n i); assumption.
Qed.

(** X4 on a run: a small negative response dispersion; sample 0
    evaluates, the response exponential of sample 1 overflows. *)
Lemma double_gamma_hrf_first_failure_witness :
  hrf_size steep_response = Ok 30 /\
  hrf_sample (libm := Libm.approx) steep_response 0 = Ok 0%float /\
  hrf_sample (libm := Libm.approx) steep_response 1
    = Raise (OverflowError "math range error") /\
  _double_gamma_hrf (libm := Libm.approx) steep_response
  = Raise (OverflowError "math range error").
Proof.
  split; [reflexivity|].
  split; [vm_compute; reflexivity|].
  split; [vm_compute; reflexivity|].
  apply (double_gamma_hrf_first_failure (libm := Libm.approx)
           steep_response 30 1).
  - reflexivity.
  - lia.
  - intros j Hj. assert (j = 0) as -> by lia.
    eexists. vm_compute. reflexivity.
  - vm_compute. reflexivity.
Defined.

(** ** convolve_hrf: the calls that do not reach the loop, or leave it at
    once *)

Section ConvolveEdges.

Context {libm : math_module} {A : Type} {D : dtype A}.

Variable stimfunction : ndarray2 A.
Variable tr_duration : float.
Variable hrf_type : hrf_arg.
Variable scale_function : bool.
Variable temporal_resolution : float.

(** The call up to the loop, when the shape does not look transposed. *)
Lemma convolve_hrf_tall :
  (shape1 stimfunction <= shape0 stimfunction)%nat ->
  convolve_hrf stimfunction tr_duration hrf_type scale_function
               temporal_resolution =
  (stride <- get_stride tr_duration temporal_resolution ;;
   duration <- get_duration stimfunction stride ;;
   hrf <- get_hrf hrf_type temporal_resolution ;;
   signal_function <-
     for_each (seq 0 (shape1 stimfunction))
       (column_body stimfunction scale_function stride duration hrf) None ;;
   local "signal_function" signal_function).
Proof.
  intros Hshape. unfold convolve_hrf.
  destruct (Nat.ltb_spec (shape0 stimfunction) (shape1 stimfunction));
    [lia | reflexivity].
Qed.

End ConvolveEdges.

(** X5: when [int(temporal_resolution * tr_duration)] is 0 (the product
    lies strictly between -1 and 1) and the rows are not fewer than the
    columns, the division [shape[0] / stride] raises
    [ZeroDivisionError], whatever the stimulus, [hrf_type] and
    [scale_function]. *)
Theorem convolve_hrf_zero_stride
  {libm : math_module} {A : Type} {D : dtype A}
  (stim : ndarray2 A) (tr_duration temporal_resolution : float)
  (hrf_type : hrf_arg) (scale_function : bool) :
  (shape1 stim <= shape0 stim)%nat ->
  get_stride tr_duration temporal_resolution = Ok 0 ->
  convolve_hrf stim tr_duration hrf_type scale_function temporal_resolution
  = Raise (ZeroDivisionError "division by zero").
Proof.
  intros Hshape Hstride. rewrite convolve_hrf_tall by exact Hshape.
  rewrite Hstride. reflexivity.
Qed.

(** X5 on a run: the default call at half a sample per TR. *)
Lemma convolve_hrf_zero_stride_witness :
  (shape1 stim_7x2 <= shape0 stim_7x2)%nat /\
  get_stride 0.5 1 = Ok 0 /\
  convolve_hrf (libm := Libm.approx) stim_7x2 0.5 (HrfStr "double_gamma")
               true 1
  = Raise (ZeroDivisionError "division by zero").
Proof.
  split; [vm_compute; lia|]. split; [reflexivity|].
  apply (convolve_hrf_zero_stride (libm := Libm.approx));
    [vm_compute; lia | reflexivity].
Defined.

(** X6: a product [temporal_resolution * tr_duration] that is a NaN or
    an infinity makes [int(...)] raise, [ValueError] for the NaN and
    [OverflowError] for an infinity, when the rows are not fewer than the
    columns. *)
Theorem convolve_hrf_not_finite_stride
  {libm : math_module} {A : Type} {D : dtype A}
  (stim : ndarray2 A) (tr_duration temporal_resolution : float)
  (hrf_type : hrf_arg) (scale_function : bool) :
  (shape1 stim <= shape0 stim)%nat ->
  is_finite (temporal_resolution * tr_duration) = false ->
  convolve_hrf stim tr_duration hrf_type scale_function temporal_resolution
  = Raise (if is_nan (temporal_resolution * tr_duration)
           then ValueError "cannot convert float NaN to integer"
           else OverflowError "cannot convert float infinity to integer").
Proof.
  intros Hshape Hfin. rewrite convolve_hrf_tall by exact Hshape.
  unfold get_stride. rewrite int_of_float_not_finite by exact Hfin.
  reflexivity.
Qed.

(** X6 on a run: a NaN for [tr_duration]. *)
Lemma convolve_hrf_not_finite_stride_witness :
  (shape1 stim_7x2 <= shape0 stim_7x2)%nat /\
  is_finite (1 * nan) = false /\
  convolve_hrf (libm := Libm.approx) stim_7x2 nan (HrfList kernel3) false 1
  = Raise (ValueError "cannot convert float NaN to integer").
Proof.
  split; [vm_compute; lia|]. split; [reflexivity|].
  apply (convolve_hrf_not_finite_stride (libm := Libm.approx)
           stim_7x2 nan 1 (HrfList kernel3) false);
    [vm_compute; lia | reflexivity].
Defined.

(** X7: a [stimfunction] without columns never yields an array: the loop
    has no iteration, [signal_function] is never assigned, and the
    [return] raises [UnboundLocalError] unless stride, duration or HRF
    raised before. *)
Theorem convolve_hrf_no_columns
  {libm : math_module} {A : Type} {D : dtype A}
  (stim : ndarray2 A) (tr_duration temporal_resolution : float)
  (hrf_type : hrf_arg) (scale_function : bool) :
  shape1 stim = 0%nat ->
  raises (convolve_hrf stim tr_duration hrf_type scale_function
                       temporal_resolution) /\
  forall s d h,
    get_stride tr_duration temporal_resolution = Ok s ->
    get_duration stim s = Ok d ->
    get_hrf hrf_type temporal_resolution = Ok h ->
    convolve_hrf stim tr_duration hrf_type scale_function
                 temporal_resolution
    = Raise (UnboundLocalError "signal_function").
Proof.
  intros HC. rewrite convolve_hrf_tall by lia. rewrite HC. split.
  - destruct (get_stride tr_duration temporal_resolution) as [s|e];
      [|exists e; reflexivity].
    cbn [bind]. destruct (get_duration stim s) as [d|e];
      [|exists e; reflexivity].
    cbn [bind]. destruct (get_hrf hrf_type temporal_resolution) as [h|e];
      [|exists e; reflexivity].
    eexists. reflexivity.
  - intros s d h Hs Hd Hh. rewrite Hs. cbn [bind]. rewrite Hd. cbn [bind].
    rewrite Hh. reflexivity.
Qed.

(** X7 on a run: two rows of no column. *)
Lemma convolve_hrf_no_columns_witness :
  shape1 stim_2x0 = 0%nat /\
  convolve_hrf (libm := Libm.approx) stim_2x0 1 (HrfList kernel3) true 1
  = Raise (UnboundLocalError "signal_function").
Proof.
  split; [reflexivity|].
  destruct (convolve_hrf_no_columns (libm := Libm.approx)
              stim_2x0 1 1 (HrfList kernel3) true) as [_ H];
    [reflexivity|].
  apply (H 1 2 (Some kernel3)); reflexivity.
Defined.

(** X8: an HRF that is bound to an empty list, an empty [hrf_type] or
    the ['double_gamma'] of a [temporal_resolution] below 1/30, is
    refused by [np.convolve] at the first column: the call raises
    [ValueError] when there is a column and stride and duration were
    computed. *)
Theorem convolve_hrf_empty_hrf
  {libm : math_module} {A : Type} {D : dtype A}
  (stim : ndarray2 A) (tr_duration temporal_resolution : float)
  (hrf_type : hrf_arg) (scale_function : bool) (s d : Z) :
  (1 <= shape1 stim <= shape0 stim)%nat ->
  get_stride tr_duration temporal_resolution = Ok s ->
  get_duration stim s = Ok d ->
  get_hrf hrf_type temporal_resolution = Ok (Some []) ->
  convolve_hrf stim tr_duration hrf_type scale_function temporal_resolution
  = Raise (ValueError "v cannot be empty").
Proof.
  intros Hshape Hstride Hduration Hhrf.
  rewrite convolve_hrf_tall by lia.
  rewrite Hstride. cbn [bind]. rewrite Hduration. cbn [bind].
  rewrite Hhrf. cbn [bind].
  destruct (shape1 stim) as [|C] eqn:EC; [lia|].
  cbn [seq for_each]. unfold column_body at 1, signal_vox_of.
  cbn [local bind]. unfold np.convolve, np.asarray. cbn [map_result bind].
  unfold np.convolve_arrays. rewrite column_length. cbn [List.length].
  destruct (Nat.ltb_spec (shape0 stim) 0); [lia|].
  rewrite column_length.
  destruct (Nat.eqb_spec (shape0 stim) 0); [lia|]. reflexivity.
Qed.

(** X8 on a run: ['double_gamma'] at one sample per 64 seconds. *)
Lemma convolve_hrf_empty_hrf_witness :
  (1 <= shape1 stim_1x1 <= shape0 stim_1x1)%nat /\
  get_hrf (libm := Libm.approx) (HrfStr "double_gamma") 0.015625
    = Ok (Some []) /\
  convolve_hrf (libm := Libm.approx) stim_1x1 64 (HrfStr "double_gamma")
               true 0.015625
  = Raise (ValueError "v cannot be empty").
Proof.
  split; [vm_compute; lia|]. split; [reflexivity|].
  apply (convolve_hrf_empty_hrf (libm := Libm.approx)
           stim_1x1 64 0.015625 (HrfStr "double_gamma") true 1 1);
    [vm_compute; lia | reflexivity | reflexivity | reflexivity].
Defined.

(** ** The convolution looks back only *)

Lemma fold_left_ext_in {X Y : Type} (f g : X -> Y -> X) (l : list Y) :
  (forall acc y, In y l -> f acc y = g acc y) ->
  forall acc, fold_left f l acc = fold_left g l acc.
Proof.
  induction l as [|y l IH]; intros H acc; cbn [fold_left]; [reflexivity|].
  rewrite H by (left; reflexivity). apply IH.
  intros acc' y' Hy'. apply H. right. exact Hy'.
Qed.

Section Causality.

Context {A : Type} {D : dtype A}.

Lemma column_nth (m : ndarray2 A) (c i : nat) :
  (i < shape0 m)%nat -> nth i (np.column m c) dzero = item m i c.
Proof.
  intros Hi. unfold np.column.
  exact (nth_map_seq (fun i => item m i c) (shape0 m) i dzero Hi).
Qed.

(** Entry [n] of a convolution reads its arguments up to index [n]. *)
Lemma conv_at_agree_l (a1 a2 v : list A) (n : nat) :
  List.length a2 = List.length a1 ->
  (forall i, (i <= n)%nat -> nth i a2 dzero = nth i a1 dzero) ->
  np.conv_at a2 v n = np.conv_at a1 v n.
Proof.
  intros Hlen Hagree. unfold np.conv_at. rewrite Hlen.
  apply fold_left_ext_in. intros acc j Hj. apply in_seq in Hj.
  rewrite Hagree by lia. reflexivity.
Qed.

Lemma conv_at_agree_r (a1 a2 v : list A) (n : nat) :
  List.length a2 = List.length a1 ->
  (forall i, (i <= n)%nat -> nth i a2 dzero = nth i a1 dzero) ->
  np.conv_at v a2 n = np.conv_at v a1 n.
Proof.
  intros Hlen Hagree. unfold np.conv_at. rewrite Hlen.
  apply fold_left_ext_in. intros acc j Hj.
  rewrite Hagree by lia. reflexivity.
Qed.

Lemma full_convolution_agree (a1 a2 : list A) (h : list pynum) (n : nat) :
  List.length a2 = List.length a1 ->
  (forall i, (i <= n)%nat -> nth i a2 dzero = nth i a1 dzero) ->
  nth n (full_convolution a2 h) dzero = nth n (full_convolution a1 h) dzero.
Proof.
  intros Hlen Hagree. unfold full_convolution, np.convolve.
  destruct (np.asarray h) as [hv|]; cbn [bind]; [|reflexivity].
  unfold np.convolve_arrays. rewrite Hlen.
  destruct (List.length a1 <? List.length hv)%nat.
  - destruct (List.length hv =? 0)%nat; [reflexivity|].
    rewrite Hlen. destruct (List.length a1 =? 0)%nat; [reflexivity|].
    set (L := (List.length hv + List.length a1 - 1)%nat).
    destruct (Nat.lt_ge_cases n L) as [Hn|Hn].
    + rewrite (nth_map_seq (np.conv_at hv a2) L n dzero Hn).
      rewrite (nth_map_seq (np.conv_at hv a1) L n dzero Hn).
      apply conv_at_agree_r; assumption.
    + rewrite !nth_overflow by (rewrite length_map, length_seq; lia).
      reflexivity.
  - rewrite Hlen. destruct (List.length a1 =? 0)%nat; [reflexivity|].
    destruct (List.length hv =? 0)%nat; [reflexivity|].
    set (L := (List.length a1 + List.length hv - 1)%nat).
    destruct (Nat.lt_ge_cases n L) as [Hn|Hn].
    + rewrite (nth_map_seq (np.conv_at a2 hv) L n dzero Hn).
      rewrite (nth_map_seq (np.conv_at a1 hv) L n dzero Hn).
      apply conv_at_agree_l; assumption.
    + rewrite !nth_overflow by (rewrite length_map, length_seq; lia).
      reflexivity.
Qed.

(** The convolution with a kernel of one tap. *)
Lemma full_convolution_single_tap (a : list A) (w : pynum) (w' : A)
  (n : nat) :
  dof_py w = Ok w' -> (n < List.length a)%nat ->
  nth n (full_convolution a [w]) dzero
  = dadd dzero (dmul (nth n a dzero) w').
Proof.
  intros Hw Hn. unfold full_convolution, np.convolve, np.asarray.
  cbn [map_result]. rewrite Hw. cbn [bind]. unfold np.convolve_arrays.
  cbn [List.length].
  destruct (Nat.ltb_spec (List.length a) 1); [lia|].
  destruct (Nat.eqb_spec (List.length a) 0); [lia|].
  cbn [List.length Nat.eqb].
  rewrite (nth_map_seq (np.conv_at a [w']) _ n dzero) by lia.
  unfold np.conv_at. cbn [List.length].
  replace (n - (1 - 1))%nat with n by lia.
  replace (Nat.min n (List.length a - 1) + 1 - n)%nat with 1%nat by lia.
  cbn [seq fold_left]. rewrite Nat.sub_diag. reflexivity.
Qed.

End Causality.

(** An unscaled run that reaches its end, column by column. *)
Lemma convolve_hrf_unscaled_run
  {libm : math_module} {A : Type} {D : dtype A}
  (stim : ndarray2 A) (tr_duration temporal_resolution : float)
  (hrf_type : hrf_arg) (s : Z) (h : list pynum) (hv : list A) :
  (1 <= shape1 stim <= shape0 stim)%nat ->
  Z.of_nat (shape0 stim) < int_exact_bound ->
  get_stride tr_duration temporal_resolution = Ok s ->
  1 <= s ->
  1 <= Z.of_nat (shape0 stim) / s ->
  get_hrf hrf_type temporal_resolution = Ok (Some h) ->
  np.asarray h = Ok hv -> hv <> [] ->
  exists out,
    convolve_hrf stim tr_duration hrf_type false temporal_resolution
      = Ok out /\
    Z.of_nat (shape0 out) = Z.of_nat (shape0 stim) / s /\
    shape1 out = shape1 stim /\
    forall k c, (k < shape0 out)%nat -> (c < shape1 stim)%nat ->
      item out k c =
      nth (Z.to_nat (Z.of_nat k * s + s / 2))
          (full_convolution (np.column stim c) h) dzero /\
      Z.of_nat k * s + s / 2 < Z.of_nat (shape0 stim).
Proof.
  intros Hshape HR Hstride Hs Hd Hhrf Hh Hhv.
  destruct (run_conditions stim s Hshape HR Hs Hd)
    as (Hdur & Hoff & Hfit & Hhalf).
  set (d := Z.of_nat (shape0 stim) / s) in *.
  destruct (convolve_hrf_run stim tr_duration hrf_type false
              temporal_resolution s d (s / 2) h hv)
    with (cols := fun c =>
            resample s d (s / 2) (full_convolution (np.column stim c) h))
    as (out & Hout & H0 & H1 & Hitem); try assumption; try lia.
  { intros c Hc. reflexivity. }
  exists out. split; [exact Hout|]. split; [lia|]. split; [exact H1|].
  intros k c Hk Hc.
  assert (Hidx : Z.of_nat k * s + s / 2 < d * s) by nia.
  split; [|lia].
  rewrite Hitem by assumption. rewrite resample_nth by lia.
  apply nth_firstn_lt. lia.
Qed.

(** X9: without scaling, row [k] of output column [c] is determined by
    input column [c] up to row [k * stride + stride // 2]: a second
    stimulus of the same shape that agrees with the first there, and
    differs in later rows or in other columns, gives the same entry. *)
Theorem convolve_hrf_looks_back
  {libm : math_module} {A : Type} {D : dtype A}
  (stim1 stim2 : ndarray2 A) (tr_duration temporal_resolution : float)
  (hrf_type : hrf_arg) (s : Z) (h : list pynum) (hv : list A)
  (c k : nat) :
  (1 <= shape1 stim1 <= shape0 stim1)%nat ->
  Z.of_nat (shape0 stim1) < int_exact_bound ->
  get_stride tr_duration temporal_resolution = Ok s ->
  1 <= s ->
  1 <= Z.of_nat (shape0 stim1) / s ->
  get_hrf hrf_type temporal_resolution = Ok (Some h) ->
  np.asarray h = Ok hv -> hv <> [] ->
  shape0 stim2 = shape0 stim1 -> shape1 stim2 = shape1 stim1 ->
  (c < shape1 stim1)%nat ->
  Z.of_nat k < Z.of_nat (shape0 stim1) / s ->
  (forall i, Z.of_nat i <= Z.of_nat k * s + s / 2 ->
     item stim2 i c = item stim1 i c) ->
  exists out1 out2,
    convolve_hrf stim1 tr_duration hrf_type false temporal_resolution
      = Ok out1 /\
    convolve_hrf stim2 tr_duration hrf_type false temporal_resolution
      = Ok out2 /\
    item out2 k c = item out1 k c.
Proof.
  intros Hshape HR Hstride Hs Hd Hhrf Hh Hhv E0 E1 Hc Hk Hagree.
  destruct (convolve_hrf_unscaled_run stim1 tr_duration temporal_resolution
              hrf_type s h hv) as (out1 & Hout1 & R1 & _ & Hitem1);
    try assumption.
  destruct (convolve_hrf_unscaled_run stim2 tr_duration temporal_resolution
              hrf_type s h hv) as (out2 & Hout2 & R2 & _ & Hitem2);
    try assumption; try (rewrite ?E0, ?E1; assumption).
  exists out1, out2. split; [exact Hout1|]. split; [exact Hout2|].
  rewrite E0 in R2. rewrite E1 in Hitem2.
  destruct (Hitem1 k c) as [-> Hidx]; [lia | exact Hc |].
  destruct (Hitem2 k c) as [-> _]; [lia | exact Hc |].
  apply full_convolution_agree.
  - rewrite !column_length. exact E0.
  - intros i Hi. destruct (Nat.lt_ge_cases i (shape0 stim1)) as [Hlt|Hge].
    + rewrite !column_nth by lia. apply Hagree.
      assert (0 <= Z.of_nat k * s) by nia.
      assert (0 <= s / 2) by (apply Z.div_pos; lia). lia.
    + rewrite !nth_overflow by (rewrite column_length; lia). reflexivity.
Qed.

(** X9 on a run: the second stimulus differs in column 1 and from row 4
    on; row 1 of column 0 reads rows 0 to 3. *)
Lemma convolve_hrf_looks_back_witness :
  (forall i, Z.of_nat i <= 1 * 2 + 2 / 2 ->
     item stim_7x2_late i 0 = item stim_7x2 i 0) /\
  item stim_7x2_late 4 0 <> item stim_7x2 4 0 /\
  exists out1 out2,
    convolve_hrf (libm := Libm.approx) stim_7x2 2 (HrfList kernel3) false 1
      = Ok out1 /\
    convolve_hrf (libm := Libm.approx) stim_7x2_late 2 (HrfList kernel3)
                 false 1 = Ok out2 /\
    item out2 1 0 = item out1 1 0.
Proof.
  assert (Hagree : forall i, Z.of_nat i <= 1 * 2 + 2 / 2 ->
            item stim_7x2_late i 0 = item stim_7x2 i 0).
  { intros i Hi. change (1 * 2 + 2 / 2) with 3 in Hi.
    destruct i as [|[|[|[|i]]]]; try reflexivity. lia. }
  split; [exact Hagree|]. split.
  { intros E. vm_compute in E. discriminate E. }
  apply (convolve_hrf_looks_back (libm := Libm.approx)
           stim_7x2 stim_7x2_late 2 1 (HrfList kernel3) 2 kernel3
           [1; 10; 0.5]%float 0 1);
    concrete.
Defined.

(** X10: with an HRF of one tap [w] and no scaling, the output is the
    stimulus sampled at the middle of each TR window and multiplied by
    [w]: row [k] is [0 + stimfunction[k * stride + stride // 2] * w]. *)
Theorem convolve_hrf_single_tap
  {libm : math_module} {A : Type} {D : dtype A}
  (stim : ndarray2 A) (tr_duration temporal_resolution : float)
  (s : Z) (w : pynum) (w' : A) :
  (1 <= shape1 stim <= shape0 stim)%nat ->
  Z.of_nat (shape0 stim) < int_exact_bound ->
  get_stride tr_duration temporal_resolution = Ok s ->
  1 <= s ->
  1 <= Z.of_nat (shape0 stim) / s ->
  dof_py w = Ok w' ->
  exists out,
    convolve_hrf stim tr_duration (HrfList [w]) false temporal_resolution
      = Ok out /\
    Z.of_nat (shape0 out) = Z.of_nat (shape0 stim) / s /\
    shape1 out = shape1 stim /\
    forall k c, (k < shape0 out)%nat -> (c < shape1 stim)%nat ->
      item out k c =
      dadd dzero
           (dmul (item stim (Z.to_nat (Z.of_nat k * s + s / 2)) c) w').
Proof.
  intros Hshape HR Hstride Hs Hd Hw.
  destruct (convolve_hrf_unscaled_run stim tr_duration temporal_resolution
              (HrfList [w]) s [w] [w'])
    as (out & Hout & H0 & H1 & Hitem); try assumption.
  { reflexivity. }
  { unfold np.asarray. cbn [map_result]. rewrite Hw. reflexivity. }
  { discriminate. }
  exists out. split; [exact Hout|]. split; [exact H0|]. split; [exact H1|].
  intros k c Hk Hc. destruct (Hitem k c Hk Hc) as [-> Hidx].
  rewrite (full_convolution_single_tap _ w w')
    by (try assumption; rewrite column_length; lia).
  rewrite column_nth by lia. reflexivity.
Qed.

(** X10 on a run: two samples per TR and the tap [1.0]: the rows 1, 3
    and 5 of the stimulus. *)
Lemma convolve_hrf_single_tap_witness :
  get_stride 2 1 = Ok 2 /\
  exists out,
    convolve_hrf (libm := Libm.approx) stim_7x2 2 (HrfList [PyFloat 1])
                 false 1 = Ok out /\
    np.tolist out = [[2; 0]; [4; 1]; [6; 0]]%float.
Proof.
  split; [reflexivity|].
  destruct (convolve_hrf_single_tap (libm := Libm.approx)
              stim_7x2 2 1 2 (PyFloat 1) 1%float)
    as (out & Hout & H0 & H1 & Hitem);
    [concrete .. |].
  exists out. split; [exact Hout|].
  assert (Hrows : shape0 out = 3%nat)
    by (apply Nat2Z.inj; rewrite H0; reflexivity).
  unfold np.tolist. rewrite Hrows, H1.
  change (shape1 stim_7x2) with 2%nat in *. cbn [seq map].
  rewrite !Hitem by lia. vm_compute. reflexivity.
Defined.

(** ** binary64 runs: the scaled output from the unscaled one *)

Lemma is_nan_eq (x : float) : is_nan x = true -> x = nan.
Proof.
  intros H. apply is_nan_spec in H. apply Prim2SF_inj. rewrite H.
  reflexivity.
Qed.

Lemma div_nan_r (x : float) : (x / nan)%float = nan.
Proof.
  apply Prim2SF_inj. rewrite div_spec. unfold SF64div.
  change (Prim2SF nan) with S754_nan. destruct (Prim2SF x); reflexivity.
Qed.

(** The maximum of an array that holds a NaN is the NaN. *)
Lemma fold_maximum_nan (v : list float) : forall x,
  is_nan x = true \/ Exists (fun y => is_nan y = true) v ->
  fold_left float64_maximum v x = nan.
Proof.
  induction v as [|y v IH]; intros x H; cbn [fold_left].
  - destruct H as [H|H]; [apply is_nan_eq; exact H | inversion H].
  - apply IH. unfold float64_maximum.
    destruct H as [H|H].
    + left. rewrite H. exact H.
    + inversion H as [? ? Hy|? ? Hv]; subst.
      * left. destruct (is_nan x) eqn:Hx; [exact Hx|]. rewrite Hy. exact Hy.
      * right. exact Hv.
Qed.

(** A quotient by a zero is an infinity or a NaN. *)
Lemma div_zero_not_finite (x m : float) :
  (m =? 0)%float = true -> is_finite (x / m) = false.
Proof.
  intros Hm. unfold is_finite. rewrite negb_false_iff, orb_true_iff.
  assert (Hz : exists s, Prim2SF m = S754_zero s).
  { rewrite FloatAxioms.eqb_spec in Hm.
    change (Prim2SF 0) with (S754_zero false) in Hm.
    unfold SFeqb, SFcompare in Hm.
    destruct (Prim2SF m) as [s|[]| |[] ? ?]; try discriminate Hm.
    exists s. reflexivity. }
  destruct Hz as [sm Hz].
  assert (E : Prim2SF (x / m) = S754_nan \/
              exists s, Prim2SF (x / m) = S754_infinity s).
  { rewrite div_spec, Hz. unfold SF64div.
    destruct (Prim2SF x); cbn; eauto. }
  destruct E as [E|E];
    [left; apply is_nan_spec | right; apply is_infinity_spec]; exact E.
Qed.

(** A scaled binary64 run next to the unscaled one: the same shape, and
    every column divided by its maximum. *)
Lemma convolve_hrf_scaled_of_unscaled
  {libm : math_module} (stim : ndarray2 float)
  (tr_duration temporal_resolution : float) (hrf_type : hrf_arg)
  (s : Z) (h : list pynum) (hv : list float) :
  (1 <= shape1 stim <= shape0 stim)%nat ->
  Z.of_nat (shape0 stim) < int_exact_bound ->
  get_stride tr_duration temporal_resolution = Ok s ->
  1 <= s ->
  1 <= Z.of_nat (shape0 stim) / s ->
  get_hrf hrf_type temporal_resolution = Ok (Some h) ->
  np.asarray h = Ok hv -> hv <> [] ->
  exists u out,
    convolve_hrf stim tr_duration hrf_type false temporal_resolution
      = Ok u /\
    convolve_hrf stim tr_duration hrf_type true temporal_resolution
      = Ok out /\
    shape0 out = shape0 u /\ shape1 out = shape1 u /\
    shape1 u = shape1 stim /\ (1 <= shape0 u)%nat /\
    forall c, (c < shape1 stim)%nat ->
      exists m,
        np.max (np.column u c) = Ok m /\
        forall k, (k < shape0 out)%nat ->
          item out k c = (item u k c / m)%float.
Proof.
  intros Hshape HR Hstride Hs Hd Hhrf Hh Hhv.
  destruct (run_conditions stim s Hshape HR Hs Hd)
    as (Hdur & Hoff & Hfit & Hhalf).
  set (d := Z.of_nat (shape0 stim) / s) in *.
  set (vox := fun c =>
         resample s d (s / 2) (full_convolution (np.column stim c) h)).
  assert (Hvox : forall c, List.length (vox c) = Z.to_nat d)
    by (intros c; apply resample_length).
  destruct (convolve_hrf_run stim tr_duration hrf_type false
              temporal_resolution s d (s / 2) h hv) with (cols := vox)
    as (u & Hu & U0 & U1 & Uitem); try assumption; try lia.
  { intros c Hc. reflexivity. }
  destruct (convolve_hrf_scaled_float64 stim tr_duration temporal_resolution
              hrf_type s h hv) as (out & Hout & H0 & H1 & Hcols);
    try assumption.
  exists u, out. split; [exact Hu|]. split; [exact Hout|].
  split; [lia|]. split; [congruence|]. split; [exact U1|]. split; [lia|].
  intros c Hc.
  destruct (Hcols c Hc) as (v & Hv & Hlen & _ & Hitem).
  destruct (signal_vox_of_full stim s d (s / 2) h hv) with (c := c)
    as [_ Hfull]; try assumption; try lia.
  fold (vox c) in Hfull. fold d in Hv. rewrite Hfull in Hv.
  injection Hv as <-.
  assert (Hcol : np.column u c = vox c).
  { apply (nth_ext _ _ 0%float 0%float).
    - rewrite column_length, Hvox. exact U0.
    - intros k Hk. rewrite column_length in Hk.
      transitivity (item u k c);
        [exact (column_nth u c k Hk) | exact (Uitem k c Hc)]. }
  rewrite Hcol.
  destruct (vox c) as [|x v'] eqn:E.
  { specialize (Hvox c). rewrite E in Hvox. cbn in Hvox. lia. }
  exists (fold_left float64_maximum v' x). split; [reflexivity|].
  intros k Hk. rewrite Hitem.
  rewrite (float64_scaled_nth _ (fold_left float64_maximum v' x))
    by (try reflexivity; lia).
  rewrite (Uitem k c Hc), E. reflexivity.
Qed.

(** X11: scaling is a last step on top of the unscaled result: on a call
    that reaches its end, the output with [scale_function = True] has
    the shape of the output [u] with [scale_function = False], and each
    of its columns is the column of [u] divided entry by entry by
    [np.max] of that column. *)
Theorem convolve_hrf_scaling_composes
  {libm : math_module} (stim : ndarray2 float)
  (tr_duration temporal_resolution : float) (hrf_type : hrf_arg)
  (s : Z) (h : list pynum) (hv : list float) :
  (1 <= shape1 stim <= shape0 stim)%nat ->
  Z.of_nat (shape0 stim) < int_exact_bound ->
  get_stride tr_duration temporal_resolution = Ok s ->
  1 <= s ->
  1 <= Z.of_nat (shape0 stim) / s ->
  get_hrf hrf_type temporal_resolution = Ok (Some h) ->
  np.asarray h = Ok hv -> hv <> [] ->
  exists u out,
    convolve_hrf stim tr_duration hrf_type false temporal_resolution
      = Ok u /\
    convolve_hrf stim tr_duration hrf_type true temporal_resolution
      = Ok out /\
    shape0 out = shape0 u /\ shape1 out = shape1 u /\
    forall c, (c < shape1 u)%nat ->
      exists m,
        np.max (np.column u c) = Ok m /\
        forall k, (k < shape0 u)%nat ->
          item out k c = (item u k c / m)%float.
Proof.
  intros Hshape HR Hstride Hs Hd Hhrf Hh Hhv.
  destruct (convolve_hrf_scaled_of_unscaled stim tr_duration
              temporal_resolution hrf_type s h hv)
    as (u & out & Hu & Hout & H0 & H1 & HC & _ & Hcols); try assumption.
  exists u, out. split; [exact Hu|]. split; [exact Hout|].
  split; [exact H0|]. split; [exact H1|].
  intros c Hc. rewrite HC in Hc. destruct (Hcols c Hc) as (m & Hm & Hdiv).
  exists m. split; [exact Hm|]. intros k Hk. apply Hdiv. lia.
Qed.

(** X11 on a run: column 0 of the unscaled output is [12, 35, 58]. *)
Lemma convolve_hrf_scaling_composes_witness :
  get_stride 2 1 = Ok 2 /\
  exists u out,
    convolve_hrf (libm := Libm.approx) stim_7x2 2 (HrfList kernel3) false 1
      = Ok u /\
    convolve_hrf (libm := Libm.approx) stim_7x2 2 (HrfList kernel3) true 1
      = Ok out /\
    np.tolist u = [[12; 0]; [35; 11]; [58; 0.5]]%float /\
    item out 1 0 = (35 / 58)%float.
Proof.
  split; [reflexivity|].
  destruct (convolve_hrf_scaling_composes (libm := Libm.approx)
              stim_7x2 2 1 (HrfList kernel3) 2 kernel3 [1; 10; 0.5]%float)
    as (u & out & Hu & Hout & H0 & H1 & Hcols);
    [concrete .. |].
  exists u, out. split; [exact Hu|]. split; [exact Hout|].
  vm_compute in Hu. injection Hu as <-.
  split; [vm_compute; reflexivity|].
  destruct (Hcols 0%nat) as (m & Hm & Hdiv); [cbn; lia|].
  vm_compute in Hm. injection Hm as <-.
  rewrite (Hdiv 1%nat) by (cbn; lia). vm_compute. reflexivity.
Defined.

(** X12: scaling never raises on a column whose maximum is zero: numpy
    divides, and no entry of the scaled column is finite (an infinity
    where the unscaled entry is not zero, a NaN where it is). *)
Theorem convolve_hrf_zero_maximum_not_finite
  {libm : math_module} (stim : ndarray2 float)
  (tr_duration temporal_resolution : float) (hrf_type : hrf_arg)
  (s : Z) (h : list pynum) (hv : list float) :
  (1 <= shape1 stim <= shape0 stim)%nat ->
  Z.of_nat (shape0 stim) < int_exact_bound ->
  get_stride tr_duration temporal_resolution = Ok s ->
  1 <= s ->
  1 <= Z.of_nat (shape0 stim) / s ->
  get_hrf hrf_type temporal_resolution = Ok (Some h) ->
  np.asarray h = Ok hv -> hv <> [] ->
  exists u out,
    convolve_hrf stim tr_duration hrf_type false temporal_resolution
      = Ok u /\
    convolve_hrf stim tr_duration hrf_type true temporal_resolution
      = Ok out /\
    shape0 out = shape0 u /\ shape1 out = shape1 u /\
    forall c m, (c < shape1 u)%nat ->
      np.max (np.column u c) = Ok m -> (m =? 0)%float = true ->
      forall k, (k < shape0 u)%nat -> is_finite (item out k c) = false.
Proof.
  intros Hshape HR Hstride Hs Hd Hhrf Hh Hhv.
  destruct (convolve_hrf_scaled_of_unscaled stim tr_duration
              temporal_resolution hrf_type s h hv)
    as (u & out & Hu & Hout & H0 & H1 & HC & _ & Hcols); try assumption.
  exists u, out. split; [exact Hu|]. split; [exact Hout|].
  split; [exact H0|]. split; [exact H1|].
  intros c m Hc Hm Hzero k Hk. rewrite HC in Hc.
  destruct (Hcols c Hc) as (m' & Hm' & Hdiv).
  rewrite Hm in Hm'. injection Hm' as <-.
  rewrite Hdiv by lia. apply div_zero_not_finite. exact Hzero.
Qed.

(** X12 on a run: the column [-1, 0] has the maximum 0 and scales to
    minus infinity and NaN. *)
Lemma convolve_hrf_zero_maximum_not_finite_witness :
  get_stride 1 1 = Ok 1 /\
  exists u out,
    convolve_hrf (libm := Libm.approx) stim_2x1_nonpositive 1
                 (HrfList [PyFloat 1]) false 1 = Ok u /\
    convolve_hrf (libm := Libm.approx) stim_2x1_nonpositive 1
                 (HrfList [PyFloat 1]) true 1 = Ok out /\
    np.max (np.column u 0) = Ok 0%float /\
    is_finite (item out 0 0) = false /\
    is_finite (item out 1 0) = false.
Proof.
  split; [reflexivity|].
  destruct (convolve_hrf_zero_maximum_not_finite (libm := Libm.approx)
              stim_2x1_nonpositive 1 1 (HrfList [PyFloat 1]) 1
              [PyFloat 1] [1%float])
    as (u & out & Hu & Hout & H0 & H1 & Hcols);
    [concrete .. |].
  exists u, out. split; [exact Hu|]. split; [exact Hout|].
  vm_compute in Hu. injection Hu as <-.
  split; [vm_compute; reflexivity|].
  split; eapply (Hcols 0%nat 0%float); try reflexivity; cbn; lia.
Defined.

(** X13: one NaN in a column of the unscaled output turns the whole
    scaled column into NaN: [np.max] hands the NaN on and every entry is
    divided by it. *)
Theorem convolve_hrf_nan_spreads
  {libm : math_module} (stim : ndarray2 float)
  (tr_duration temporal_resolution : float) (hrf_type : hrf_arg)
  (s : Z) (h : list pynum) (hv : list float) :
  (1 <= shape1 stim <= shape0 stim)%nat ->
  Z.of_nat (shape0 stim) < int_exact_bound ->
  get_stride tr_duration temporal_resolution = Ok s ->
  1 <= s ->
  1 <= Z.of_nat (shape0 stim) / s ->
  get_hrf hrf_type temporal_resolution = Ok (Some h) ->
  np.asarray h = Ok hv -> hv <> [] ->
  exists u out,
    convolve_hrf stim tr_duration hrf_type false temporal_resolution
      = Ok u /\
    convolve_hrf stim tr_duration hrf_type true temporal_resolution
      = Ok out /\
    shape0 out = shape0 u /\ shape1 out = shape1 u /\
    forall c i, (c < shape1 u)%nat -> (i < shape0 u)%nat ->
      is_nan (item u i c) = true ->
      forall k, (k < shape0 u)%nat -> item out k c = nan.
Proof.
  intros Hshape HR Hstride Hs Hd Hhrf Hh Hhv.
  destruct (convolve_hrf_scaled_of_unscaled stim tr_duration
              temporal_resolution hrf_type s h hv)
    as (u & out & Hu & Hout & H0 & H1 & HC & _ & Hcols); try assumption.
  exists u, out. split; [exact Hu|]. split; [exact Hout|].
  split; [exact H0|]. split; [exact H1|].
  intros c i Hc Hi Hnan k Hk. rewrite HC in Hc.
  destruct (Hcols c Hc) as (m & Hm & Hdiv).
  rewrite Hdiv by lia.
  assert (Hin : In (item u i c) (np.column u c)).
  { unfold np.column. apply in_map_iff. exists i.
    split; [reflexivity | apply in_seq; lia]. }
  destruct (np.column u c) as [|x v'] eqn:E; [destruct Hin|].
  cbn [np.max] in Hm. injection Hm as <-.
  rewrite fold_maximum_nan; [apply div_nan_r|].
  destruct Hin as [Hx|Hin]; [left; rewrite Hx; exact Hnan|].
  right. apply Exists_exists. exists (item u i c). split; assumption.
Qed.

(** X13 on a run: a NaN in row 1 of the stimulus reaches row 0 of the
    unscaled output, and both rows of the scaled one. *)
Lemma convolve_hrf_nan_spreads_witness :
  get_stride 2 1 = Ok 2 /\
  exists u out,
    convolve_hrf (libm := Libm.approx) stim_4x1_nan 2
                 (HrfList [PyFloat 1]) false 1 = Ok u /\
    convolve_hrf (libm := Libm.approx) stim_4x1_nan 2
                 (HrfList [PyFloat 1]) true 1 = Ok out /\
    np.tolist u = [[nan]; [4]]%float /\
    item out 0 0 = nan /\ item out 1 0 = nan.
Proof.
  split; [reflexivity|].
  destruct (convolve_hrf_nan_spreads (libm := Libm.approx)
              stim_4x1_nan 2 1 (HrfList [PyFloat 1]) 2
              [PyFloat 1] [1%float])
    as (u & out & Hu & Hout & H0 & H1 & Hcols);
    [concrete .. |].
  exists u, out. split; [exact Hu|]. split; [exact Hout|].
  vm_compute in Hu. injection Hu as <-.
  split; [vm_compute; reflexivity|].
  split; apply (Hcols 0%nat 0%nat); try reflexivity; cbn; lia.
Defined.

(** ** binary64: sums and products of zeros *)

Lemma eqb_zero_signed_zero (x : float) :
  (x =? 0)%float = true -> signed_zero x.
Proof.
  rewrite FloatAxioms.eqb_spec.
  change (Prim2SF 0) with (S754_zero false).
  unfold signed_zero, SFeqb, SFcompare.
  destruct (Prim2SF x) as [s|[]| |[] ? ?]; intros H; try discriminate H.
  exists s. reflexivity.
Qed.

Lemma is_finite_cases (x : float) :
  is_finite x = true ->
  signed_zero x \/ exists s m e, Prim2SF x = S754_finite s m e.
Proof.
  unfold is_finite, signed_zero. rewrite negb_true_iff, orb_false_iff.
  intros [Hnan Hinf]. destruct (Prim2SF x) as [s|s| |s m e] eqn:E.
  - left. exists s. reflexivity.
  - assert (H : is_infinity x = true)
      by (apply is_infinity_spec; exists s; exact E).
    congruence.
  - assert (H : is_nan x = true) by (apply is_nan_spec; exact E).
    congruence.
  - right. exists s, m, e. reflexivity.
Qed.

(** A zero times a finite float is a zero, on either side. *)
Lemma mul_signed_zero (x y : float) :
  signed_zero x -> is_finite y = true ->
  signed_zero (x * y) /\ signed_zero (y * x).
Proof.
  intros [sx Hx] Hy. unfold signed_zero. rewrite !mul_spec, Hx.
  unfold SF64mul.
  destruct (is_finite_cases y Hy) as [[sy ->]|(sy & m & e & ->)];
    cbn [SFmul]; eauto.
Qed.

(** The positive zero plus a zero is the positive zero. *)
Lemma add_zero_signed_zero (y : float) :
  signed_zero y -> (0 + y)%float = 0%float.
Proof.
  intros [s Hy]. apply Prim2SF_inj. rewrite add_spec, Hy.
  change (Prim2SF 0) with (S754_zero false). destruct s; reflexivity.
Qed.

Lemma fold_add_zeros (f : nat -> float) (js : list nat) :
  (forall j, signed_zero (f j)) ->
  fold_left (fun acc j => (acc + f j)%float) js 0%float = 0%float.
Proof.
  intros Hf. induction js as [|j js IH]; cbn [fold_left]; [reflexivity|].
  rewrite add_zero_signed_zero by apply Hf. exact IH.
Qed.

Lemma signed_zero_0 : signed_zero 0%float.
Proof. exists false. reflexivity. Qed.

(** No stimulus, no response: the convolution of zeros with finite
    numbers is zero, whichever argument comes first. *)
Lemma conv_at_zeros (a v : list float) (n : nat) :
  Forall signed_zero a -> Forall (fun w => is_finite w = true) v ->
  np.conv_at a v n = 0%float /\ np.conv_at v a n = 0%float.
Proof.
  intros Ha Hv. unfold np.conv_at. split.
  - apply (fold_add_zeros (fun j => (nth j a 0 * nth (n - j) v 0)%float)).
    intros j.
    apply (proj1 (mul_signed_zero (nth j a 0%float) (nth (n - j) v 0%float)
                    (Forall_nth_default _ a 0%float j Ha signed_zero_0)
                    (Forall_nth_default (fun w => is_finite w = true)
                       v 0%float (n - j) Hv eq_refl))).
  - apply (fold_add_zeros (fun j => (nth j v 0 * nth (n - j) a 0)%float)).
    intros j.
    apply (proj2 (mul_signed_zero (nth (n - j) a 0%float) (nth j v 0%float)
                    (Forall_nth_default _ a 0%float (n - j) Ha signed_zero_0)
                    (Forall_nth_default (fun w => is_finite w = true)
                       v 0%float j Hv eq_refl))).
Qed.

Lemma full_convolution_zeros (a : list float) (h : list pynum)
  (hv : list float) (n : nat) :
  np.asarray h = Ok hv ->
  Forall signed_zero a -> Forall (fun w => is_finite w = true) hv ->
  nth n (full_convolution a h) 0%float = 0%float.
Proof.
  intros Hh Ha Hv. unfold full_convolution, np.convolve. rewrite Hh.
  cbn [bind]. unfold np.convolve_arrays.
  assert (Hall : forall f L,
            (forall i, f i = 0%float) ->
            nth n (map f (seq 0 L)) 0%float = 0%float).
  { intros f L Hf. destruct (Nat.lt_ge_cases n L) as [Hn|Hn].
    - rewrite (nth_map_seq f L n 0%float Hn). apply Hf.
    - apply nth_overflow. rewrite length_map, length_seq. exact Hn. }
  destruct (List.length a <? List.length hv)%nat.
  - destruct (List.length hv =? 0)%nat; [destruct n; reflexivity|].
    destruct (List.length a =? 0)%nat; [destruct n; reflexivity|].
    apply Hall. intros i. exact (proj2 (conv_at_zeros a hv i Ha Hv)).
  - destruct (List.length a =? 0)%nat; [destruct n; reflexivity|].
    destruct (List.length hv =? 0)%nat; [destruct n; reflexivity|].
    apply Hall. intros i. exact (proj1 (conv_at_zeros a hv i Ha Hv)).
Qed.

(** X14: no stimulus, no response: with a finite HRF and no scaling, a
    [stimfunction] column of zeros (of either sign) gives an output
    column of positive zeros. *)
Theorem convolve_hrf_silent_column
  {libm : math_module} (stim : ndarray2 float)
  (tr_duration temporal_resolution : float) (hrf_type : hrf_arg)
  (s : Z) (h : list pynum) (hv : list float) (c0 : nat) :
  (1 <= shape1 stim <= shape0 stim)%nat ->
  Z.of_nat (shape0 stim) < int_exact_bound ->
  get_stride tr_duration temporal_resolution = Ok s ->
  1 <= s ->
  1 <= Z.of_nat (shape0 stim) / s ->
  get_hrf hrf_type temporal_resolution = Ok (Some h) ->
  np.asarray h = Ok hv -> hv <> [] ->
  Forall (fun w => is_finite w = true) hv ->
  (c0 < shape1 stim)%nat ->
  (forall i, (i < shape0 stim)%nat -> (item stim i c0 =? 0)%float = true) ->
  exists out,
    convolve_hrf stim tr_duration hrf_type false temporal_resolution
      = Ok out /\
    forall k, (k < shape0 out)%nat -> item out k c0 = 0%float.
Proof.
  intros Hshape HR Hstride Hs Hd Hhrf Hh Hhv Hfin Hc Hzero.
  destruct (convolve_hrf_unscaled_run stim tr_duration temporal_resolution
              hrf_type s h hv) as (out & Hout & _ & _ & Hitem);
    try assumption.
  exists out. split; [exact Hout|]. intros k Hk.
  destruct (Hitem k c0 Hk Hc) as [-> _].
  apply (full_convolution_zeros _ h hv); [exact Hh | | exact Hfin].
  unfold np.column. apply Forall_map, Forall_forall. intros i Hi.
  apply in_seq in Hi. apply eqb_zero_signed_zero, Hzero. lia.
Qed.

(** X14 on a run: column 0 holds zeros of both signs. *)
Lemma convolve_hrf_silent_column_witness :
  get_stride 2 1 = Ok 2 /\
  (forall i, (i < shape0 stim_4x2_silent)%nat ->
     (item stim_4x2_silent i 0 =? 0)%float = true) /\
  exists out,
    convolve_hrf (libm := Libm.approx) stim_4x2_silent 2 (HrfList kernel3)
                 false 1 = Ok out /\
    item out 0 0 = 0%float /\ item out 1 0 = 0%float.
Proof.
  assert (Hzero : forall i, (i < shape0 stim_4x2_silent)%nat ->
            (item stim_4x2_silent i 0 =? 0)%float = true).
  { intros i Hi. change (shape0 stim_4x2_silent) with 4%nat in Hi.
    destruct i as [|[|[|[|i]]]]; try reflexivity. lia. }
  split; [reflexivity|]. split; [exact Hzero|].
  destruct (convolve_hrf_silent_column (libm := Libm.approx)
              stim_4x2_silent 2 1 (HrfList kernel3) 2 kernel3
              [1; 10; 0.5]%float 0)
    as (out & Hout & Hitem);
    [concrete .. |].
  exists out. split; [exact Hout|].
  assert (Hrows : shape0 out = 2%nat).
  { vm_compute in Hout. injection Hout as <-. reflexivity. }
  split; apply Hitem; lia.
Defined.

(** X15: the docstring's same-length case, with its float condition:
    when the product [temporal_resolution * tr_duration] is the float
    1.0, the stride is 1, the unscaled output has as many rows as
    [stimfunction], and row [k] is entry [k] of the full convolution
    (the tail of [len(hrf) - 1] entries is cut off). *)
Theorem convolve_hrf_unit_stride
  {libm : math_module} {A : Type} {D : dtype A}
  (stim : ndarray2 A) (tr_duration temporal_resolution : float)
  (hrf_type : hrf_arg) (h : list pynum) (hv : list A) :
  (1 <= shape1 stim <= shape0 stim)%nat ->
  Z.of_nat (shape0 stim) < int_exact_bound ->
  (temporal_resolution * tr_duration)%float = 1%float ->
  get_hrf hrf_type temporal_resolution = Ok (Some h) ->
  np.asarray h = Ok hv -> hv <> [] ->
  exists out,
    convolve_hrf stim tr_duration hrf_type false temporal_resolution
      = Ok out /\
    shape0 out = shape0 stim /\ shape1 out = shape1 stim /\
    forall k c, (k < shape0 stim)%nat -> (c < shape1 stim)%nat ->
      item out k c = nth k (full_convolution (np.column stim c) h) dzero.
Proof.
  intros Hshape HR Hone Hhrf Hh Hhv.
  assert (Hstride : get_stride tr_duration temporal_resolution = Ok 1).
  { unfold get_stride. rewrite Hone. reflexivity. }
  destruct (convolve_hrf_unscaled_run stim tr_duration temporal_resolution
              hrf_type 1 h hv) as (out & Hout & H0 & H1 & Hitem);
    try assumption; try lia.
  { rewrite Z.div_1_r. lia. }
  rewrite Z.div_1_r in H0. apply Nat2Z.inj in H0.
  exists out. split; [exact Hout|]. split; [exact H0|]. split; [exact H1|].
  intros k c Hk Hc. destruct (Hitem k c) as [-> _]; [lia | exact Hc |].
  f_equal. change (1 / 2) with 0. lia.
Qed.

(** X15 on a run: half a sample per second and a TR of two seconds. *)
Lemma convolve_hrf_unit_stride_witness :
  (0.5 * 2)%float = 1%float /\
  exists out,
    convolve_hrf (libm := Libm.approx) stim_7x2 2 (HrfList kernel3) false
                 0.5 = Ok out /\
    shape0 out = 7%nat /\ item out 2 0 = 23.5%float.
Proof.
  split; [reflexivity|].
  destruct (convolve_hrf_unit_stride (libm := Libm.approx)
              stim_7x2 2 0.5 (HrfList kernel3) kernel3 [1; 10; 0.5]%float)
    as (out & Hout & H0 & H1 & Hitem);
    [concrete .. |].
  exists out. split; [exact Hout|]. split; [exact H0|].
  rewrite (Hitem 2%nat 0%nat) by (vm_compute; lia). vm_compute. reflexivity.
Defined.

(** X16: without scaling, a [stimfunction] with fewer rows than the
    stride is not an error: the duration is 0, every column resamples to
    an empty vector, and the call returns an array of no row and as many
    columns as [stimfunction]. *)
Theorem convolve_hrf_short_unscaled_is_empty
  {libm : math_module} {A : Type} {D : dtype A}
  (stim : ndarray2 A) (tr_duration temporal_resolution : float)
  (hrf_type : hrf_arg) (s : Z) (h : list pynum) (hv : list A) :
  (1 <= shape1 stim <= shape0 stim)%nat ->
  get_stride tr_duration temporal_resolution = Ok s ->
  Z.of_nat (shape0 stim) < s < int_exact_bound ->
  get_hrf hrf_type temporal_resolution = Ok (Some h) ->
  np.asarray h = Ok hv -> hv <> [] ->
  exists out,
    convolve_hrf stim tr_duration hrf_type false temporal_resolution
      = Ok out /\
    shape0 out = 0%nat /\ shape1 out = shape1 stim.
Proof.
  intros Hshape Hstride Hs Hhrf Hh Hhv.
  assert (Hdur : get_duration stim s = Ok 0).
  { rewrite get_duration_floor by lia. rewrite Z.div_small by lia.
    reflexivity. }
  assert (Hhalf : 0 <= s / 2 < s).
  { split; [apply Z.div_pos; lia | apply Z.div_lt; lia]. }
  destruct (convolve_hrf_run stim tr_duration hrf_type false
              temporal_resolution s 0 (s / 2) h hv)
    with (cols := fun c =>
            resample s 0 (s / 2) (full_convolution (np.column stim c) h))
    as (out & Hout & H0 & H1 & _); try assumption; try lia.
  { apply get_offset_floor. lia. }
  { intros c Hc. reflexivity. }
  exists out. split; [exact Hout|]. split; [exact H0 | exact H1].
Qed.

(** X16 on a run: one row, two samples per TR. *)
Lemma convolve_hrf_short_unscaled_is_empty_witness :
  get_stride 2 1 = Ok 2 /\
  exists out,
    convolve_hrf (libm := Libm.approx) stim_1x1 2 (HrfList [PyFloat 1])
                 false 1 = Ok out /\
    shape0 out = 0%nat /\ shape1 out = 1%nat.
Proof.
  split; [reflexivity|].
  apply (convolve_hrf_short_unscaled_is_empty (libm := Libm.approx)
           stim_1x1 2 1 (HrfList [PyFloat 1]) 2 [PyFloat 1] [1%float]);
    concrete.
Defined.
